(** * PaleoCore: data-point reconciliation, averages, age-model merge, splice

    A shallow embedding of the client-side data transformations of the
    PaleoCore application:

    - [calculateAveragesFromDataPoints]   (components/DataInputManager.tsx,
                                           components/CoreDashboard.tsx)
    - [handleAddDataPoint], [triggerHeaderMapping], [handleConfirmMapping]
                                          (components/DataInputManager.tsx)
    - [fetchSections]                     (components/CoreDashboard.tsx)
    - [dbSectionToAppSection], [mapCsvHeaders], [generateAgeModel]
                                          (services/coreService.ts)
    - [compositeSplice]                   (components/CoreSynthesisView.tsx)

    JavaScript objects are finite maps from property names to values
    ([gmap string value]); a [Map] is an insertion-ordered association list
    whose keys are compared with SameValueZero; [Array.prototype.sort] is the
    stable sort the language standard prescribes; numbers are kept behind an
    interface ([JSNumber]) so that every statement holds for IEEE-754 doubles
    as well as for the exact arithmetic used in the worked examples. *)

From Stdlib Require Import Ascii ZArith QArith Qround Lqa DecimalString DecimalNat DecimalN.
From stdpp Require Import gmap strings list fin_maps sorting.

Local Open Scope string_scope.
Local Open Scope nat_scope.

(* ===================================================================== *)
(** ** JavaScript numbers *)
(* ===================================================================== *)

(** The operations on numbers that the program uses.  [lt] is the relational
    operator [<] (false as soon as one side is NaN), [eqb] is [===] on two
    numbers, [sameValueZero] is the key comparison of [Map]. *)
Class JSNumber := {
  num : Type;
  nan : num;
  ofNat : nat → num;
  add : num → num → num;
  sub : num → num → num;
  div : num → num → num;
  lt : num → num → bool;
  eqb : num → num → bool;
  isNaN : num → bool;
  isFinite : num → bool;
  sameValueZero : num → num → bool;
  min : num → num → num;
  max : num → num → num;
  parseFloat : string → num;
  stringToNumber : string → num;
  numberToString : num → string;
  toFixed : num → nat → string
}.

Definition zero `{JSNumber} : num := ofNat 0.

(** The facts about IEEE-754 arithmetic that the ordering arguments rely on. *)
Class JSNumberLaws (JS : JSNumber) : Prop := {
  isNaN_nan : isNaN nan = true;
  isNaN_ofNat : ∀ n, isNaN (ofNat n) = false;
  lt_asym : ∀ a b, lt a b = true → lt b a = false;
  lt_cotrans : ∀ a b c, isNaN b = false → lt a c = true → lt a b = true ∨ lt b c = true;
  sub_pos : ∀ a b, isNaN a = false → isNaN b = false → lt zero (sub a b) = lt b a;
  eqb_lt_l : ∀ a b c, eqb a b = true → lt a c = lt b c;
  eqb_lt_r : ∀ a b c, eqb a b = true → lt c a = lt c b;
  sameValueZero_refl : ∀ a, sameValueZero a a = true;
  sameValueZero_sym : ∀ a b, sameValueZero a b = sameValueZero b a;
  sameValueZero_trans : ∀ a b c,
    sameValueZero a b = true → sameValueZero b c = true → sameValueZero a c = true;
  min_comm : ∀ a b, min a b = min b a;
  max_comm : ∀ a b, max a b = max b a;
  stringToNumber_empty : eqb (stringToNumber "") zero = true
}.

(* ===================================================================== *)
(** ** JavaScript values and objects *)
(* ===================================================================== *)

Section Values.
Context `{JS : JSNumber}.

Inductive value :=
  | VUndefined
  | VNull
  | VBool (b : bool)
  | VNum (n : num)
  | VStr (s : string).

(** A plain object: own enumerable properties. *)
Definition jsobj := gmap string value.

(** [o[k]]: a missing property reads as [undefined]. *)
Definition get (o : gmap string value) (k : string) : value :=
  default VUndefined (o !! k).

(** [{...a, ...b}] *)
Definition spread2 (a b : gmap string value) : gmap string value := b ∪ a.

(** ToBoolean *)
Definition truthy (v : value) : bool :=
  match v with
  | VUndefined | VNull => false
  | VBool b => b
  | VNum n => negb (isNaN n) && negb (eqb n zero)
  | VStr s => negb (String.eqb s "")
  end.

(** ToNumber *)
Definition toNumber (v : value) : num :=
  match v with
  | VUndefined => nan
  | VNull => zero
  | VBool b => if b then ofNat 1 else zero
  | VNum n => n
  | VStr s => stringToNumber s
  end.

(** [a || b] *)
Definition or_else (a b : value) : value := if truthy a then a else b.

(** [a >= b] and [a <= b] on numbers (false when a side is NaN). *)
Definition ge (a b : num) : bool := negb (isNaN a) && negb (isNaN b) && negb (lt a b).
Definition le (a b : num) : bool := negb (isNaN a) && negb (isNaN b) && negb (lt b a).

(** [typeof v === 'number' && isFinite(v)] *)
Definition isFiniteNumber (v : value) : bool :=
  match v with
  | VNum n => isFinite n
  | _ => false
  end.

(** SameValueZero on values, the key equality of [Map]. *)
Definition key_eqb (a b : value) : bool :=
  match a, b with
  | VUndefined, VUndefined => true
  | VNull, VNull => true
  | VBool x, VBool y => Bool.eqb x y
  | VNum x, VNum y => sameValueZero x y
  | VStr x, VStr y => String.eqb x y
  | _, _ => false
  end.

(** [a === b] *)
Definition strict_eqb (a b : value) : bool :=
  match a, b with
  | VUndefined, VUndefined => true
  | VNull, VNull => true
  | VBool x, VBool y => Bool.eqb x y
  | VNum x, VNum y => eqb x y
  | VStr x, VStr y => String.eqb x y
  | _, _ => false
  end.

(** [v === undefined] *)
Definition isUndefined (v : value) : bool :=
  match v with
  | VUndefined => true
  | _ => false
  end.

(** [String(v)] *)
Definition toStr (v : value) : string :=
  match v with
  | VUndefined => "undefined"
  | VNull => "null"
  | VBool b => if b then "true" else "false"
  | VNum n => numberToString n
  | VStr s => s
  end.

End Values.

Arguments value {JS}.
Arguments jsobj {JS}.

(* ===================================================================== *)
(** ** The average computer *)
(* ===================================================================== *)

Module Averages.
Section Averages.
Context `{JS : JSNumber}.

Definition labAnalysisKeys : list string :=
  ["delta18O"; "delta13C"; "mgCaRatio"; "tex86";
   "alkenoneSST"; "calculatedSST"; "baCa"; "srCa";
   "cdCa"; "radiocarbonDate"].

(** The two accumulators [sums] and [counts]. *)
Record acc := { sums : gmap string num; counts : gmap string nat }.

(** [labAnalysisKeys.forEach(key => { sums[key] = 0; counts[key] = 0; })] *)
Definition init_key (a : acc) (key : string) : acc :=
  {| sums := <[key := zero]> (sums a); counts := <[key := 0]> (counts a) |}.

Definition init : acc :=
  fold_left init_key labAnalysisKeys {| sums := ∅; counts := ∅ |}.

(** Body of the inner loop: [sums[key] += value; counts[key]++] under the
    guard [typeof value === 'number' && isFinite(value)].  A read of a
    missing accumulator entry yields [undefined], which arithmetic turns
    into NaN; [init] makes every read hit. *)
Definition step_key (point : gmap string value) (a : acc) (key : string) : acc :=
  match get point key with
  | VNum n =>
      if isFinite n then
        {| sums := <[key := add (default nan (sums a !! key)) n]> (sums a);
           counts := <[key := S (default 0 (counts a !! key))]> (counts a) |}
      else a
  | _ => a
  end.

Definition step_point (a : acc) (point : gmap string value) : acc :=
  fold_left (step_key point) labAnalysisKeys a.

(** Final loop: [if (counts[key] > 0) averages[key] = sums[key] / counts[key]] *)
Definition emit_key (a : acc) (averages : gmap string value) (key : string)
  : gmap string value :=
  if bool_decide (0 < default 0 (counts a !! key)) then
    <[key := VNum (div (default nan (sums a !! key))
                       (ofNat (default 0 (counts a !! key))))]> averages
  else averages.

Definition calculateAveragesFromDataPoints (dataPoints : list (gmap string value))
  : gmap string value :=
  match dataPoints with
  | [] => ∅
  | _ =>
      let a := fold_left step_point dataPoints init in
      fold_left (emit_key a) labAnalysisKeys ∅
  end.

(** The specification's reading: the finite numeric values a series carries
    for a key, in series order, and their mean. *)
Definition finiteValues (key : string) (dataPoints : list (gmap string value))
  : list num :=
  omap (λ p, match get p key with
             | VNum n => if isFinite n then Some n else None
             | _ => None
             end) dataPoints.

Definition total (l : list num) : num := fold_left add l zero.

Definition mean (l : list num) : num := div (total l) (ofNat (length l)).

Definition meanOfFinite (dataPoints : list (gmap string value)) (key : string)
  : option value :=
  match finiteValues key dataPoints with
  | [] => None
  | vs => Some (VNum (mean vs))
  end.

End Averages.
End Averages.

(* ===================================================================== *)
(** ** Strings *)
(* ===================================================================== *)

Module Str.

(** The double-quote character, written by its code. *)
Definition dquote : string := String (Ascii.ascii_of_nat 34) EmptyString.

(** Strings are sequences of bytes holding text in UTF-8.

    The characters [String.prototype.trim] strips are the white space and
    the line terminators of the language: U+0009 to U+000D and U+0020, one
    byte each; U+00A0, two bytes; U+1680, U+2000 to U+200A, U+2028, U+2029,
    U+202F, U+205F, U+3000 and U+FEFF, three bytes each. *)
Definition isWhiteSpace (c : Ascii.ascii) : bool :=
  let n := Ascii.nat_of_ascii c in
  (Nat.leb 9 n && Nat.leb n 13) || Nat.eqb n 32.

Definition isWhiteSpace2 (c1 c2 : Ascii.ascii) : bool :=
  Nat.eqb (Ascii.nat_of_ascii c1) 194 && Nat.eqb (Ascii.nat_of_ascii c2) 160.

Definition isWhiteSpace3 (c1 c2 c3 : Ascii.ascii) : bool :=
  let n1 := Ascii.nat_of_ascii c1 in
  let n2 := Ascii.nat_of_ascii c2 in
  let n3 := Ascii.nat_of_ascii c3 in
  (Nat.eqb n1 225 && Nat.eqb n2 154 && Nat.eqb n3 128)                (* U+1680 *)
  || (Nat.eqb n1 226 && Nat.eqb n2 128
      && ((Nat.leb 128 n3 && Nat.leb n3 138)               (* U+2000 to U+200A *)
          || Nat.eqb n3 168 || Nat.eqb n3 169                (* U+2028, U+2029 *)
          || Nat.eqb n3 175))                                        (* U+202F *)
  || (Nat.eqb n1 226 && Nat.eqb n2 129 && Nat.eqb n3 159)             (* U+205F *)
  || (Nat.eqb n1 227 && Nat.eqb n2 128 && Nat.eqb n3 128)             (* U+3000 *)
  || (Nat.eqb n1 239 && Nat.eqb n2 187 && Nat.eqb n3 191).            (* U+FEFF *)

Fixpoint trimStart (s : string) : string :=
  match s with
  | EmptyString => EmptyString
  | String c1 s1 =>
      if isWhiteSpace c1 then trimStart s1
      else
        match s1 with
        | EmptyString => s
        | String c2 s2 =>
            if isWhiteSpace2 c1 c2 then trimStart s2
            else
              match s2 with
              | EmptyString => s
              | String c3 s3 => if isWhiteSpace3 c1 c2 c3 then trimStart s3 else s
              end
        end
  end.

(** Nothing is left of a string of white space; any other string keeps its
    first byte. *)
Fixpoint trimEnd (s : string) : string :=
  match s with
  | EmptyString => EmptyString
  | String c s' =>
      if String.eqb (trimStart s) EmptyString then EmptyString
      else String c (trimEnd s')
  end.

(** [s.trim()] *)
Definition trim (s : string) : string := trimEnd (trimStart s).

(** [s.replace(',', '.')]: only the first comma is replaced. *)
Fixpoint replaceComma (s : string) : string :=
  match s with
  | EmptyString => EmptyString
  | String c s' =>
      if Ascii.eqb c ","%char then String "."%char s' else String c (replaceComma s')
  end.

(** Decimal rendering of a non-negative integer inside a template literal. *)
Definition decimal (n : nat) : string := NilEmpty.string_of_uint (Nat.to_uint n).
Definition decimalN (n : N) : string := NilEmpty.string_of_uint (N.to_uint n).

End Str.

(* ===================================================================== *)
(** ** [Map] and [Array.prototype.sort] *)
(* ===================================================================== *)

Module JSMap.
Section JSMap.
Context `{JS : JSNumber} {V : Type}.

(** Entries in insertion order; no two keys are SameValueZero-equal. *)
Definition t := list (value * V).

Fixpoint get (k : value) (m : list (value * V)) : option V :=
  match m with
  | [] => None
  | (k', v) :: m' => if key_eqb k' k then Some v else get k m'
  end.

Definition has (k : value) (m : list (value * V)) : bool :=
  bool_decide (is_Some (get k m)).

(** [m.set(k, v)]: an existing key keeps its position, a new key goes last. *)
Fixpoint set (k : value) (v : V) (m : list (value * V)) : list (value * V) :=
  match m with
  | [] => [(k, v)]
  | (k', v') :: m' =>
      if key_eqb k' k then (k', v) :: m' else (k', v') :: set k v m'
  end.

(** [new Map(entries)] *)
Definition of_entries (entries : list (value * V)) : list (value * V) :=
  fold_left (λ m e, set e.1 e.2 m) entries [].

(** [Array.from(m.values())] *)
Definition values (m : list (value * V)) : list V := m.*2.

Definition size (m : list (value * V)) : nat := length m.

End JSMap.
End JSMap.

Module JSArray.
Section JSArray.
Context `{JS : JSNumber} {A : Type}.

(** [Array.prototype.sort(compareFn)].  The standard requires a stable sort;
    a comparator result that is positive moves the second argument first,
    any other result (negative, zero, NaN) keeps the two in order.  For a
    consistent comparator the outcome is unique, and it is the one this
    insertion sort computes. *)
Fixpoint insert (compareFn : A → A → num) (x : A) (l : list A) : list A :=
  match l with
  | [] => [x]
  | y :: l' =>
      if lt zero (compareFn x y) then y :: insert compareFn x l' else x :: l
  end.

Definition sort (compareFn : A → A → num) (l : list A) : list A :=
  foldr (insert compareFn) [] l.

(** [l.findIndex(pred)]; [None] stands for [-1]. *)
Fixpoint findIndex (pred : A → bool) (l : list A) : option nat :=
  match l with
  | [] => None
  | x :: l' => if pred x then Some 0 else S <$> findIndex pred l'
  end.

(** [l.find(pred)] *)
Fixpoint find (pred : A → bool) (l : list A) : option A :=
  match l with
  | [] => None
  | x :: l' => if pred x then Some x else find pred l'
  end.

End JSArray.
End JSArray.

(* ===================================================================== *)
(** ** Property enumeration *)
(* ===================================================================== *)

(** The own properties of an object, given in the order of their creation;
    [for (k in o)] visits first the keys that are array indices, in
    ascending order, then the other keys in the order of their creation. *)
Module JSObject.

(** An array index: a property name that is the decimal numeral of an
    integer from 0 to 2^32 - 2. *)
Definition arrayIndex (key : string) : option N :=
  match NilEmpty.uint_of_string key with
  | Some d =>
      let n := N.of_uint d in
      if String.eqb (Str.decimalN n) key && (n <=? 4294967294)%N then Some n else None
  | None => None
  end.

Section ForIn.
Context {V : Type}.

(** The indexed properties, kept in ascending order of the index. *)
Fixpoint insertIndexed (e : N * (string * V)) (l : list (N * (string * V)))
  : list (N * (string * V)) :=
  match l with
  | [] => [e]
  | e' :: l' => if (e.1 <=? e'.1)%N then e :: l else e' :: insertIndexed e l'
  end.

Definition indexed (properties : list (string * V)) : list (N * (string * V)) :=
  omap (λ p, (λ n, (n, p)) <$> arrayIndex p.1) properties.

(** The properties whose key is no array index. *)
Definition named (properties : list (string * V)) : list (string * V) :=
  filter (λ p, arrayIndex p.1 = None) properties.

(** The properties in the order [for (k in o)] visits them. *)
Definition forIn (properties : list (string * V)) : list (string * V) :=
  ((foldr insertIndexed [] (indexed properties)).*2 ++ named properties)%list.

End ForIn.
End JSObject.

(* ===================================================================== *)
(** ** Sections *)
(* ===================================================================== *)

Section Model.
Context `{JS : JSNumber}.

(** The part of a [Section] the data path reads and writes; every other
    field is carried along untouched by the object spreads. *)
Record CoreSection := {
  sec_id : string;
  sec_name : string;
  dataPoints : list (gmap string value);
  labAnalysis : option (gmap string value)
}.

(** [{ ...section, dataPoints: pts, labAnalysis: lab }] *)
Definition withData (section : CoreSection) (pts : list (gmap string value))
    (lab : gmap string value) : CoreSection :=
  {| sec_id := sec_id section; sec_name := sec_name section;
     dataPoints := pts; labAnalysis := Some lab |}.

(** [(a, b) => (a.depth || 0) - (b.depth || 0)] *)
Definition depthKey (p : gmap string value) : num :=
  toNumber (or_else (get p "depth") (VNum zero)).

Definition byDepth (a b : gmap string value) : num := sub (depthKey a) (depthKey b).

(** [(a, b) => ((a.age as number) || 0) - ((b.age as number) || 0)] *)
Definition ageKey (p : gmap string value) : num :=
  toNumber (or_else (get p "age") (VNum zero)).

Definition byAge (a b : gmap string value) : num := sub (ageKey a) (ageKey b).

Inductive StatusType := Success | Error | Info.

End Model.

Arguments CoreSection {JS}.

(* ===================================================================== *)
(** ** Remote gateway and generative service (services/coreService.ts) *)
(* ===================================================================== *)

(** A JavaScript call either throws or returns. *)
Inductive Result (A : Type) :=
  | Throw (message : string)
  | Return (a : A).
Arguments Throw {A} message.
Arguments Return {A} a.

(** How [await ai.models.generateContent(...)] ends: the promise rejects,
    or it resolves to a response whose [text] may be missing. *)
Inductive GenerateContent :=
  | Rejected (message : string)
  | Resolved (text : option string).

Module CoreService.
Section CoreService.
Context `{JS : JSNumber}.

(** *** Rows of the [sections] table *)

Record SectionRow := {
  row_id : string;
  row_name : string;
  data_points : option (list (gmap string value));
  lab_analysis : option (gmap string value)
}.

(** The [dataPoints] field of [dbSectionToAppSection]:
    [(data_points || []).map((dp, index) =>
       ({ ...dp, subsection: dp.subsection || `Subsection ${index + 1}` }))] *)
Definition defaultSubsection (index : nat) (dp : gmap string value)
  : gmap string value :=
  <["subsection" :=
      or_else (get dp "subsection")
              (VStr ("Subsection " ++ Str.decimal (index + 1)))]> dp.

Definition dbSectionToAppSection (dbSection : SectionRow) : CoreSection :=
  {| sec_id := row_id dbSection;
     sec_name := row_name dbSection;
     dataPoints := imap defaultSubsection (default [] (data_points dbSection));
     labAnalysis := lab_analysis dbSection |}.

(** The reply of the hosted store to a [select]. *)
Record SelectReply := {
  reply_data : option (list SectionRow);
  reply_error : option string
}.

Definition fetchSectionsForCore (reply : SelectReply) : Result (list CoreSection) :=
  match reply_error reply with
  | Some e => Throw e
  | None =>
      match reply_data reply with
      | Some rows => Return (dbSectionToAppSection <$> rows)
      | None => Return []
      end
  end.

(** *** Header classification *)

#[local] Unset Elimination Schemes.
Inductive json :=
  | JNull
  | JBool (b : bool)
  | JNum (n : num)
  | JStr (s : string)
  | JArr (l : list json)
  | JObj (o : gmap string json).
#[local] Set Elimination Schemes.

(** [JSON.parse]; [None] stands for the SyntaxError it throws. *)
Variable JSON_parse : string → option json.

(** [headers.reduce((acc, header) => ({...acc, [header]: null}), {})] *)
Definition nullMapping (headers : list string) : gmap string json :=
  fold_left (λ acc header, <[header := JNull]> acc) headers ∅.

(** The body of the [try] block after the request resolved:
    [JSON.parse(response.text).mapping].  Reading a property of [null]
    throws; on any other non-object it yields [undefined]. *)
Definition readMapping (text : option string) : Result (option json) :=
  match text with
  | None => Throw "SyntaxError"
  | Some t =>
      match JSON_parse t with
      | None => Throw "SyntaxError"
      | Some JNull => Throw "TypeError"
      | Some (JObj o) => Return (o !! "mapping")
      | Some _ => Return None
      end
  end.

(** [mapCsvHeaders].  [ai] is the client, absent without an API key; it is
    applied to the headers the prompt is built from. *)
Definition mapCsvHeaders (ai : option (list string → GenerateContent))
    (headers : list string) : Result (option json) :=
  match ai with
  | None => Throw "API key is not configured."
  | Some generateContent =>
      match generateContent headers with
      | Rejected _ => Return (Some (JObj (nullMapping headers)))
      | Resolved text =>
          match readMapping text with
          | Throw _ => Return (Some (JObj (nullMapping headers)))
          | Return mapping => Return mapping
          end
      end
  end.

(** *** Age model *)

Record TiePoint := { tp_sectionId : string; tp_depth : num; tp_age : num }.

(** One element of a returned [dataPoints] array: the schema gives it a
    [depth] and a nullable [age]; an absent property reads [VUndefined]. *)
Record AiPoint := { ai_depth : value; ai_age : value }.

Record AiSection := {
  ai_id : string;
  ai_name : string;
  ai_dataPoints : option (list AiPoint)   (* [None]: missing or not an array *)
}.

(** What the request and [JSON.parse] leave in [calibratedSectionsFromAI]. *)
Inductive AgeModelReply :=
  | ReplyThrows (message : string)
  | ReplyNotArray
  | ReplySections (l : list AiSection).

(** [dp.age !== undefined && dp.age !== null] *)
Definition hasAge (dp : AiPoint) : bool :=
  match ai_age dp with
  | VUndefined | VNull => false
  | _ => true
  end.

Definition hasAnyAgeData (l : list AiSection) : bool :=
  existsb (λ cs, match ai_dataPoints cs with
                 | Some pts => existsb hasAge pts
                 | None => false
                 end) l.

(** [new Map(dataPoints.filter(...).map(dp => [dp.depth, dp.age]))] *)
Definition ageMapOf (pts : list AiPoint) : list (value * value) :=
  JSMap.of_entries
    ((λ dp, (ai_depth dp, ai_age dp)) <$>
       filter (λ dp, negb (isUndefined (ai_depth dp)) && hasAge dp) pts).

(** [parseFloat(Number(calculatedAge).toFixed(4))] *)
Definition roundedAge (calculatedAge : value) : num :=
  parseFloat (toFixed (toNumber calculatedAge) 4).

Definition updatePoint (ageMap : list (value * value)) (dp : gmap string value)
  : gmap string value :=
  match get dp "depth" with
  | VUndefined => dp
  | depth =>
      match JSMap.get depth ageMap with
      | Some calculatedAge => <["age" := VNum (roundedAge calculatedAge)]> dp
      | None => <["age" := get dp "age"]> dp
      end
  end.

Definition mergeSection (calibrated : list AiSection) (originalSection : CoreSection)
  : CoreSection :=
  match JSArray.find (λ cs, String.eqb (ai_id cs) (sec_id originalSection)) calibrated with
  | Some {| ai_dataPoints := Some pts |} =>
      let ageMap := ageMapOf pts in
      if Nat.eqb (JSMap.size ageMap) 0 then originalSection
      else {| sec_id := sec_id originalSection;
              sec_name := sec_name originalSection;
              dataPoints := updatePoint ageMap <$> dataPoints originalSection;
              labAnalysis := labAnalysis originalSection |}
  | _ => originalSection
  end.

(** The [try] block of [generateAgeModel] once the reply is in. *)
Definition calibrate (sections : list CoreSection) (reply : AgeModelReply)
  : Result (list CoreSection) :=
  match reply with
  | ReplyThrows m => Throw m
  | ReplyNotArray => Throw "The AI response for the age model was empty or invalid."
  | ReplySections [] => Throw "The AI response for the age model was empty or invalid."
  | ReplySections l =>
      if hasAnyAgeData l then Return (mergeSection l <$> sections)
      else Throw ("AI failed to calculate age data. This can happen if fewer than "
                  ++ "two tie-points are provided for a section. Please check your inputs.")
  end.

Definition generateAgeModel
    (ai : option (list CoreSection → list TiePoint → AgeModelReply))
    (sections : list CoreSection) (tiePoints : list TiePoint)
  : Result (list CoreSection) :=
  match ai with
  | None => Throw "API key is not configured."
  | Some request =>
      match calibrate sections (request sections tiePoints) with
      | Throw m => Throw ("AI Age Model Error: " ++ m)
      | Return finalSections => Return finalSections
      end
  end.

End CoreService.
End CoreService.

(* ===================================================================== *)
(** ** Manual entry and bulk import (components/DataInputManager.tsx) *)
(* ===================================================================== *)

Module DataInputManager.
Section DataInputManager.
Context `{JS : JSNumber}.

Definition initialFormState : gmap string string :=
  list_to_map
    [("subsection", ""); ("depth", ""); ("delta18O", ""); ("delta13C", "");
     ("mgCaRatio", ""); ("tex86", ""); ("alkenoneSST", ""); ("baCa", "");
     ("srCa", ""); ("cdCa", ""); ("radiocarbonDate", "")].

(** What one run of a handler does to the component: the status line it
    sets, the section it passes to [onUpdateSection] (if it calls it), and
    the form it leaves. *)
Record Outcome := {
  out_status : StatusType * string;
  out_update : option CoreSection;
  out_form : gmap string string
}.

(** Body of [for (const key in formState)]. *)
Definition form_step (st : gmap string value * bool) (kv : string * string)
  : gmap string value * bool :=
  let '(key, text) := kv in
  if negb (String.eqb key "subsection") && negb (String.eqb text "") then
    let numValue := parseFloat text in
    if negb (isNaN numValue) then (<[key := VNum numValue]> st.1, true) else st
  else st.

Definition readForm (subsectionId : string) (formState : gmap string string)
  : gmap string value * bool :=
  fold_left form_step (map_to_list formState)
            ({["subsection" := VStr subsectionId]}, false).

(** [dp => dp.subsection === subsectionId] *)
Definition hasSubsection (subsectionId : string) (dp : gmap string value) : bool :=
  strict_eqb (get dp "subsection") (VStr subsectionId).

(** Lines 115-127: update in place or append, then sort by depth. *)
Definition addOrUpdate (points : list (gmap string value))
    (subsectionId : string) (newPointData : gmap string value)
  : list (gmap string value) * string :=
  let '(newDataPoints, verb) :=
    match JSArray.findIndex (hasSubsection subsectionId) points with
    | Some existingPointIndex =>
        (alter (λ old, spread2 old newPointData) existingPointIndex points,
         "updated.")
    | None => ((points ++ [newPointData])%list, "added.")
    end in
  (JSArray.sort byDepth newDataPoints,
   "Subsection " ++ Str.dquote ++ subsectionId ++ Str.dquote ++ " " ++ verb).

Definition handleAddDataPoint (formState : gmap string string)
    (section : CoreSection) : Outcome :=
  let subsectionId := Str.trim (default "" (formState !! "subsection")) in
  if String.eqb subsectionId "" then
    {| out_status := (Error, "Subsection ID is a required field.");
       out_update := None; out_form := formState |}
  else
    let '(newPointData, hasValue) := readForm subsectionId formState in
    if negb hasValue then
      {| out_status :=
           (Error, "At least one data value (e.g., depth) must be provided.");
         out_update := None; out_form := formState |}
    else
      let '(newDataPoints, message) :=
        addOrUpdate (dataPoints section) subsectionId newPointData in
      let newLabAnalysis := Averages.calculateAveragesFromDataPoints newDataPoints in
      {| out_status := (Success, message);
         out_update := Some (withData section newDataPoints newLabAnalysis);
         out_form :=
           <["subsection" := "Sample " ++ Str.decimal (length newDataPoints + 1)]>
             initialFormState |}.

(** *** Header mapping *)

Inductive Format := Csv | Odv.

Definition upper (format : Format) : string :=
  match format with Csv => "CSV" | Odv => "ODV" end.

(** The part of the component state the import path writes. *)
Record ImportState := {
  status : option (StatusType * string);
  isProcessing : bool;
  csvHeaders : list string;
  headerMap : option CoreService.json;
  isMappingHeaders : bool
}.

(** Calls that leave the component. *)
Inductive Call :=
  | CallMapCsvHeaders (headers : list string)
  | CallOnUpdateSection (section : CoreSection).

(** The [complete] callback of [triggerHeaderMapping], given
    [results.meta.fields], a property the parser sets only when it reads a
    header row.  It returns the state it leaves and the calls it made, in
    order.  When [mapCsvHeaders] throws, the callback stops there. *)
Definition triggerHeaderMapping (JSON_parse : string → option CoreService.json)
    (ai : option (list string → GenerateContent))
    (format : Format) (fields : option (list string)) (st : ImportState)
  : ImportState * list Call :=
  let st1 := {| status := Some (Info, "Analyzing " ++ upper format ++ " headers with AI...");
                isProcessing := true; csvHeaders := csvHeaders st;
                headerMap := headerMap st; isMappingHeaders := isMappingHeaders st |} in
  let headers := default [] fields in
  if Nat.eqb (length headers) 0 then
    ({| status := Some (Error, "Could not read headers from " ++ upper format ++ ".");
        isProcessing := false; csvHeaders := csvHeaders st1;
        headerMap := headerMap st1; isMappingHeaders := isMappingHeaders st1 |}, [])
  else
    let st2 := {| status := status st1; isProcessing := isProcessing st1;
                  csvHeaders := headers; headerMap := headerMap st1;
                  isMappingHeaders := isMappingHeaders st1 |} in
    match CoreService.mapCsvHeaders JSON_parse ai headers with
    | Throw _ => (st2, [CallMapCsvHeaders headers])
    | Return aiMap =>
        ({| status := None; isProcessing := false; csvHeaders := headers;
            headerMap := aiMap; isMappingHeaders := true |},
         [CallMapCsvHeaders headers])
    end.

(** *** Confirmed mapping *)

(** [finalMap[header]] is usable when it is a non-empty string. *)
Definition mappedKeyOf (finalMap : gmap string (option string)) (header : string)
  : option string :=
  match finalMap !! header with
  | Some (Some key) => if String.eqb key "" then None else Some key
  | _ => None
  end.

(** Body of [for (const header in row)]. *)
Definition row_step (finalMap : gmap string (option string))
    (newRow : gmap string value) (cell : string * value) : gmap string value :=
  let '(header, v) := cell in
  match mappedKeyOf finalMap header with
  | None => newRow
  | Some mappedKey =>
      match v with
      | VNull | VUndefined => newRow
      | _ =>
          if strict_eqb v (VStr "") then newRow
          else if String.eqb mappedKey "subsection" then
            <[mappedKey := VStr (toStr v)]> newRow
          else
            let numValue := parseFloat (Str.replaceComma (toStr v)) in
            if negb (isNaN numValue) then <[mappedKey := VNum numValue]> newRow
            else newRow
      end
  end.

(** A row is the object the parser builds for a line of the file: its
    properties, one for each column, in the order of the columns. *)
Definition parseRow (finalMap : gmap string (option string))
    (row : list (string * value)) : gmap string value :=
  fold_left (row_step finalMap) (JSObject.forIn row) ∅.

(** [results.data.map(...).filter(dp => Object.keys(dp).length > 0)] *)
Definition parseData (finalMap : gmap string (option string))
    (data : list (list (string * value))) : list (gmap string value) :=
  filter (λ dp, negb (Nat.eqb (size dp) 0)) (parseRow finalMap <$> data).

(** [subsectionId && typeof subsectionId === 'string' && subsectionId.trim() !== ''] *)
Definition usableKey (subsectionId : value) : option string :=
  match subsectionId with
  | VStr s =>
      if truthy subsectionId && negb (String.eqb (Str.trim s) "") then Some s else None
  | _ => None
  end.

(** [`Imported-${Date.now()}-${index}`] *)
Definition uniqueId (now : N) (index : nat) : string :=
  "Imported-" ++ Str.decimalN now ++ "-" ++ Str.decimal index.

(** The counters and the map threaded through [parsedDataFromCsv.forEach]. *)
Record MergeState := {
  sectionPointsMap : list (value * gmap string value);
  updatedCount : nat;
  addedCount : nat
}.

(** Body of the [forEach]; [now] is what [Date.now()] returns when the row
    at [index] is visited. *)
Definition merge_step (now : nat → N) (st : MergeState)
    (index : nat) (newPoint : gmap string value) : MergeState :=
  let subsectionId := get newPoint "subsection" in
  match usableKey subsectionId with
  | Some _ =>
      {| sectionPointsMap :=
           JSMap.set subsectionId
             (spread2 (default ∅ (JSMap.get subsectionId (sectionPointsMap st))) newPoint)
             (sectionPointsMap st);
         updatedCount :=
           if JSMap.has subsectionId (sectionPointsMap st)
           then S (updatedCount st) else updatedCount st;
         addedCount :=
           if JSMap.has subsectionId (sectionPointsMap st)
           then addedCount st else S (addedCount st) |}
  | None =>
      let uid := VStr (uniqueId (now index) index) in
      {| sectionPointsMap :=
           JSMap.set uid (<["subsection" := uid]> newPoint) (sectionPointsMap st);
         updatedCount := updatedCount st;
         addedCount := S (addedCount st) |}
  end.

(** [forEach] from [index] on. *)
Fixpoint merge_from (now : nat → N) (index : nat)
    (rows : list (gmap string value)) (st : MergeState) : MergeState :=
  match rows with
  | [] => st
  | newPoint :: rows' =>
      merge_from now (S index) rows' (merge_step now st index newPoint)
  end.

(** Lines 222-240. *)
Definition mergeBatch (now : nat → N) (points rows : list (gmap string value))
  : MergeState :=
  merge_from now 0 rows
    {| sectionPointsMap :=
         JSMap.of_entries ((λ p, (get p "subsection", p)) <$> points);
       updatedCount := 0; addedCount := 0 |}.

(** Line 242. *)
Definition mergedPoints (now : nat → N) (points rows : list (gmap string value))
  : list (gmap string value) :=
  JSArray.sort byDepth (JSMap.values (sectionPointsMap (mergeBatch now points rows))).

(** What the second [Papa.parse] hands to its callbacks. *)
Inductive ParseOutcome :=
  | ReadError (message : string)
  | Complete (errors : list string) (data : list (list (string * value))).

Record ConfirmOutcome := {
  conf_status : option (StatusType * string);
  conf_calls : list Call
}.

(** [handleConfirmMapping]; [file] tells whether a file is selected. *)
Definition handleConfirmMapping (now : nat → N) (file : bool)
    (parsed : ParseOutcome) (finalMap : gmap string (option string))
    (section : CoreSection) (st : ImportState) : ConfirmOutcome :=
  if negb file then {| conf_status := status st; conf_calls := [] |}
  else
    match parsed with
    | ReadError message =>
        {| conf_status := Some (Error, "File Read Error: " ++ message); conf_calls := [] |}
    | Complete (e :: _) _ =>
        {| conf_status := Some (Error, "Parsing Error: " ++ e); conf_calls := [] |}
    | Complete [] data =>
        let parsedDataFromCsv := parseData finalMap data in
        if Nat.eqb (length parsedDataFromCsv) 0 then
          {| conf_status :=
               Some (Error, "No valid data points could be parsed from the file.");
             conf_calls := [] |}
        else
          let merged := mergeBatch now (dataPoints section) parsedDataFromCsv in
          let mergedPoints :=
            JSArray.sort byDepth (JSMap.values (sectionPointsMap merged)) in
          let newLabAnalysis := Averages.calculateAveragesFromDataPoints mergedPoints in
          {| conf_status :=
               Some (Success,
                     Str.decimal (addedCount merged) ++ " new subsections added, "
                     ++ Str.decimal (updatedCount merged) ++ " updated.");
             conf_calls :=
               [CallOnUpdateSection (withData section mergedPoints newLabAnalysis)] |}
    end.

End DataInputManager.
End DataInputManager.

(* ===================================================================== *)
(** ** Loading sections (components/CoreDashboard.tsx) *)
(* ===================================================================== *)

Module CoreDashboard.
Section CoreDashboard.
Context `{JS : JSNumber}.

(** The callback of [fetchedSections.map] in [fetchSections]. *)
Definition withAverages (section : CoreSection) : CoreSection :=
  if negb (Nat.eqb (length (dataPoints section)) 0) then
    {| sec_id := sec_id section; sec_name := sec_name section;
       dataPoints := dataPoints section;
       labAnalysis :=
         Some (Averages.calculateAveragesFromDataPoints (dataPoints section)) |}
  else section.

(** [fetchSections]: the new value of the [sections] state and the toast
    shown, given the reply of the store. *)
Definition fetchSections (reply : CoreService.SelectReply)
    (sections : list CoreSection) : list CoreSection * option string :=
  match CoreService.fetchSectionsForCore reply with
  | Return fetchedSections => (withAverages <$> fetchedSections, None)
  | Throw message => (sections, Some ("Error fetching sections: " ++ message))
  end.

(** [handleUpdateSectionData], the [onUpdateSection] the tabs receive.
    [updateSection] stands for the round trip through the hosted store. *)
Definition handleUpdateSectionData (updateSection : CoreSection → Result CoreSection)
    (updatedSection : CoreSection) (sections : list CoreSection)
  : list CoreSection * option string :=
  match updateSection updatedSection with
  | Return newSection =>
      ((λ s, if String.eqb (sec_id s) (sec_id newSection) then newSection else s)
         <$> sections, None)
  | Throw message => (sections, Some ("Error updating section: " ++ message))
  end.

(** The [sections] state once a handler of the data-entry tab has run:
    [update] is the section it passed to [onUpdateSection], if any. *)
Definition afterHandler (updateSection : CoreSection → Result CoreSection)
    (update : option CoreSection) (sections : list CoreSection) : list CoreSection :=
  match update with
  | Some updatedSection => (handleUpdateSectionData updateSection updatedSection sections).1
  | None => sections
  end.

End CoreDashboard.
End CoreDashboard.

(* ===================================================================== *)
(** ** Synthesis (components/CoreSynthesisView.tsx) *)
(* ===================================================================== *)

Module CoreSynthesisView.
Section CoreSynthesisView.
Context `{JS : JSNumber}.

Record SpliceInterval := {
  sectionId : string;
  startAge : option num;       (* [None] is [null] *)
  endAge : option num
}.

(** [point.age !== undefined && point.age >= start && point.age <= end] *)
Definition inInterval (start end_ : num) (point : gmap string value) : bool :=
  negb (isUndefined (get point "age"))
  && ge (toNumber (get point "age")) start
  && le (toNumber (get point "age")) end_.

(** Body of [calibratedSections.forEach]: the points one section pushes. *)
Definition pointsOf (spliceIntervals : gmap string SpliceInterval)
    (section : CoreSection) : list (gmap string value) :=
  match spliceIntervals !! sec_id section with
  | Some {| startAge := Some s; endAge := Some e |} =>
      filter (λ point, inInterval (min s e) (max s e) point) (dataPoints section)
  | _ => []
  end.

Definition compositeSplice (calibratedSections : option (list CoreSection))
    (spliceIntervals : gmap string SpliceInterval) : list (gmap string value) :=
  match calibratedSections with
  | None => []
  | Some sections =>
      JSArray.sort byAge
        (fold_left (λ allPoints section, (allPoints ++ pointsOf spliceIntervals section)%list)
                   sections [])
  end.

(** [handleGenerateAgeModel]: the new value of [calibratedSections] and the
    toast shown. *)
Definition handleGenerateAgeModel
    (ai : option (list CoreSection → list CoreService.TiePoint → CoreService.AgeModelReply))
    (sections : list CoreSection) (tiePoints : list CoreService.TiePoint)
    (calibratedSections : option (list CoreSection))
  : option (list CoreSection) * (StatusType * string) :=
  if Nat.ltb (length tiePoints) 2 then
    (calibratedSections,
     (Error, "At least two tie-points are required to generate an age model."))
  else
    match CoreService.generateAgeModel ai sections tiePoints with
    | Return result => (Some result, (Success, "Age models generated successfully!"))
    | Throw message =>
        (calibratedSections, (Error, "Error generating age model: " ++ message))
    end.

End CoreSynthesisView.
End CoreSynthesisView.

(* ===================================================================== *)
(** ** Exact arithmetic: an instance of the number interface *)
(* ===================================================================== *)

(** Numbers with NaN, the two infinities, and rationals for the finite
    values, computed without rounding.  The worked examples below run on
    it. *)
Module Exact.

Inductive xnum :=
  | XNaN
  | XInf (negative : bool)
  | XFin (q : Q).

Definition Qltb (a b : Q) : bool := negb (Qle_bool b a).

Definition fin (q : Q) : xnum := XFin (Qred q).

Definition xneg (a : xnum) : xnum :=
  match a with
  | XNaN => XNaN
  | XInf s => XInf (negb s)
  | XFin q => fin (- q)
  end.

Definition xadd (a b : xnum) : xnum :=
  match a, b with
  | XNaN, _ | _, XNaN => XNaN
  | XInf s, XInf t => if Bool.eqb s t then XInf s else XNaN
  | XInf s, XFin _ | XFin _, XInf s => XInf s
  | XFin p, XFin q => fin (p + q)
  end.

Definition xsub (a b : xnum) : xnum := xadd a (xneg b).

Definition xdiv (a b : xnum) : xnum :=
  match a, b with
  | XNaN, _ | _, XNaN => XNaN
  | XInf _, XInf _ => XNaN
  | XInf s, XFin q => XInf (xorb s (Qltb q 0))
  | XFin _, XInf _ => fin 0
  | XFin p, XFin q =>
      if Qeq_bool q 0 then
        if Qeq_bool p 0 then XNaN else XInf (Qltb p 0)
      else fin (p / q)
  end.

Definition xlt (a b : xnum) : bool :=
  match a, b with
  | XNaN, _ | _, XNaN => false
  | XInf s, XInf t => s && negb t
  | XInf s, XFin _ => s
  | XFin _, XInf t => negb t
  | XFin p, XFin q => Qltb p q
  end.

Definition xeqb (a b : xnum) : bool :=
  match a, b with
  | XInf s, XInf t => Bool.eqb s t
  | XFin p, XFin q => Qeq_bool p q
  | _, _ => false
  end.

Definition xisNaN (a : xnum) : bool := match a with XNaN => true | _ => false end.
Definition xisFinite (a : xnum) : bool := match a with XFin _ => true | _ => false end.

Definition xsameValueZero (a b : xnum) : bool :=
  match a, b with
  | XNaN, XNaN => true
  | _, _ => xeqb a b
  end.

Definition xnorm (a : xnum) : xnum :=
  match a with XFin q => fin q | _ => a end.

Definition xmin (a b : xnum) : xnum :=
  match a, b with
  | XNaN, _ | _, XNaN => XNaN
  | _, _ => if xlt b a then xnorm b else xnorm a
  end.

Definition xmax (a b : xnum) : xnum :=
  match a, b with
  | XNaN, _ | _, XNaN => XNaN
  | _, _ => if xlt a b then xnorm b else xnorm a
  end.

(** *** Reading decimal literals *)

Definition digitOf (c : ascii) : option Z :=
  let n := nat_of_ascii c in
  if Nat.leb 48 n && Nat.leb n 57 then Some (Z.of_nat (n - 48)) else None.

(** The longest run of digits at the front of [s]: its value, its length,
    and the rest. *)
Fixpoint digits (s : string) (value : Z) (len : nat) : Z * nat * string :=
  match s with
  | String c s' =>
      match digitOf c with
      | Some d => digits s' (10 * value + d)%Z (S len)
      | None => (value, len, s)
      end
  | EmptyString => (value, len, s)
  end.

Definition signOf (s : string) : bool * string :=
  match s with
  | String "-" s' => (true, s')
  | String "+" s' => (false, s')
  | _ => (false, s)
  end.

Definition pow10 (e : Z) : Q :=
  if (0 <=? e)%Z then inject_Z (10 ^ e) else / inject_Z (10 ^ (- e)).

(** An exponent part [e], sign, digits; without digits there is none. *)
Definition exponent (s : string) : Z * string :=
  match s with
  | String c s' =>
      if Ascii.eqb c "e" || Ascii.eqb c "E" then
        let '(neg, s'') := signOf s' in
        let '(v, len, rest) := digits s'' 0%Z 0 in
        if Nat.eqb len 0 then (0%Z, s) else ((if neg then - v else v)%Z, rest)
      else (0%Z, s)
  | EmptyString => (0%Z, s)
  end.

(** A decimal literal at the front of [s] (no leading white space), with
    what follows it. *)
Definition literal (s : string) : option (xnum * string) :=
  let '(neg, s1) := signOf s in
  if String.prefix "Infinity" s1 then
    Some (XInf neg, String.substring 8 (String.length s1 - 8) s1)
  else
    let '(ip, ilen, r1) := digits s1 0%Z 0 in
    let '(fp, flen, r2) :=
      match r1 with
      | String "." r => digits r 0%Z 0
      | _ => (0%Z, 0, r1)
      end in
    let r2 := if Nat.eqb ilen 0 && Nat.eqb flen 0 then s1 else r2 in
    if Nat.eqb ilen 0 && Nat.eqb flen 0 then None
    else
      let '(e, r3) := exponent r2 in
      let m := (inject_Z ip + inject_Z fp * pow10 (- Z.of_nat flen))%Q in
      let v := (m * pow10 e)%Q in
      Some (fin (if neg then - v else v), r3).

Definition xparseFloat (s : string) : xnum :=
  match literal (Str.trimStart s) with
  | Some (v, _) => v
  | None => XNaN
  end.

(** [Number(s)]: the whole trimmed string must be a literal; the empty
    string is zero. *)
Definition xstringToNumber (s : string) : xnum :=
  let t := Str.trim s in
  if String.eqb t "" then fin 0
  else match literal t with
       | Some (v, EmptyString) => v
       | _ => XNaN
       end.

(** *** Printing *)

Definition printZ (z : Z) : string :=
  match z with
  | Z0 => "0"
  | Zpos p => NilEmpty.string_of_uint (Pos.to_uint p)
  | Zneg p => "-" ++ NilEmpty.string_of_uint (Pos.to_uint p)
  end.

(** [count] fractional digits of [num / den], most significant first. *)
Fixpoint fraction (count : nat) (num den : Z) : string :=
  match count with
  | 0 => ""
  | S count' =>
      String (ascii_of_nat (48 + Z.to_nat ((10 * num) / den)))
             (fraction count' ((10 * num) mod den) den)
  end.

(** Digits of [num / den] until the expansion ends (at most [fuel]). *)
Fixpoint expansion (fuel : nat) (num den : Z) : string :=
  match fuel with
  | 0 => ""
  | S fuel' =>
      if (num =? 0)%Z then ""
      else String (ascii_of_nat (48 + Z.to_nat ((10 * num) / den)))
                  (expansion fuel' ((10 * num) mod den) den)
  end.

Definition xnumberToString (a : xnum) : string :=
  match a with
  | XNaN => "NaN"
  | XInf s => if s then "-Infinity" else "Infinity"
  | XFin q =>
      let n := Z.abs (Qnum q) in
      let d := Zpos (Qden q) in
      let body := printZ (n / d) in
      let frac := expansion 17 (n mod d) d in
      (if (Qnum q <? 0)%Z then "-" else "")
      ++ body ++ (if String.eqb frac "" then "" else "." ++ frac)
  end.

(** [x.toFixed(f)]: the nearest multiple of [10^-f], the larger one on a
    tie, printed with exactly [f] fractional digits. *)
Definition xtoFixed (a : xnum) (f : nat) : string :=
  match a with
  | XNaN => "NaN"
  | XInf s => if s then "-Infinity" else "Infinity"
  | XFin q =>
      let scale := (10 ^ Z.of_nat f)%Z in
      let n := ((2 * Z.abs (Qnum q) * scale + Zpos (Qden q)) / (2 * Zpos (Qden q)))%Z in
      (if Qltb q 0 then "-" else "")
      ++ printZ (n / scale)
      ++ (if Nat.eqb f 0 then "" else "." ++ fraction f (n mod scale) scale)
  end.

#[export] Instance exact : JSNumber := {|
  num := xnum;
  nan := XNaN;
  ofNat n := XFin (inject_Z (Z.of_nat n));
  add := xadd;
  sub := xsub;
  div := xdiv;
  lt := xlt;
  eqb := xeqb;
  isNaN := xisNaN;
  isFinite := xisFinite;
  sameValueZero := xsameValueZero;
  min := xmin;
  max := xmax;
  parseFloat := xparseFloat;
  stringToNumber := xstringToNumber;
  numberToString := xnumberToString;
  toFixed := xtoFixed
|}.

End Exact.

(* ===================================================================== *)
(** ** Vocabulary of the statements *)
(* ===================================================================== *)

Section Vocabulary.
Context `{JS : JSNumber}.

(** Ascending order of the keys, in the sense of [<=]. *)
Definition ascending {A : Type} (key : A → num) : list A → Prop :=
  StronglySorted (λ a b, le (key a) (key b) = true).

(** The accumulators hold, for every proxy key, the running total and the
    number of the finite values met in [pts]. *)
Definition acc_ok (pts : list (gmap string value)) (a : Averages.acc) : Prop :=
  ∀ k, k ∈ Averages.labAnalysisKeys →
    Averages.sums a !! k = Some (Averages.total (Averages.finiteValues k pts)) ∧
    Averages.counts a !! k = Some (length (Averages.finiteValues k pts)).

(** The declared type of [depth]: a number, when present. *)
Definition DepthTyped (p : gmap string value) : Prop :=
  match p !! "depth" with
  | Some (VNum _) | None => True
  | Some _ => False
  end.

(** The key under which the bulk merge stores the row visited at [index],
    and the point it stores there when [cur] is the entry found under
    that key. *)
Definition rowKey (now : nat → N) (index : nat) (r : gmap string value) : string :=
  match DataInputManager.usableKey (get r "subsection") with
  | Some k => k
  | None => DataInputManager.uniqueId (now index) index
  end.

Definition rowValue (now : nat → N) (index : nat) (r : gmap string value)
    (cur : option (gmap string value)) : gmap string value :=
  match DataInputManager.usableKey (get r "subsection") with
  | Some _ => spread2 (default ∅ cur) r
  | None => <["subsection" := VStr (DataInputManager.uniqueId (now index) index)]> r
  end.

(** The entry under [k] after the rows from [index] on have been visited. *)
Fixpoint entryAfter (now : nat → N) (k : string) (index : nat)
    (rows : list (gmap string value)) (cur : option (gmap string value))
  : option (gmap string value) :=
  match rows with
  | [] => cur
  | r :: rows' =>
      entryAfter now k (S index) rows'
        (if String.eqb (rowKey now index r) k
         then Some (rowValue now index r cur) else cur)
  end.

(** The map the bulk merge starts from. *)
Definition existingMap (points : list (gmap string value))
  : list (value * gmap string value) :=
  JSMap.of_entries ((λ p, (get p "subsection", p)) <$> points).

(** The header-classification call fails: the request is rejected, or the
    text it returns is missing or is not JSON. *)
Definition callFails (JSON_parse : string → option CoreService.json)
    (outcome : GenerateContent) : Prop :=
  match outcome with
  | Rejected _ => True
  | Resolved None => True
  | Resolved (Some text) => JSON_parse text = None
  end.

(** The age the reply holds for a point of [section]: in the first returned
    section that has the id of [section], the age of the last element whose
    depth is the depth of the point and whose age is neither missing nor
    null. *)
Definition returnedAge (calibrated : list CoreService.AiSection)
    (section : CoreSection) (dp : gmap string value) : option value :=
  match JSArray.find (λ cs, String.eqb (CoreService.ai_id cs) (sec_id section)) calibrated with
  | Some cs =>
      match CoreService.ai_dataPoints cs with
      | Some pts =>
          if isUndefined (get dp "depth") then None
          else CoreService.ai_age <$>
                 JSArray.find
                   (λ rp, negb (isUndefined (CoreService.ai_depth rp))
                          && CoreService.hasAge rp
                          && key_eqb (CoreService.ai_depth rp) (get dp "depth"))
                   (reverse pts)
      | None => None
      end
  | None => None
  end.

(** The splice selects a point of [section] when both bounds of the
    interval of the section are set and the age of the point is defined and
    lies between the smaller and the larger bound, both included. *)
Definition selects (intervals : gmap string CoreSynthesisView.SpliceInterval)
    (section : CoreSection) (p : gmap string value) : bool :=
  match intervals !! sec_id section with
  | Some iv =>
      match CoreSynthesisView.startAge iv, CoreSynthesisView.endAge iv with
      | Some s, Some e =>
          negb (isUndefined (get p "age"))
          && le (min s e) (toNumber (get p "age"))
          && le (toNumber (get p "age")) (max s e)
      | _, _ => false
      end
  | None => false
  end.

(** The interval with its two bounds exchanged. *)
Definition swapBounds (iv : CoreSynthesisView.SpliceInterval)
  : CoreSynthesisView.SpliceInterval :=
  {| CoreSynthesisView.sectionId := CoreSynthesisView.sectionId iv;
     CoreSynthesisView.startAge := CoreSynthesisView.endAge iv;
     CoreSynthesisView.endAge := CoreSynthesisView.startAge iv |}.

End Vocabulary.

(** No character of the string is a dash. *)
Fixpoint dashFree (s : string) : Prop :=
  match s with
  | EmptyString => True
  | String c s' => c ≠ "-"%char ∧ dashFree s'
  end.

(* ===================================================================== *)
(** ** Worked data *)
(* ===================================================================== *)

(** Concrete inputs, over the exact instance, for the examples below. *)
Module Sample.
Import Exact.

Definition int (z : Z) : value := VNum (XFin (inject_Z z)).
Definition dec (n : Z) (d : positive) : value := VNum (XFin (n # d)).

(** The clock of the import: every row is visited in the same millisecond. *)
Definition clock : nat → N := λ _, 1730000000000%N.

(** A series of one point and a file of three rows: the first row updates
    the point, the second brings a new key and a decimal comma, the third
    has a blank key. *)
Definition pointA : gmap string value :=
  <["subsection" := VStr "A"]> (<["depth" := int 30]> {["delta18O" := int 1]}).

Definition mapping : gmap string (option string) :=
  <["Sample" := Some "subsection"]> (<["Depth_cm" := Some "depth"]> {["Notes" := None]}).

Definition file : list (list (string * value)) :=
  [ [("Sample", VStr "A"); ("Depth_cm", int 10); ("Notes", VStr "x")];
    [("Sample", VStr "B"); ("Depth_cm", VStr "20,5"); ("Notes", VNull)];
    [("Sample", VStr " "); ("Depth_cm", int 5); ("Notes", VStr "")] ].

Definition rowA : gmap string value := <["subsection" := VStr "A"]> {["depth" := int 10]}.
Definition rowB : gmap string value := <["subsection" := VStr "B"]> {["depth" := dec 41 2]}.
Definition rowC : gmap string value := <["subsection" := VStr " "]> {["depth" := int 5]}.

Definition generated : string := "Imported-1730000000000-2".

(** A file that carries, as an explicit key, the very key the merge
    generates for its unkeyed first row. *)
Definition unkeyedRow : gmap string value := {["depth" := int 2]}.
Definition keyedRow : gmap string value :=
  <["subsection" := VStr "Imported-1730000000000-0"]> {["depth" := int 7]}.

(** A stored section without data points and with a summary. *)
Definition storedRow : CoreService.SectionRow :=
  {| CoreService.row_id := "S1";
     CoreService.row_name := "Section 1";
     CoreService.data_points := Some [];
     CoreService.lab_analysis := Some {["delta18O" := int 3]} |}.

Definition storeReply : CoreService.SelectReply :=
  {| CoreService.reply_data := Some [storedRow]; CoreService.reply_error := None |}.

(** A section with points at depths 10 and 30, two tie-points, and a reply
    that dates depth 10. *)
Definition shallow : gmap string value := <["subsection" := VStr "a"]> {["depth" := int 10]}.
Definition deep : gmap string value := <["subsection" := VStr "b"]> {["depth" := int 30]}.

Definition section1 : CoreSection :=
  {| sec_id := "S1"; sec_name := "Section 1";
     dataPoints := [shallow; deep]; labAnalysis := None |}.

Definition ties : list CoreService.TiePoint :=
  [ {| CoreService.tp_sectionId := "S1"; CoreService.tp_depth := XFin 10;
       CoreService.tp_age := XFin 5 |};
    {| CoreService.tp_sectionId := "S1"; CoreService.tp_depth := XFin 50;
       CoreService.tp_age := XFin 25 |} ].

Definition replyWith (age : value) : list CoreService.AiSection :=
  [ {| CoreService.ai_id := "S1"; CoreService.ai_name := "Section 1";
       CoreService.ai_dataPoints :=
         Some [ {| CoreService.ai_depth := int 10; CoreService.ai_age := age |} ] |} ].

(** Three calibrated sections and their splice intervals: bounds in
    reverse order, bounds in order, and a null bound. *)
Definition aged (name : string) (age : Z) : gmap string value :=
  <["subsection" := VStr name]> {["age" := int age]}.

Definition calibrated : list CoreSection :=
  [ {| sec_id := "S1"; sec_name := "Section 1";
       dataPoints := [aged "a" 3; aged "b" 10; aged "c" 30]; labAnalysis := None |};
    {| sec_id := "S2"; sec_name := "Section 2";
       dataPoints := [aged "d" 12; aged "e" 7]; labAnalysis := None |};
    {| sec_id := "S3"; sec_name := "Section 3";
       dataPoints := [aged "f" 8]; labAnalysis := None |} ].

Definition interval (id : string) (s e : option Z) : CoreSynthesisView.SpliceInterval :=
  {| CoreSynthesisView.sectionId := id;
     CoreSynthesisView.startAge := (λ z, XFin (inject_Z z)) <$> s;
     CoreSynthesisView.endAge := (λ z, XFin (inject_Z z)) <$> e |}.

Definition intervals : gmap string CoreSynthesisView.SpliceInterval :=
  <["S1" := interval "S1" (Some 20%Z) (Some 5%Z)]>
    (<["S2" := interval "S2" (Some 0%Z) (Some 8%Z)]>
       {["S3" := interval "S3" None (Some 9%Z)]}).

(** A form with a blank subsection, and one whose only value is no number. *)
Definition blankForm : gmap string string :=
  <["subsection" := "   "]> (<["depth" := "12"]> DataInputManager.initialFormState).

Definition wordForm : gmap string string :=
  <["subsection" := "S9"]> (<["depth" := "deep"]> DataInputManager.initialFormState).

(** Blank texts other than spaces: a no-break space (U+00A0) and a line
    separator (U+2028), as UTF-8; a form and two rows of a file whose
    subsection consists of them. *)
Definition nbsp : string :=
  String (Ascii.ascii_of_nat 194) (String (Ascii.ascii_of_nat 160) "").
Definition lineSeparator : string :=
  String (Ascii.ascii_of_nat 226)
    (String (Ascii.ascii_of_nat 128) (String (Ascii.ascii_of_nat 168) "")).

Definition nbspForm : gmap string string :=
  <["subsection" := nbsp]> (<["depth" := "12"]> DataInputManager.initialFormState).

Definition nbspRow1 : gmap string value :=
  <["subsection" := VStr nbsp]> {["depth" := int 4]}.
Definition nbspRow2 : gmap string value :=
  <["subsection" := VStr (nbsp ++ lineSeparator)]> {["depth" := int 6]}.

(** A service whose answer is no JSON. *)
Definition noJson : string → option CoreService.json := λ _, None.
Definition htmlAnswer : list string → GenerateContent := λ _, Resolved (Some "<html>").

End Sample.

(* ===================================================================== *)
(** * Further parts of the program

    - [updateSection], [appSectionToDbPayload], [fetchFoldersAndCores],
      [saveCore], [deleteCore], [deleteFolder], [moveCore], [renameFolder],
      [detectPaleoEvents] and the request of [generateAgeModel]
                                          (services/coreService.ts)
    - [handleFileChange]                  (components/DataInputManager.tsx)
    - the initial splice intervals        (components/CoreSynthesisView.tsx)
    - [handleSaveCore], [handleDeleteCore], [handleDeleteFolder],
      [handleMoveCore], [handleRenameFolder]                    (App.tsx) *)
(* ===================================================================== *)

(* ===================================================================== *)
(** ** Further vocabulary *)
(* ===================================================================== *)

Section MoreVocabulary.
Context `{JS : JSNumber}.

(** What a field of the entry form contributes to the new point: nothing
    when it is empty or does not parse, else the number it parses to. *)
Definition fieldOf (text : string) : option value :=
  if String.eqb text "" then None
  else if isNaN (parseFloat text) then None
  else Some (VNum (parseFloat text)).

(** No two points of the series carry the same subsection key, keys being
    compared as a [Map] compares them. *)
Definition distinctKeys : list (gmap string value) → Prop :=
  StronglySorted
    (λ p q, key_eqb (get p "subsection") (get q "subsection") = false).

(** Every point of the series has a subsection that counts as present
    ([dp.subsection] is truthy). *)
Definition Keyed (points : list (gmap string value)) : Prop :=
  Forall (λ p, truthy (get p "subsection") = true) points.


End MoreVocabulary.

(* ===================================================================== *)
(** ** Saving a section (services/coreService.ts) *)
(* ===================================================================== *)

Module SectionStore.
Section SectionStore.
Context `{JS : JSNumber}.
Import CoreService.

(** The columns of the [sections] table that hold the name, the series and
    the averages of a section.  The remaining columns of the payload
    (section depth, epoch, image, lithology, ...) belong to fields of the
    section that this development does not follow. *)
Record SectionPayload := {
  pay_name : string;
  pay_data_points : list (gmap string value);
  pay_lab_analysis : option (gmap string value)
}.

(** [appSectionToDbPayload]: [data_points: appSection.dataPoints ?? []],
    [lab_analysis: appSection.labAnalysis ?? null]. *)
Definition appSectionToDbPayload (appSection : CoreSection) : SectionPayload :=
  {| pay_name := sec_name appSection;
     pay_data_points := dataPoints appSection;
     pay_lab_analysis := labAnalysis appSection |}.

(** The payload travels to the store as JSON ([JSON.stringify] on the way
    out, a parse on the way back).  Of a property value this leaves: nothing
    when the value is [undefined] (the property is left out), [null] when it
    is a number that is not finite, zero for either zero, the value itself
    otherwise. *)
Definition jsonValue (v : value) : option value :=
  match v with
  | VUndefined => None
  | VNum n =>
      Some (if isFinite n then VNum (if eqb n zero then zero else n) else VNull)
  | _ => Some v
  end.

Definition jsonObject (o : gmap string value) : gmap string value :=
  omap jsonValue o.

Definition jsonPayload (payload : SectionPayload) : SectionPayload :=
  {| pay_name := pay_name payload;
     pay_data_points := jsonObject <$> pay_data_points payload;
     pay_lab_analysis := jsonObject <$> pay_lab_analysis payload |}.

(** A row once the columns of a payload have been written to it. *)
Definition applyPayload (payload : SectionPayload) (row : SectionRow) : SectionRow :=
  {| row_id := row_id row;
     row_name := pay_name payload;
     data_points := Some (pay_data_points payload);
     lab_analysis := pay_lab_analysis payload |}.

(** The hosted store, for the statement
    [from('sections').update(payload).eq('id', id).select()]: it either
    rejects the statement and changes nothing, or writes the payload, as
    the request carries it, to every row with that id and returns the rows
    written. *)
Definition storeUpdate (rejects : option string) (id : string)
    (payload : SectionPayload) (table : list SectionRow)
  : SelectReply * list SectionRow :=
  match rejects with
  | Some e => ({| reply_data := None; reply_error := Some e |}, table)
  | None =>
      ({| reply_data :=
            Some (applyPayload (jsonPayload payload) <$>
                    filter (λ row, String.eqb (row_id row) id = true) table);
          reply_error := None |},
       (λ row, if String.eqb (row_id row) id
               then applyPayload (jsonPayload payload) row else row)
         <$> table)
  end.

(** ... and for [from('sections').select('*').eq('core_id', coreId)],
    [table] being the rows of that core. *)
Definition storeSelect (table : list SectionRow) : SelectReply :=
  {| reply_data := Some table; reply_error := None |}.

(** [updateSection], from the reply of the store on. *)
Definition updateSectionReply (reply : SelectReply) : Result CoreSection :=
  match reply_error reply with
  | Some e => Throw e
  | None =>
      match reply_data reply with
      | Some (row :: _) => Return (dbSectionToAppSection row)
      | _ => Throw "Failed to update section."
      end
  end.

(** [updateSection] against a store holding [table]: what it returns or
    throws, and the table afterwards. *)
Definition updateSection (rejects : option string) (table : list SectionRow)
    (sectionToUpdate : CoreSection) : Result CoreSection * list SectionRow :=
  let '(reply, table') :=
    storeUpdate rejects (sec_id sectionToUpdate)
                (appSectionToDbPayload sectionToUpdate) table in
  (updateSectionReply reply, table').

End SectionStore.
End SectionStore.

(* ===================================================================== *)
(** ** Choosing a file (components/DataInputManager.tsx) *)
(* ===================================================================== *)

Module FileChoice.
Section FileChoice.
Context `{JS : JSNumber}.
Import DataInputManager.

(** The options of a call of [Papa.parse] that decide how the first row is
    taken. *)
Record ParseConfig := {
  header : bool;
  preview : option nat
}.

(** [results.meta.fields] for a file with the given rows: the parser names
    the fields, after the first row, only when it is asked to take that row
    for a header row; otherwise the property is missing. *)
Definition metaFields (config : ParseConfig) (rows : list (list string))
  : option (list string) :=
  if header config then Some (default [] (head rows)) else None.

(** The options [triggerHeaderMapping] passes: [preview: 1], [comments],
    [delimiter] and [complete]. *)
Definition headerConfig : ParseConfig := {| header := false; preview := Some 1 |}.

(** [handleFileChange] on the files of the input element, a file being the
    rows it holds, and [triggerHeaderMapping] with it: with no file nothing
    happens; else the status is cleared and the headers of the first file
    are read. *)
Definition handleFileChange (JSON_parse : string → option CoreService.json)
    (ai : option (list string → GenerateContent))
    (files : list (list (list string))) (format : Format) (st : ImportState)
  : ImportState * list Call :=
  match files with
  | [] => (st, [])
  | selectedFile :: _ =>
      triggerHeaderMapping JSON_parse ai format (metaFields headerConfig selectedFile)
        {| status := None; isProcessing := isProcessing st;
           csvHeaders := csvHeaders st; headerMap := headerMap st;
           isMappingHeaders := isMappingHeaders st |}
  end.

End FileChoice.
End FileChoice.

(* ===================================================================== *)
(** ** The splice intervals at start (components/CoreSynthesisView.tsx) *)
(* ===================================================================== *)

Section SpliceState.
Context `{JS : JSNumber}.
Import CoreSynthesisView.

(** The effect on [sections]:
    [Object.fromEntries(sections.map(s =>
       [s.id, { sectionId: s.id, startAge: null, endAge: null }]))] *)
Definition initialSpliceIntervals (sections : list CoreSection)
  : gmap string SpliceInterval :=
  fold_left
    (λ o s, <[sec_id s := {| sectionId := sec_id s; startAge := None; endAge := None |}]> o)
    sections ∅.

End SpliceState.

(* ===================================================================== *)
(** ** Event detection (services/coreService.ts) *)
(* ===================================================================== *)

Module PaleoEvents.
Section PaleoEvents.
Context `{JS : JSNumber}.

(** An element of the returned array, as the response schema types it. *)
Record PaleoEvent := {
  eventName : string;
  startAge : num;
  endAge : num;
  description : string
}.

(** What the request, [JSON.parse] and the call of [map] on its result
    leave: an error, or the array of events. *)
Inductive EventsReply :=
  | EventsThrow (message : string)
  | Events (l : list PaleoEvent).

(** [dp => dp.age !== undefined && dp.age !== null] *)
Definition hasAge (dp : gmap string value) : bool :=
  match get dp "age" with
  | VUndefined | VNull => false
  | _ => true
  end.

(** [event => ({ ...event, startAge: Math.min(event.startAge, event.endAge),
                 endAge: Math.max(event.startAge, event.endAge) })] *)
Definition ordered (event : PaleoEvent) : PaleoEvent :=
  {| eventName := eventName event;
     startAge := min (startAge event) (endAge event);
     endAge := max (startAge event) (endAge event);
     description := description event |}.

(** [detectPaleoEvents]; the client is applied to the dated points the
    prompt is built from. *)
Definition detectPaleoEvents (ai : option (list (gmap string value) → EventsReply))
    (dataPoints : list (gmap string value)) : Result (list PaleoEvent) :=
  match ai with
  | None => Throw "API key is not configured."
  | Some request =>
      let pointsWithAge := filter (λ dp, hasAge dp = true) dataPoints in
      if Nat.ltb (length pointsWithAge) 5 then Return []
      else
        match request pointsWithAge with
        | EventsThrow message => Throw ("AI Event Detection Error: " ++ message)
        | Events l => Return (ordered <$> l)
        end
  end.

End PaleoEvents.
End PaleoEvents.

(* ===================================================================== *)
(** ** Cores and folders (services/coreService.ts, App.tsx) *)
(* ===================================================================== *)

Module CoreStore.
Section CoreStore.
Context `{JS : JSNumber}.

(** Rows of [cores] and [folders]; [location], [water_depth] and
    [created_at] travel with [name] and [project] and are left out. *)
Record CoreRow := {
  core_id : string;
  core_user_id : string;
  core_name : string;
  core_project : string;
  core_folder_id : option string       (* [None] is [null] *)
}.

Record FolderRow := {
  folder_id : string;
  folder_user_id : string;
  folder_name : string
}.

(** The application's [Core] and [Folder]. *)
Record Core := {
  c_id : string;
  c_user_id : string;
  c_name : string;
  c_project : string;
  c_folder_id : option string          (* [None] is [undefined] *)
}.

Record Folder := {
  f_id : string;
  f_user_id : string;
  f_name : string
}.

Definition dbCoreToAppCore (dbCore : CoreRow) : Core :=
  {| c_id := core_id dbCore; c_user_id := core_user_id dbCore;
     c_name := core_name dbCore; c_project := core_project dbCore;
     c_folder_id := core_folder_id dbCore |}.

Definition appCoreToDbCore (appCore : Core) (userId : string) : CoreRow :=
  {| core_id := c_id appCore; core_user_id := userId;
     core_name := c_name appCore; core_project := c_project appCore;
     core_folder_id := c_folder_id appCore |}.

Definition dbFolderToAppFolder (dbFolder : FolderRow) : Folder :=
  {| f_id := folder_id dbFolder; f_user_id := folder_user_id dbFolder;
     f_name := folder_name dbFolder |}.

(** The hosted store: the three tables, the rows of [sections] paired with
    their [core_id].  A statement is either rejected, and then changes
    nothing, or applied to every row its filter selects; the arguments
    [rejects] of the service functions below say, statement by statement,
    whether the store rejects it and with what message. *)
Record Store := {
  cores : list CoreRow;
  folders : list FolderRow;
  sections : list (string * CoreService.SectionRow)
}.

(** [folder_id === folderId], on a nullable column. *)
Definition inFolder (folderId : string) (folder : option string) : bool :=
  match folder with
  | Some f => String.eqb f folderId
  | None => false
  end.

Definition withFolder (row : CoreRow) (folder : option string) : CoreRow :=
  {| core_id := core_id row; core_user_id := core_user_id row;
     core_name := core_name row; core_project := core_project row;
     core_folder_id := folder |}.

(** [fetchFoldersAndCores]; the rows of [folders] are kept in the order of
    their creation. *)
Definition fetchFoldersAndCores (rejects1 rejects2 : option string)
    (userId : string) (store : Store) : Result (list Core * list Folder) :=
  match rejects1 with
  | Some e => Throw e
  | None =>
      match rejects2 with
      | Some e => Throw e
      | None =>
          Return
            (dbCoreToAppCore <$>
               filter (λ row, String.eqb (core_user_id row) userId = true) (cores store),
             dbFolderToAppFolder <$>
               filter (λ row, String.eqb (folder_user_id row) userId = true) (folders store))
      end
  end.

(** [deleteFolder]: [update({ folder_id: null }).eq('folder_id', folderId)]
    on [cores], then [delete().eq('id', folderId)] on [folders]. *)
Definition deleteFolder (rejects1 rejects2 : option string) (folderId : string)
    (store : Store) : Result unit * Store :=
  match rejects1 with
  | Some e => (Throw e, store)
  | None =>
      let unlinked :=
        (λ row, if inFolder folderId (core_folder_id row) then withFolder row None else row)
          <$> cores store in
      match rejects2 with
      | Some e =>
          (Throw e,
           {| cores := unlinked; folders := folders store; sections := sections store |})
      | None =>
          (Return (),
           {| cores := unlinked;
              folders :=
                filter (λ row, String.eqb (folder_id row) folderId = false) (folders store);
              sections := sections store |})
      end
  end.

(** [deleteCore]: [delete().eq('core_id', coreId)] on [sections], then
    [delete().eq('id', coreId)] on [cores]. *)
Definition deleteCore (rejects1 rejects2 : option string) (coreId : string)
    (store : Store) : Result unit * Store :=
  match rejects1 with
  | Some e => (Throw e, store)
  | None =>
      let remaining :=
        filter (λ entry : string * CoreService.SectionRow,
                  String.eqb entry.1 coreId = false) (sections store) in
      match rejects2 with
      | Some e =>
          (Throw e,
           {| cores := cores store; folders := folders store; sections := remaining |})
      | None =>
          (Return (),
           {| cores := filter (λ row, String.eqb (core_id row) coreId = false) (cores store);
              folders := folders store;
              sections := remaining |})
      end
  end.

(** [moveCore]: [update({ folder_id: folderId }).eq('id', coreId).select()]. *)
Definition moveCore (rejects : option string) (coreId : string)
    (folderId : option string) (store : Store) : Result Core * Store :=
  match rejects with
  | Some e => (Throw e, store)
  | None =>
      let store' :=
        {| cores := (λ row, if String.eqb (core_id row) coreId
                            then withFolder row folderId else row) <$> cores store;
           folders := folders store; sections := sections store |} in
      match filter (λ row, String.eqb (core_id row) coreId = true) (cores store) with
      | [] => (Throw "Failed to move core.", store')
      | row :: _ => (Return (dbCoreToAppCore (withFolder row folderId)), store')
      end
  end.

(** [renameFolder]: [update({ name: newName }).eq('id', folderId).select()]. *)
Definition withName (row : FolderRow) (newName : string) : FolderRow :=
  {| folder_id := folder_id row; folder_user_id := folder_user_id row;
     folder_name := newName |}.

Definition renameFolder (rejects : option string) (folderId newName : string)
    (store : Store) : Result Folder * Store :=
  match rejects with
  | Some e => (Throw e, store)
  | None =>
      let store' :=
        {| cores := cores store;
           folders := (λ row, if String.eqb (folder_id row) folderId
                              then withName row newName else row) <$> folders store;
           sections := sections store |} in
      match filter (λ row, String.eqb (folder_id row) folderId = true) (folders store) with
      | [] => (Throw "Failed to rename folder.", store')
      | row :: _ => (Return (dbFolderToAppFolder (withName row newName)), store')
      end
  end.

(** [saveCore].  Editing writes every column but [id] and [user_id] to the
    rows with the id of the core; creating first looks for a row with that
    id ([rejects1] is the outcome of that look-up) and inserts only when
    there is none. *)
Definition saveCore (rejects1 rejects2 : option string) (coreToSave : Core)
    (userId : string) (isEditing : bool) (store : Store) : Result Core * Store :=
  let dbCore := appCoreToDbCore coreToSave userId in
  if isEditing then
    match rejects2 with
    | Some e => (Throw e, store)
    | None =>
        let write (row : CoreRow) : CoreRow :=
          {| core_id := core_id row; core_user_id := core_user_id row;
             core_name := core_name dbCore; core_project := core_project dbCore;
             core_folder_id := core_folder_id dbCore |} in
        let store' :=
          {| cores := (λ row, if String.eqb (core_id row) (c_id coreToSave)
                              then write row else row) <$> cores store;
             folders := folders store; sections := sections store |} in
        match filter (λ row, String.eqb (core_id row) (c_id coreToSave) = true)
                     (cores store) with
        | [] => (Throw "Failed to save core, no data returned.", store')
        | row :: _ => (Return (dbCoreToAppCore (write row)), store')
        end
    end
  else
    match rejects1 with
    | Some e => (Throw ("Error checking for existing core: " ++ e), store)
    | None =>
        if existsb (λ row, String.eqb (core_id row) (c_id coreToSave)) (cores store) then
          (Throw ("Core with ID " ++ Str.dquote ++ c_id coreToSave ++ Str.dquote
                  ++ " already exists. Please use a unique ID."), store)
        else
          match rejects2 with
          | Some e => (Throw e, store)
          | None =>
              (Return (dbCoreToAppCore dbCore),
               {| cores := (cores store ++ [dbCore])%list;
                  folders := folders store; sections := sections store |})
          end
    end.

(** *** The handlers of the application (App.tsx) *)

(** The state they write. *)
Record AppState := {
  app_cores : list Core;
  app_folders : list Folder;
  selectedCore : option Core;
  toast : option (StatusType * string)
}.

Definition showError (app : AppState) (message : string) : AppState :=
  {| app_cores := app_cores app; app_folders := app_folders app;
     selectedCore := selectedCore app;
     toast := Some (Error, "Error: " ++ message) |}.

(** The [onConfirm] of [handleDeleteFolder]. *)
Definition handleDeleteFolder (rejects1 rejects2 : option string) (folderId : string)
    (app : AppState) (store : Store) : AppState * Store :=
  match deleteFolder rejects1 rejects2 folderId store with
  | (Return _, store') =>
      ({| app_cores :=
            (λ c, if inFolder folderId (c_folder_id c)
                  then {| c_id := c_id c; c_user_id := c_user_id c; c_name := c_name c;
                          c_project := c_project c; c_folder_id := None |}
                  else c) <$> app_cores app;
          app_folders :=
            filter (λ f, String.eqb (f_id f) folderId = false) (app_folders app);
          selectedCore := selectedCore app;
          toast := toast app |}, store')
  | (Throw message, store') => (showError app message, store')
  end.

(** The [onConfirm] of [handleDeleteCore]. *)
Definition handleDeleteCore (rejects1 rejects2 : option string) (coreId : string)
    (app : AppState) (store : Store) : AppState * Store :=
  let coreName :=
    match JSArray.find (λ c, String.eqb (c_id c) coreId) (app_cores app) with
    | Some c => if String.eqb (c_id c) "" then coreId else c_id c
    | None => coreId
    end in
  match deleteCore rejects1 rejects2 coreId store with
  | (Return _, store') =>
      let updatedCores :=
        filter (λ c, String.eqb (c_id c) coreId = false) (app_cores app) in
      ({| app_cores := updatedCores;
          app_folders := app_folders app;
          selectedCore :=
            match selectedCore app with
            | Some c => if String.eqb (c_id c) coreId then head updatedCores else Some c
            | None => None
            end;
          toast := Some (Success, "Core " ++ Str.dquote ++ coreName ++ Str.dquote
                                  ++ " deleted.") |}, store')
  | (Throw message, store') => (showError app message, store')
  end.

(** [handleMoveCore] *)
Definition handleMoveCore (rejects : option string) (coreId : string)
    (folderId : option string) (app : AppState) (store : Store) : AppState * Store :=
  match moveCore rejects coreId folderId store with
  | (Return movedCore, store') =>
      ({| app_cores :=
            (λ c, if String.eqb (c_id c) coreId then movedCore else c) <$> app_cores app;
          app_folders := app_folders app;
          selectedCore := selectedCore app;
          toast := toast app |}, store')
  | (Throw message, store') => (showError app message, store')
  end.

(** [handleRenameFolder] *)
Definition handleRenameFolder (rejects : option string) (folderId newName : string)
    (app : AppState) (store : Store) : AppState * Store :=
  match renameFolder rejects folderId newName store with
  | (Return updatedFolder, store') =>
      ({| app_cores := app_cores app;
          app_folders :=
            (λ f, if String.eqb (f_id f) folderId then updatedFolder else f)
              <$> app_folders app;
          selectedCore := selectedCore app;
          toast := toast app |}, store')
  | (Throw message, store') => (showError app message, store')
  end.

(** [handleSaveCore]; [session] is the id of the signed-in user, if any. *)
Definition handleSaveCore (rejects1 rejects2 : option string) (session : option string)
    (coreToSave : Core) (app : AppState) (store : Store) : AppState * Store :=
  match session with
  | None => (app, store)
  | Some userId =>
      let isEditing :=
        existsb (λ c, String.eqb (c_id c) (c_id coreToSave)) (app_cores app) in
      match saveCore rejects1 rejects2 coreToSave userId isEditing store with
      | (Return savedCore, store') =>
          ({| app_cores :=
                if isEditing
                then (λ c, if String.eqb (c_id c) (c_id savedCore) then savedCore else c)
                       <$> app_cores app
                else (app_cores app ++ [savedCore])%list;
              app_folders := app_folders app;
              selectedCore := Some savedCore;
              toast := Some (Success, "Core " ++ Str.dquote ++ c_id savedCore ++ Str.dquote
                                      ++ " saved.") |}, store')
      | (Throw message, store') => (showError app message, store')
      end
  end.

(** The application shows what the store holds for the user. *)
Definition inSync (userId : string) (app : AppState) (store : Store) : Prop :=
  fetchFoldersAndCores None None userId store = Return (app_cores app, app_folders app).

End CoreStore.
End CoreStore.

(* ===================================================================== *)
(** ** The request for an age model (services/coreService.ts) *)
(* ===================================================================== *)

Module AgeModelRequest.
Section AgeModelRequest.
Context `{JS : JSNumber}.







End AgeModelRequest.
End AgeModelRequest.

(* ===================================================================== *)
(** ** Further worked data *)
(* ===================================================================== *)

Module MoreSample.
Import Exact Sample.

(** A form that adds a measurement to the point [b] of [section1]. *)
Definition filledForm : gmap string string :=
  <["subsection" := " b "]> (<["delta18O" := "3.5"]> DataInputManager.initialFormState).

Definition filledSection : CoreSection :=
  {| sec_id := "S1"; sec_name := "Section 1";
     dataPoints := [shallow; <["delta18O" := dec 7 2]> deep];
     labAnalysis := Some {["delta18O" := dec 7 2]} |}.

(** The row [section1] is loaded from, and the section as loaded. *)
Definition row1 : CoreService.SectionRow :=
  {| CoreService.row_id := "S1";
     CoreService.row_name := "Section 1";
     CoreService.data_points := Some [shallow; deep];
     CoreService.lab_analysis := None |}.

Definition loaded1 : CoreSection :=
  {| sec_id := "S1"; sec_name := "Section 1";
     dataPoints := [shallow; deep]; labAnalysis := Some ∅ |}.

(** A row of a file whose columns are headed [2] and [1], in that order,
    and a mapping that sends both to the depth. *)
Definition numberedRow : list (string * value) := [("2", int 5); ("1", int 9)].
Definition numberedMapping : gmap string (option string) :=
  <["2" := Some "depth"]> {["1" := Some "depth"]}.

(** A section with a point that holds an infinite value and no subsection
    of its own. *)
Definition unboundedSection : CoreSection :=
  {| sec_id := "S1"; sec_name := "Section 1";
     dataPoints := [ <["age" := VUndefined]> (<["delta18O" := VNum (XInf false)]>
                                               {["depth" := int 10]}) ];
     labAnalysis := Some ∅ |}.

(** The import dialog before a file is chosen. *)
Definition idle : DataInputManager.ImportState :=
  {| DataInputManager.status := None;
     DataInputManager.isProcessing := false;
     DataInputManager.csvHeaders := [];
     DataInputManager.headerMap := None;
     DataInputManager.isMappingHeaders := false |}.

(** A service that dates depth 10 at 5 ka, whatever it is asked. *)
Definition dating : list CoreSection → list CoreService.TiePoint → CoreService.AgeModelReply :=
  λ _ _, CoreService.ReplySections (replyWith (int 5)).

Definition dated : list CoreSection :=
  [ {| sec_id := "S1"; sec_name := "Section 1";
       dataPoints := [ <["age" := int 5]> shallow; <["age" := VUndefined]> deep ];
       labAnalysis := None |} ].

(** A store with one folder holding one of the two cores of a user, and
    what the application shows for it. *)
Definition coreA : CoreStore.CoreRow :=
  {| CoreStore.core_id := "ODP-982A"; CoreStore.core_user_id := "u1";
     CoreStore.core_name := "Rockall Plateau"; CoreStore.core_project := "ODP";
     CoreStore.core_folder_id := Some "F1" |}.

Definition coreB : CoreStore.CoreRow :=
  {| CoreStore.core_id := "MD95-2042"; CoreStore.core_user_id := "u1";
     CoreStore.core_name := "Iberian Margin"; CoreStore.core_project := "IMAGES";
     CoreStore.core_folder_id := None |}.

Definition folder1 : CoreStore.FolderRow :=
  {| CoreStore.folder_id := "F1"; CoreStore.folder_user_id := "u1";
     CoreStore.folder_name := "North Atlantic" |}.

Definition store0 : CoreStore.Store :=
  {| CoreStore.cores := [coreA; coreB];
     CoreStore.folders := [folder1];
     CoreStore.sections := [("ODP-982A", storedRow)] |}.

Definition app0 : CoreStore.AppState :=
  {| CoreStore.app_cores :=
       [CoreStore.dbCoreToAppCore coreA; CoreStore.dbCoreToAppCore coreB];
     CoreStore.app_folders := [CoreStore.dbFolderToAppFolder folder1];
     CoreStore.selectedCore := None;
     CoreStore.toast := None |}.

End MoreSample.

(* ===================================================================== *)
(** * Properties *)
(* ===================================================================== *)

Local Open Scope list_scope.

(* ===================================================================== *)
(** ** The exact instance satisfies the laws *)
(* ===================================================================== *)

Module ExactLaws.
Import Exact.

Lemma Qltb_spec (a b : Q) : reflect (a < b)%Q (Qltb a b).
Proof.
  unfold Qltb. destruct (Qle_bool b a) eqn:E; simpl; constructor.
  - apply Qle_bool_iff in E. lra.
  - destruct (Qlt_le_dec a b) as [H'|H']; [done|].
    apply Qle_bool_iff in H'. congruence.
Qed.

Lemma Qeqb_spec (a b : Q) : reflect (a == b)%Q (Qeq_bool a b).
Proof.
  destruct (Qeq_bool a b) eqn:E; constructor.
  - by apply Qeq_bool_iff.
  - intros H. apply Qeq_bool_iff in H. congruence.
Qed.

Ltac qcases :=
  repeat match goal with
  | |- context [Qltb ?a ?b] => destruct (Qltb_spec a b)
  | H : context [Qltb ?a ?b] |- _ => destruct (Qltb_spec a b)
  | |- context [Qeq_bool ?a ?b] => destruct (Qeqb_spec a b)
  | H : context [Qeq_bool ?a ?b] |- _ => destruct (Qeqb_spec a b)
  end.

Ltac xsolve :=
  intros; simpl in *; unfold fin, inject_Z in *; simpl in *;
  change (Z.of_nat 0) with 0%Z in *; qcases;
  repeat match goal with
  | H : context [Qred ?q] |- _ => rewrite (Qred_correct q) in H
  | |- context [Qred ?q] => rewrite (Qred_correct q)
  end;
  try done; try (exfalso; lra); try lra; auto.

#[export] Instance exact_laws : JSNumberLaws exact.
Proof.
  split.
  - done.
  - done.
  - intros [|[]|p] [|[]|q]; xsolve.
  - intros [|[]|p] [|[]|q] [|[]|r]; xsolve.
  - intros [|[]|p] [|[]|q]; xsolve.
  - intros [|[]|p] [|[]|q] [|[]|r]; xsolve.
  - intros [|[]|p] [|[]|q] [|[]|r]; xsolve.
  - intros [|[]|p]; xsolve.
  - intros [|[]|p] [|[]|q]; xsolve.
  - intros [|[]|p] [|[]|q] [|[]|r]; xsolve.
  - intros [|[]|p] [|[]|q]; simpl; try done; unfold fin; qcases;
      try done; try (exfalso; lra); f_equal; apply Qred_complete; lra.
  - intros [|[]|p] [|[]|q]; simpl; try done; unfold fin; qcases;
      try done; try (exfalso; lra); f_equal; apply Qred_complete; lra.
  - done.
Qed.

End ExactLaws.
(* ===================================================================== *)
(** ** Values, keys and coercions *)
(* ===================================================================== *)

Section ValueFacts.
Context `{JS : JSNumber}.

Lemma get_spread2 (a b : gmap string value) (k : string) :
  get (spread2 a b) k = match b !! k with Some v => v | None => get a k end.
Proof.
  unfold get, spread2. rewrite lookup_union.
  destruct (b !! k), (a !! k); done.
Qed.

Lemma lookup_spread2 (a b : gmap string value) (k : string) :
  spread2 a b !! k = match b !! k with Some v => Some v | None => a !! k end.
Proof.
  unfold spread2. rewrite lookup_union. destruct (b !! k), (a !! k); done.
Qed.

Lemma spread2_empty (b : gmap string value) : spread2 ∅ b = b.
Proof. unfold spread2. apply (right_id_L ∅ (∪)). Qed.

Lemma get_insert (o : gmap string value) (k k' : string) (v : value) :
  get (<[k := v]> o) k' = if decide (k = k') then v else get o k'.
Proof.
  unfold get. rewrite lookup_insert. by destruct (decide (k = k')).
Qed.

Lemma key_eqb_str (a b : string) : key_eqb (VStr a) (VStr b) = true ↔ a = b.
Proof. simpl. apply String.eqb_eq. Qed.

Lemma le_spec `{!JSNumberLaws JS} (a b : num) :
  isNaN a = false → isNaN b = false → le a b = negb (lt b a).
Proof. intros Ha Hb. unfold le. by rewrite Ha, Hb. Qed.

Context `{!JSNumberLaws JS}.

Lemma key_eqb_refl (a : value) : key_eqb a a = true.
Proof.
  destruct a as [| |b|n|s]; simpl; try done.
  - by destruct b.
  - apply sameValueZero_refl.
  - apply String.eqb_refl.
Qed.

Lemma key_eqb_sym (a b : value) : key_eqb a b = key_eqb b a.
Proof.
  destruct a as [| |x|x|x], b as [| |y|y|y]; simpl; try done.
  - by destruct x, y.
  - apply sameValueZero_sym.
  - apply String.eqb_sym.
Qed.

Lemma key_eqb_trans (a b c : value) :
  key_eqb a b = true → key_eqb b c = true → key_eqb a c = true.
Proof.
  destruct a as [| |x|x|x], b as [| |y|y|y], c as [| |z|z|z]; simpl; try done.
  - by destruct x, y, z.
  - apply sameValueZero_trans.
  - rewrite !String.eqb_eq. congruence.
Qed.

Lemma key_eqb_congr (a b c : value) :
  key_eqb a b = true → key_eqb a c = key_eqb b c.
Proof.
  intros Hab. destruct (key_eqb b c) eqn:Hbc.
  - by apply key_eqb_trans with b.
  - destruct (key_eqb a c) eqn:Hac; [|done].
    rewrite <- Hbc. symmetry. apply key_eqb_trans with a; [|done].
    by rewrite key_eqb_sym.
Qed.

End ValueFacts.

(* ===================================================================== *)
(** ** [Array.prototype.sort] *)
(* ===================================================================== *)

Section SortFacts.
Context `{JS : JSNumber} {A : Type}.
Implicit Types (l : list A) (key : A → num).

Lemma insert_Permutation (cmp : A → A → num) (x : A) l :
  JSArray.insert cmp x l ≡ₚ x :: l.
Proof.
  induction l as [|y l IH]; simpl; [done|].
  destruct (lt zero (cmp x y)); [|done].
  rewrite IH. apply Permutation_swap.
Qed.

Lemma sort_Permutation (cmp : A → A → num) l : JSArray.sort cmp l ≡ₚ l.
Proof.
  induction l as [|x l IH]; simpl; [done|].
  unfold JSArray.sort in *. simpl. by rewrite insert_Permutation, IH.
Qed.

Lemma sort_length (cmp : A → A → num) l : length (JSArray.sort cmp l) = length l.
Proof. by rewrite sort_Permutation. Qed.

Lemma elem_of_sort (cmp : A → A → num) l x : x ∈ JSArray.sort cmp l ↔ x ∈ l.
Proof. by rewrite sort_Permutation. Qed.

Context `{!JSNumberLaws JS}.

Lemma insert_ascending key (x : A) l :
  isNaN (key x) = false →
  Forall (λ y, isNaN (key y) = false) l →
  ascending key l →
  ascending key (JSArray.insert (λ a b, sub (key a) (key b)) x l).
Proof.
  intros Hx Hl Hs. induction Hs as [|y l Hsl IH Hy]; simpl.
  - repeat constructor.
  - apply Forall_cons in Hl as [Hyn Hl].
    rewrite sub_pos by done.
    destruct (lt (key y) (key x)) eqn:Hlt.
    + constructor; [by apply IH|].
      rewrite insert_Permutation. constructor; [|done].
      rewrite le_spec by done. by rewrite (lt_asym _ _ Hlt).
    + constructor; [by constructor|].
      constructor; [by rewrite le_spec, Hlt by done|].
      rewrite Forall_forall in Hy, Hl |- *. intros z Hz.
      specialize (Hy z Hz). specialize (Hl z Hz).
      rewrite le_spec in Hy |- * by done.
      destruct (lt (key z) (key x)) eqn:Hzx; [|done].
      destruct (lt_cotrans _ (key y) _ Hyn Hzx) as [H|H].
      * by rewrite H in Hy.
      * congruence.
Qed.

Lemma sort_ascending key l :
  Forall (λ y, isNaN (key y) = false) l →
  ascending key (JSArray.sort (λ a b, sub (key a) (key b)) l).
Proof.
  induction l as [|x l IH]; intros Hl; [constructor|].
  apply Forall_cons in Hl as [Hx Hl]. unfold JSArray.sort in *. simpl.
  apply insert_ascending; [done| |by apply IH].
  rewrite Forall_forall in Hl |- *. intros y Hy. apply Hl.
  by apply (elem_of_sort (λ a b, sub (key a) (key b))).
Qed.

End SortFacts.
(* ===================================================================== *)
(** ** [Map] *)
(* ===================================================================== *)

Section MapFacts.
Context `{JS : JSNumber} `{!JSNumberLaws JS} {V : Type}.
Implicit Types (m : list (value * V)) (k : value) (v : V).

Lemma get_set m k k' v :
  JSMap.get k' (JSMap.set k v m) =
    if key_eqb k k' then Some v else JSMap.get k' m.
Proof.
  induction m as [|[k0 v0] m IH]; simpl.
  - by destruct (key_eqb k k').
  - destruct (key_eqb k0 k) eqn:E; simpl.
    + rewrite (key_eqb_congr _ _ k' E). by destruct (key_eqb k k').
    + rewrite IH. destruct (key_eqb k0 k') eqn:E'; [|done].
      destruct (key_eqb k k') eqn:E''; [|done].
      rewrite key_eqb_sym in E''.
      by rewrite (key_eqb_trans _ _ _ E' E'') in E.
Qed.

Lemma set_fresh m k v :
  JSMap.get k m = None → JSMap.set k v m = m ++ [(k, v)].
Proof.
  induction m as [|[k0 v0] m IH]; simpl; [done|].
  destruct (key_eqb k0 k); [done|]. intros H. by rewrite IH.
Qed.

Lemma set_present m k v v0 :
  JSMap.get k m = Some v0 →
  ∃ m1 k0 m2, m = m1 ++ (k0, v0) :: m2 ∧ key_eqb k0 k = true ∧
              JSMap.get k m1 = None ∧
              JSMap.set k v m = m1 ++ (k0, v) :: m2.
Proof.
  induction m as [|[k0 w] m IH]; simpl; [done|].
  destruct (key_eqb k0 k) eqn:E.
  - intros [= ->]. by exists [], k0, m.
  - intros H. destruct (IH H) as (m1 & k1 & m2 & -> & Hk & Hn & ->).
    exists ((k0, w) :: m1), k1, m2. simpl. by rewrite E.
Qed.

Lemma get_elem_of m k v : JSMap.get k m = Some v → v ∈ JSMap.values m.
Proof.
  induction m as [|[k0 w] m IH]; simpl; [done|].
  destruct (key_eqb k0 k).
  - intros [= ->]. apply elem_of_cons. by left.
  - intros H. apply elem_of_cons. right. by apply IH.
Qed.

Lemma values_set_subset m k v w :
  w ∈ JSMap.values (JSMap.set k v m) → w = v ∨ w ∈ JSMap.values m.
Proof.
  induction m as [|[k0 v0] m IH]; simpl.
  - intros H. apply list_elem_of_singleton in H. by left.
  - destruct (key_eqb k0 k); simpl; intros H; apply elem_of_cons in H as [->|H].
    + by left.
    + right. apply elem_of_cons. by right.
    + right. apply elem_of_cons. by left.
    + destruct (IH H) as [->|?]; [by left|]. right. apply elem_of_cons. by right.
Qed.

Lemma of_entries_snoc (es : list (value * V)) k v :
  JSMap.of_entries (es ++ [(k, v)]) = JSMap.set k v (JSMap.of_entries es).
Proof. unfold JSMap.of_entries. by rewrite fold_left_app. Qed.

(** Reading a key of [new Map(entries)]: the last entry under that key wins. *)
Lemma get_of_entries (es : list (value * V)) k :
  JSMap.get k (JSMap.of_entries es) =
    snd <$> JSArray.find (λ e, key_eqb e.1 k) (reverse es).
Proof.
  induction es as [|[k0 v0] es IH] using rev_ind; [done|].
  rewrite of_entries_snoc, get_set, reverse_app. simpl.
  destruct (key_eqb k0 k); [done|]. apply IH.
Qed.

Lemma values_of_entries_subset (es : list (value * V)) w :
  w ∈ JSMap.values (JSMap.of_entries es) → w ∈ es.*2.
Proof.
  induction es as [|[k0 v0] es IH] using rev_ind; [done|].
  rewrite of_entries_snoc, fmap_app. intros H.
  apply elem_of_app. destruct (values_set_subset _ _ _ _ H) as [->|H'].
  - right. simpl. apply list_elem_of_singleton. done.
  - left. by apply IH.
Qed.

End MapFacts.
(* ===================================================================== *)
(** ** The average computer *)
(* ===================================================================== *)

Section AveragesFacts.
Context `{JS : JSNumber}.
Import Averages.

Lemma fold_left_cons {A B : Type} (f : A → B → A) (x : B) (l : list B) (a : A) :
  fold_left f (x :: l) a = fold_left f l (f a x).
Proof. reflexivity. Qed.

Lemma labAnalysisKeys_NoDup : NoDup labAnalysisKeys.
Proof. compute_done. Qed.

Lemma init_ok : acc_ok [] init.
Proof.
  intros k Hk. unfold init, labAnalysisKeys in *. simpl.
  repeat (apply elem_of_cons in Hk as [->|Hk]; [split; reflexivity|]).
  by apply elem_of_nil in Hk.
Qed.

Lemma step_key_other p a key k :
  k ≠ key →
  sums (step_key p a key) !! k = sums a !! k ∧
  counts (step_key p a key) !! k = counts a !! k.
Proof.
  intros Hne. unfold step_key.
  destruct (get p key) as [| |b|n|s]; try done.
  destruct (isFinite n); [|done]. simpl.
  by rewrite !lookup_insert_ne.
Qed.

Lemma fold_step_key_notin p ks a k :
  k ∉ ks →
  sums (fold_left (step_key p) ks a) !! k = sums a !! k ∧
  counts (fold_left (step_key p) ks a) !! k = counts a !! k.
Proof.
  revert a. induction ks as [|key ks IH]; intros a Hk; [done|].
  apply not_elem_of_cons in Hk as [Hne Hk]. simpl.
  destruct (IH (step_key p a key) Hk) as [-> ->].
  by apply step_key_other.
Qed.

Lemma fold_step_key_in p ks a k :
  NoDup ks → k ∈ ks →
  sums (fold_left (step_key p) ks a) !! k = sums (step_key p a k) !! k ∧
  counts (fold_left (step_key p) ks a) !! k = counts (step_key p a k) !! k.
Proof.
  revert a. induction ks as [|key ks IH]; intros a Hnd Hk.
  - by apply elem_of_nil in Hk.
  - apply NoDup_cons in Hnd as [Hnotin Hnd]. simpl.
    destruct (decide (k = key)) as [->|Hne].
    + by apply fold_step_key_notin.
    + apply elem_of_cons in Hk as [?|Hk]; [done|].
      destruct (IH (step_key p a key) Hnd Hk) as [-> ->].
      destruct (step_key_other p a key k Hne) as [Hs Hc].
      revert Hs Hc. generalize (step_key p a key). intros a' Hs Hc.
      unfold step_key.
      destruct (get p k) as [| |b|n|s]; try done.
      destruct (isFinite n); [|done]. simpl.
      by rewrite !lookup_insert_eq, Hs, Hc.
Qed.

Lemma finiteValues_snoc k pts p :
  finiteValues k (pts ++ [p]) =
  finiteValues k pts ++
    match get p k with
    | VNum n => if isFinite n then [n] else []
    | _ => []
    end.
Proof.
  unfold finiteValues. rewrite omap_app. f_equal. simpl.
  destruct (get p k) as [| |b|n|s]; try done. by destruct (isFinite n).
Qed.

Lemma total_snoc l n : total (l ++ [n]) = add (total l) n.
Proof. unfold total. by rewrite fold_left_app. Qed.

Lemma step_point_ok pts a p :
  acc_ok pts a → acc_ok (pts ++ [p]) (step_point a p).
Proof.
  intros Hok k Hk. destruct (Hok k Hk) as [Hs Hc].
  unfold step_point.
  destruct (fold_step_key_in p labAnalysisKeys a k labAnalysisKeys_NoDup Hk) as [-> ->].
  rewrite finiteValues_snoc. unfold step_key.
  destruct (get p k) as [| |b|n|s]; rewrite ?app_nil_r; try done.
  destruct (isFinite n); rewrite ?app_nil_r; [|done]. simpl.
  rewrite !lookup_insert_eq, Hs, Hc, total_snoc, length_app. simpl.
  split; [done|]. f_equal. lia.
Qed.

Lemma fold_step_point_ok pts pre a :
  acc_ok pre a → acc_ok (pre ++ pts) (fold_left step_point pts a).
Proof.
  revert pre a. induction pts as [|p pts IH]; intros pre a Hok.
  - rewrite app_nil_r. exact Hok.
  - rewrite fold_left_cons, (cons_middle p pre pts), app_assoc.
    apply IH. by apply step_point_ok.
Qed.

Lemma fold_emit_key a ks (m : gmap string value) k :
  fold_left (emit_key a) ks m !! k =
    if bool_decide (k ∈ ks ∧ 0 < default 0 (counts a !! k))
    then Some (VNum (div (default nan (sums a !! k)) (ofNat (default 0 (counts a !! k)))))
    else m !! k.
Proof.
  revert m. induction ks as [|key ks IH]; intros m.
  - cbn [fold_left]. case_bool_decide as H; [|done].
    destruct H as [H _]. by apply elem_of_nil in H.
  - rewrite fold_left_cons, IH. unfold emit_key.
    destruct (bool_decide_reflect (k ∈ ks ∧ 0 < default 0 (counts a !! k))) as [[Hin Hpos]|Hn];
      destruct (bool_decide_reflect (k ∈ key :: ks ∧ 0 < default 0 (counts a !! k)))
        as [[Hin' Hpos']|Hn']; try done.
    + exfalso. apply Hn'. split; [apply elem_of_cons; by right|done].
    + apply elem_of_cons in Hin' as [->|Hin']; [|exfalso; by apply Hn].
      rewrite bool_decide_eq_true_2 by done. by rewrite lookup_insert_eq.
    + destruct (bool_decide_reflect (0 < default 0 (counts a !! key))) as [Hkey|Hkey];
        [|done].
      rewrite lookup_insert_ne; [done|]. intros <-. apply Hn'.
      split; [apply elem_of_cons; by left|done].
Qed.

Lemma finiteValues_nonempty k pts :
  finiteValues k pts ≠ [] ↔ ∃ p, p ∈ pts ∧ isFiniteNumber (get p k) = true.
Proof.
  unfold finiteValues. induction pts as [|p pts IH]; simpl.
  - split; [done|]. intros (p & Hp & _). by apply elem_of_nil in Hp.
  - unfold isFiniteNumber in *.
    destruct (get p k) as [| |b|n|s] eqn:Hg; simpl.
    5: { rewrite IH. split.
         - intros (q & Hq & Hf). exists q. split; [by apply elem_of_cons; right|done].
         - intros (q & Hq & Hf). apply elem_of_cons in Hq as [->|Hq]; [by rewrite Hg in Hf|eauto]. }
    4: { destruct (isFinite n) eqn:Hfin.
         - split; [|done]. intros _. exists p. split; [apply elem_of_cons; by left|by rewrite Hg].
         - rewrite IH. split.
           + intros (q & Hq & Hf). exists q. split; [by apply elem_of_cons; right|done].
           + intros (q & Hq & Hf). apply elem_of_cons in Hq as [->|Hq]; [|eauto].
             rewrite Hg in Hf. congruence. }
    all: rewrite IH; split;
      [ intros (q & Hq & Hf); exists q; split; [by apply elem_of_cons; right|done]
      | intros (q & Hq & Hf); apply elem_of_cons in Hq as [->|Hq]; [by rewrite Hg in Hf|eauto] ].
Qed.

Lemma calculateAverages_lookup pts k :
  calculateAveragesFromDataPoints pts !! k =
    if bool_decide (k ∈ labAnalysisKeys) then meanOfFinite pts k else None.
Proof.
  destruct pts as [|q pts].
  { cbn [calculateAveragesFromDataPoints]. rewrite lookup_empty. by case_bool_decide. }
  unfold calculateAveragesFromDataPoints. rewrite fold_emit_key, lookup_empty.
  pose proof (fold_step_point_ok (q :: pts) [] init init_ok) as Hok.
  rewrite app_nil_l in Hok. revert Hok.
  generalize (fold_left step_point (q :: pts) init). intros a Hok.
  destruct (bool_decide_reflect (k ∈ labAnalysisKeys)) as [Hin|Hnin].
  - destruct (Hok k Hin) as [Hs Hc]. rewrite Hs, Hc. cbn [default from_option id].
    unfold meanOfFinite, mean.
    destruct (finiteValues k (q :: pts)) as [|v vs].
    + rewrite bool_decide_eq_false_2; [done|]. intros [_ H]. cbn [length] in H. lia.
    + rewrite bool_decide_eq_true_2; [done|]. split; [done|]. cbn [length]. lia.
  - rewrite bool_decide_eq_false_2; [done|]. by intros [? _].
Qed.

(** C1.  The averages of a series hold, for each of the ten proxy keys
    (delta18O, delta13C, mgCaRatio, tex86, alkenoneSST, calculatedSST, baCa,
    srCa, cdCa, radiocarbonDate), an entry exactly when some point carries a
    finite number under that key, and the entry is the mean of those finite
    numbers, taken in series order; they hold no other key; and the
    averages of the empty series are the empty mapping.  (The dashboard
    keeps a second, identical copy of the function.) *)
Theorem calculateAverages_mean_of_finite (pts : list (gmap string value)) :
  let proxyKeys :=
    ["delta18O"; "delta13C"; "mgCaRatio"; "tex86"; "alkenoneSST";
     "calculatedSST"; "baCa"; "srCa"; "cdCa"; "radiocarbonDate"] in
  calculateAveragesFromDataPoints [] = ∅ ∧
  (∀ k, k ∈ proxyKeys →
     (is_Some (calculateAveragesFromDataPoints pts !! k) ↔
        ∃ p, p ∈ pts ∧ isFiniteNumber (get p k) = true) ∧
     calculateAveragesFromDataPoints pts !! k = meanOfFinite pts k) ∧
  (∀ k, k ∉ proxyKeys → calculateAveragesFromDataPoints pts !! k = None).
Proof.
  intros proxyKeys. change proxyKeys with labAnalysisKeys. clear proxyKeys.
  split; [done|]. split.
  - intros k Hk. rewrite calculateAverages_lookup, bool_decide_eq_true_2 by done.
    split; [|done]. rewrite <- finiteValues_nonempty. unfold meanOfFinite.
    destruct (finiteValues k pts); split; done.
  - intros k Hk. by rewrite calculateAverages_lookup, bool_decide_eq_false_2.
Qed.

End AveragesFacts.

(* ===================================================================== *)
(** ** The bulk merge *)
(* ===================================================================== *)

Section MergeFacts.
Context `{JS : JSNumber} `{!JSNumberLaws JS}.
Import DataInputManager.
Implicit Types (r p : gmap string value) (rows points : list (gmap string value)).

Lemma usableKey_Some (v : value) (k : string) :
  usableKey v = Some k → v = VStr k ∧ Str.trim k ≠ "".
Proof.
  destruct v as [| |b|n|s]; simpl; try done.
  destruct (negb (s =? ""))%string; simpl; [|done].
  destruct (Str.trim s =? "")%string eqn:E; simpl; [done|].
  intros [= ->]. split; [done|]. by apply String.eqb_neq.
Qed.

(** A key is usable exactly when it is a string that trimming does not
    leave empty. *)
Lemma usableKey_spec (v : value) :
  (∀ k, usableKey v = Some k ↔ v = VStr k ∧ Str.trim k ≠ "") ∧
  (usableKey v = None ↔ ∀ s, v = VStr s → Str.trim s = "").
Proof.
  assert (∀ s, usableKey (VStr s) = if (Str.trim s =? "")%string then None else Some s)
    as Hstr.
  { intros s. simpl. destruct (String.eqb_spec (Str.trim s) "") as [He|Hne].
    - by rewrite andb_false_r.
    - destruct (String.eqb_spec s "") as [->|Hs]; [done|]. done. }
  destruct v as [| |b|n|s]; try (split; [intros k; split; [done|by intros []]|done]).
  rewrite Hstr. destruct (String.eqb_spec (Str.trim s) "") as [He|Hne].
  - split.
    + intros k. split; [done|]. intros [[= ->] Hk]. done.
    + split; [|done]. intros _ s' [= <-]. done.
  - split.
    + intros k. split; [by intros [= ->]|]. by intros [[= ->] _].
    + split; [done|]. intros H. destruct Hne. by apply H.
Qed.

Lemma merge_step_map now st index r :
  sectionPointsMap (merge_step now st index r) =
    JSMap.set (VStr (rowKey now index r))
      (rowValue now index r (JSMap.get (VStr (rowKey now index r)) (sectionPointsMap st)))
      (sectionPointsMap st).
Proof.
  unfold merge_step, rowKey, rowValue.
  destruct (usableKey (get r "subsection")) as [k|] eqn:E; simpl; [|done].
  apply usableKey_Some in E as [-> _]. done.
Qed.

Lemma merge_from_get now k index rows st :
  JSMap.get (VStr k) (sectionPointsMap (merge_from now index rows st)) =
    entryAfter now k index rows (JSMap.get (VStr k) (sectionPointsMap st)).
Proof.
  revert index st. induction rows as [|r rows IH]; intros index st; simpl; [done|].
  rewrite IH, merge_step_map, get_set. simpl.
  destruct (rowKey now index r =? k)%string eqn:E; [|done].
  apply String.eqb_eq in E. by rewrite E.
Qed.

(** Rows stored under other keys leave the entry alone. *)
Lemma entryAfter_other now k index rows cur :
  (∀ j r, rows !! j = Some r → rowKey now (index + j) r ≠ k) →
  entryAfter now k index rows cur = cur.
Proof.
  revert index cur. induction rows as [|r rows IH]; intros index cur H; simpl; [done|].
  rewrite IH.
  - pose proof (H 0 r eq_refl) as H0. rewrite Nat.add_0_r in H0.
    apply String.eqb_neq in H0. by rewrite H0.
  - intros j r' Hj. replace (S index + j) with (index + S j) by lia. by apply H.
Qed.

(** The single row stored under [k] decides the entry. *)
Lemma entryAfter_single now k index rows cur i r :
  rows !! i = Some r →
  rowKey now (index + i) r = k →
  (∀ j r', rows !! j = Some r' → j ≠ i → rowKey now (index + j) r' ≠ k) →
  entryAfter now k index rows cur = Some (rowValue now (index + i) r cur).
Proof.
  revert index cur i. induction rows as [|r0 rows IH]; intros index cur i Hi Hk Hothers;
    [done|]. simpl. destruct i as [|i]; simpl in Hi.
  - injection Hi as ->. rewrite Nat.add_0_r in Hk. rewrite Hk, String.eqb_refl.
    rewrite Nat.add_0_r. apply entryAfter_other.
    intros j r' Hj. replace (S index + j) with (index + S j) by lia.
    by apply Hothers.
  - pose proof (Hothers 0 r0 eq_refl ltac:(lia)) as H0. rewrite Nat.add_0_r in H0.
    apply String.eqb_neq in H0. rewrite H0.
    replace (index + S i) with (S index + i) in * by lia.
    apply IH; [done|done|].
    intros j r' Hj Hne. replace (S index + j) with (index + S j) by lia.
    apply Hothers; [done|lia].
Qed.

Lemma mergedPoints_from_get now points rows k w :
  JSMap.get (VStr k) (sectionPointsMap (mergeBatch now points rows)) = Some w →
  w ∈ mergedPoints now points rows.
Proof.
  intros H. unfold mergedPoints. apply elem_of_sort. by apply get_elem_of in H.
Qed.

Lemma mergeBatch_get now points rows k :
  JSMap.get (VStr k) (sectionPointsMap (mergeBatch now points rows)) =
    entryAfter now k 0 rows (JSMap.get (VStr k) (existingMap points)).
Proof. unfold mergeBatch. by rewrite merge_from_get. Qed.

(** Whatever ends up in the map comes from the section or from a row. *)
Lemma merge_from_values (P : gmap string value → Prop) now index rows st :
  (∀ a b, P a → P b → P (spread2 a b)) →
  (∀ a v, P a → P (<["subsection" := v]> a)) →
  P ∅ →
  Forall P rows →
  Forall P (JSMap.values (sectionPointsMap st)) →
  Forall P (JSMap.values (sectionPointsMap (merge_from now index rows st))).
Proof.
  intros Hspread Hins Hempty. revert index st.
  induction rows as [|r rows IH]; intros index st Hrows Hst; simpl; [done|].
  apply Forall_cons in Hrows as [Hr Hrows]. apply IH; [done|].
  rewrite merge_step_map. rewrite Forall_forall in Hst |- *. intros w Hw.
  apply values_set_subset in Hw as [->|Hw]; [|by apply Hst].
  unfold rowValue. destruct (usableKey (get r "subsection")).
  - apply Hspread; [|done].
    destruct (JSMap.get _ _) as [v|] eqn:E; simpl; [|done].
    apply Hst. by apply get_elem_of in E.
  - by apply Hins.
Qed.

End MergeFacts.

Section TypingFacts.
Context `{JS : JSNumber} `{!JSNumberLaws JS}.
Import DataInputManager.

Lemma DepthTyped_sortable (p : gmap string value) :
  DepthTyped p → isNaN (depthKey p) = false.
Proof.
  unfold DepthTyped, depthKey, get, or_else.
  destruct (p !! "depth") as [[| |b|n|s]|]; simpl; try done; intros _.
  - destruct (isNaN n) eqn:E; simpl; [apply isNaN_ofNat|].
    destruct (eqb n zero); simpl; [apply isNaN_ofNat|done].
  - apply isNaN_ofNat.
Qed.

Lemma depthKey_missing (p : gmap string value) :
  p !! "depth" = None → depthKey p = zero.
Proof. unfold depthKey, get. by intros ->. Qed.

Lemma DepthTyped_spread2 (a b : gmap string value) :
  DepthTyped a → DepthTyped b → DepthTyped (spread2 a b).
Proof.
  unfold DepthTyped. rewrite lookup_spread2. by destruct (b !! "depth").
Qed.

Lemma DepthTyped_subsection (a : gmap string value) (v : value) :
  DepthTyped a → DepthTyped (<["subsection" := v]> a).
Proof. unfold DepthTyped. by rewrite lookup_insert_ne. Qed.

Lemma DepthTyped_empty : DepthTyped (∅ : gmap string value).
Proof. unfold DepthTyped. by rewrite lookup_empty. Qed.

(** Every field a parsed row carries besides [subsection] is a number
    other than NaN. *)
Lemma parseRow_fields finalMap (row : list (string * value)) (k : string) (v : value) :
  parseRow finalMap row !! k = Some v →
  if decide (k = "subsection") then ∃ s, v = VStr s
  else ∃ n, v = VNum n ∧ isNaN n = false.
Proof.
  unfold parseRow. generalize (JSObject.forIn row). clear row. intros row.
  assert (∀ (acc : gmap string value),
    (∀ k v, acc !! k = Some v →
       if decide (k = "subsection") then ∃ s, v = VStr s
       else ∃ n, v = VNum n ∧ isNaN n = false) →
    ∀ k v, fold_left (row_step finalMap) row acc !! k = Some v →
       if decide (k = "subsection") then ∃ s, v = VStr s
       else ∃ n, v = VNum n ∧ isNaN n = false) as Hgen.
  { induction row as [|[header x] row IH]; intros acc Hacc; simpl; [done|].
    apply IH. intros k' v'. unfold row_step.
    destruct (mappedKeyOf finalMap header) as [mappedKey|]; [|by apply Hacc].
    assert (∀ m : gmap string value,
              m = (if strict_eqb x (VStr "") then acc
                   else if (mappedKey =? "subsection")%string
                        then <[mappedKey := VStr (toStr x)]> acc
                        else if negb (isNaN (parseFloat (Str.replaceComma (toStr x))))
                             then <[mappedKey := VNum (parseFloat (Str.replaceComma (toStr x)))]> acc
                             else acc) →
              m !! k' = Some v' →
              if decide (k' = "subsection") then ∃ s, v' = VStr s
              else ∃ n, v' = VNum n ∧ isNaN n = false) as Hcase.
    { intros m ->. destruct (strict_eqb x (VStr "")); [by apply Hacc|].
      destruct (mappedKey =? "subsection")%string eqn:E.
      - apply String.eqb_eq in E as ->. rewrite lookup_insert.
        destruct (decide ("subsection" = k')) as [<-|?]; [|by apply Hacc].
        intros [= <-]. rewrite decide_True by done. by eexists.
      - apply String.eqb_neq in E.
        destruct (isNaN (parseFloat (Str.replaceComma (toStr x)))) eqn:En; simpl;
          [by apply Hacc|].
        rewrite lookup_insert. destruct (decide (mappedKey = k')) as [<-|?];
          [|by apply Hacc].
        intros [= <-]. rewrite decide_False by done. by eexists. }
    destruct x; try (by apply Hacc); by apply Hcase. }
  apply Hgen. intros k' v'. by rewrite lookup_empty.
Qed.

Lemma parseData_DepthTyped finalMap (data : list (list (string * value))) :
  Forall DepthTyped (parseData finalMap data).
Proof.
  apply Forall_forall. intros r Hr. unfold parseData in Hr.
  apply list_elem_of_filter in Hr as [_ Hr].
  apply list_elem_of_fmap in Hr as (row & -> & _).
  unfold DepthTyped. destruct (parseRow finalMap row !! "depth") as [v|] eqn:E; [|done].
  apply parseRow_fields in E. rewrite decide_False in E by done.
  by destruct E as (n & -> & _).
Qed.

Lemma existingMap_values (points : list (gmap string value)) (w : gmap string value) :
  w ∈ JSMap.values (existingMap points) → w ∈ points.
Proof.
  intros H. apply values_of_entries_subset in H.
  rewrite <- list_fmap_compose in H. apply list_elem_of_fmap in H as (p & -> & Hp). done.
Qed.

Lemma existingMap_get (points : list (gmap string value)) (k : value) :
  JSMap.get k (existingMap points) =
    JSArray.find (λ p, key_eqb (get p "subsection") k) (reverse points).
Proof.
  unfold existingMap. rewrite get_of_entries, <- fmap_reverse.
  induction (reverse points) as [|p l IH]; simpl; [done|].
  destruct (key_eqb (get p "subsection") k); [done|]. apply IH.
Qed.

Lemma merge_from_untouched now (k : value) index rows st :
  (∀ j r, rows !! j = Some r → key_eqb (VStr (rowKey now (index + j) r)) k = false) →
  JSMap.get k (sectionPointsMap (merge_from now index rows st)) =
    JSMap.get k (sectionPointsMap st).
Proof.
  revert index st. induction rows as [|r rows IH]; intros index st H; simpl; [done|].
  rewrite IH.
  - rewrite merge_step_map, get_set.
    pose proof (H 0 r eq_refl) as H0. rewrite Nat.add_0_r in H0. by rewrite H0.
  - intros j r' Hj. replace (S index + j) with (index + S j) by lia. by apply H.
Qed.

Lemma mergedPoints_ascending now points rows :
  Forall DepthTyped points → Forall DepthTyped rows →
  ascending depthKey (mergedPoints now points rows).
Proof.
  intros Hp Hr. unfold mergedPoints, byDepth.
  apply (sort_ascending depthKey).
  eapply Forall_impl; [|apply DepthTyped_sortable].
  unfold mergeBatch. apply merge_from_values; simpl.
  - apply DepthTyped_spread2.
  - intros. by apply DepthTyped_subsection.
  - apply DepthTyped_empty.
  - done.
  - apply Forall_forall. intros w Hw. apply existingMap_values in Hw.
    rewrite Forall_forall in Hp. by apply Hp.
Qed.

Lemma merged_DepthTyped now (points rows : list (gmap string value)) :
  Forall DepthTyped points → Forall DepthTyped rows →
  Forall DepthTyped (mergedPoints now points rows).
Proof.
  intros Hp Hr. unfold mergedPoints. rewrite sort_Permutation.
  unfold mergeBatch. apply merge_from_values; simpl.
  - apply DepthTyped_spread2.
  - intros. by apply DepthTyped_subsection.
  - apply DepthTyped_empty.
  - done.
  - apply Forall_forall. intros w Hw. apply existingMap_values in Hw.
    rewrite Forall_forall in Hp. by apply Hp.
Qed.

(** The key of the comparator and the depth of a point: the depth when it
    is a number other than NaN, zero otherwise.  The two order alike. *)
Lemma depthKey_depth (p : gmap string value) :
  DepthTyped p →
  let depth := match p !! "depth" with
               | Some (VNum n) => if isNaN n then zero else n
               | _ => zero
               end in
  isNaN depth = false ∧
  (∀ c, lt (depthKey p) c = lt depth c) ∧ (∀ c, lt c (depthKey p) = lt c depth).
Proof.
  unfold DepthTyped, depthKey, or_else, get.
  destruct (p !! "depth") as [[| |b|n|s]|]; try done; intros _; cbn.
  - destruct (isNaN n) eqn:En; cbn; [split; [apply isNaN_ofNat|done]|].
    destruct (eqb n zero) eqn:Ez; cbn; [|done].
    split; [done|]. split; intros c; symmetry.
    + by apply eqb_lt_l.
    + by apply eqb_lt_r.
  - split; [apply isNaN_ofNat|done].
Qed.

Lemma ascending_by_depth (l : list (gmap string value)) :
  Forall DepthTyped l → ascending depthKey l →
  ascending (λ p, match p !! "depth" with
                  | Some (VNum n) => if isNaN n then zero else n
                  | _ => zero
                  end) l.
Proof.
  intros Ht Ha. unfold ascending in *. induction Ha as [|p l Ha IH Hp]; [constructor|].
  apply Forall_cons in Ht as [Htp Htl]. constructor; [by apply IH|].
  rewrite Forall_forall in Hp, Htl |- *. intros q Hq.
  specialize (Hp q Hq). specialize (Htl q Hq).
  destruct (depthKey_depth p Htp) as (Np & Lp & Rp).
  destruct (depthKey_depth q Htl) as (Nq & Lq & Rq).
  cbv zeta in Np, Lp, Rp, Nq, Lq, Rq.
  pose proof (DepthTyped_sortable p Htp) as Sp.
  pose proof (DepthTyped_sortable q Htl) as Sq.
  rewrite le_spec in Hp by done. rewrite le_spec by done.
  by rewrite <- Lq, <- Rp.
Qed.

Lemma sort_by_depth (l : list (gmap string value)) :
  Forall DepthTyped l →
  ascending (λ p, match p !! "depth" with
                  | Some (VNum n) => if isNaN n then zero else n
                  | _ => zero
                  end) (JSArray.sort byDepth l).
Proof.
  intros Ht. apply ascending_by_depth.
  - by rewrite sort_Permutation.
  - apply (sort_ascending depthKey). eapply Forall_impl; [exact Ht|].
    apply DepthTyped_sortable.
Qed.

End TypingFacts.
(* ===================================================================== *)
(** ** Generated keys *)
(* ===================================================================== *)

Section GeneratedKeys.
Import DataInputManager.

Lemma string_of_uint_dashFree (d : Decimal.uint) :
  dashFree (NilEmpty.string_of_uint d).
Proof. induction d; simpl; try done; split; done. Qed.

Lemma string_of_uint_inj (d d' : Decimal.uint) :
  NilEmpty.string_of_uint d = NilEmpty.string_of_uint d' → d = d'.
Proof.
  intros H. pose proof (NilEmpty.usu d) as H1. rewrite H, NilEmpty.usu in H1.
  congruence.
Qed.

Lemma decimal_inj (n m : nat) : Str.decimal n = Str.decimal m → n = m.
Proof.
  intros H. apply string_of_uint_inj in H.
  rewrite <- (DecimalNat.Unsigned.of_to n), <- (DecimalNat.Unsigned.of_to m). by rewrite H.
Qed.

Lemma decimalN_inj (n m : N) : Str.decimalN n = Str.decimalN m → n = m.
Proof.
  intros H. apply string_of_uint_inj in H.
  rewrite <- (DecimalN.Unsigned.of_to n), <- (DecimalN.Unsigned.of_to m). by rewrite H.
Qed.

Lemma split_at_dash (a a' b b' : string) :
  dashFree a → dashFree a' →
  (a ++ String "-" b)%string = (a' ++ String "-" b')%string → a = a' ∧ b = b'.
Proof.
  revert a'. induction a as [|c a IH]; intros [|c' a']; simpl.
  - intros _ _ [= ->]. done.
  - intros _ [Hc _] [= <- _]. done.
  - intros [Hc _] _ [= -> _]. done.
  - intros [_ Ha] [_ Ha'] [= -> H]. destruct (IH _ Ha Ha' H) as [-> ->]. done.
Qed.

(** [uniqueId] determines both the clock reading and the row index. *)
Lemma uniqueId_inj (t t' : N) (i i' : nat) :
  uniqueId t i = uniqueId t' i' → t = t' ∧ i = i'.
Proof.
  unfold uniqueId. intros H.
  cbn [String.append] in H. injection H as H.
  apply split_at_dash in H as [Ht Hi].
  - split; [by apply decimalN_inj|by apply decimal_inj].
  - apply string_of_uint_dashFree.
  - apply string_of_uint_dashFree.
Qed.

End GeneratedKeys.

Section BulkMerge.
Context `{JS : JSNumber} `{!JSNumberLaws JS}.
Import DataInputManager.

Lemma entryAfter_is_Some now k index rows cur :
  is_Some cur → is_Some (entryAfter now k index rows cur).
Proof.
  revert index cur. induction rows as [|r rows IH]; intros index cur H; simpl; [done|].
  apply IH. by destruct (rowKey now index r =? k)%string.
Qed.

Lemma entryAfter_hit now k index rows cur i r :
  rows !! i = Some r → rowKey now (index + i) r = k →
  is_Some (entryAfter now k index rows cur).
Proof.
  revert index cur i. induction rows as [|r0 rows IH]; intros index cur i Hi Hk; [done|].
  simpl. destruct i as [|i]; simpl in Hi.
  - injection Hi as ->. rewrite Nat.add_0_r in Hk. rewrite Hk, String.eqb_refl.
    by apply entryAfter_is_Some.
  - apply (IH _ _ i); [done|]. by replace (S index + i) with (index + S i) by lia.
Qed.

Lemma rowValue_subsection now index r cur :
  get (rowValue now index r cur) "subsection" = VStr (rowKey now index r).
Proof.
  unfold rowValue, rowKey.
  destruct (usableKey (get r "subsection")) as [k|] eqn:E.
  - apply usableKey_Some in E as [E _]. rewrite get_spread2.
    unfold get in E. destruct (r !! "subsection"); simpl in E; by subst.
  - by rewrite get_insert, decide_True.
Qed.

Lemma entryAfter_subsection now k index rows cur w :
  (∀ v, cur = Some v → get v "subsection" = VStr k) →
  entryAfter now k index rows cur = Some w → get w "subsection" = VStr k.
Proof.
  revert index cur. induction rows as [|r rows IH]; intros index cur Hcur; simpl.
  - intros ->. by apply Hcur.
  - apply IH. destruct (rowKey now index r =? k)%string eqn:E; [|done].
    intros v [= <-]. apply String.eqb_eq in E. by rewrite rowValue_subsection, E.
Qed.

Lemma existingMap_subsection points (k : string) v :
  JSMap.get (VStr k) (existingMap points) = Some v →
  v ∈ points ∧ get v "subsection" = VStr k.
Proof.
  rewrite existingMap_get. intros H.
  assert (∀ l, JSArray.find (λ p, key_eqb (get p "subsection") (VStr k)) l = Some v →
               v ∈ l ∧ get v "subsection" = VStr k) as Hfind.
  { induction l as [|p l IH]; simpl; [done|].
    destruct (key_eqb (get p "subsection") (VStr k)) eqn:E.
    - intros [= <-]. split; [apply elem_of_cons; by left|].
      destruct (get p "subsection") as [| |?|?|s]; simpl in E; try done.
      apply String.eqb_eq in E. by subst.
    - intros H'. destruct (IH H') as [? ?]. split; [apply elem_of_cons; by right|done]. }
  destruct (Hfind _ H) as [Hin ?]. split; [|done].
  by rewrite elem_of_reverse in Hin.
Qed.

End BulkMerge.

Section BulkMergeTheorems.
Context `{JS : JSNumber}.
Import DataInputManager.

(** C3.  The bulk merge reconciles a batch with the series of the section.
    With [rows] the parsed rows of the file and [merged] the sequence handed
    to [onUpdateSection] as the data points of the section, together with
    the averages of that sequence: the point stored under a key is the last
    point of the series that carries it; a row whose usable key (a string
    that trimming does not leave empty) is carried by such a point (and by
    no other row) is shallow-merged into it, the fields of the row
    overwriting and every other field of the point staying; a row whose
    usable key is new (and carried by no other row) becomes a point of its
    own; points whose key no row carries stay as they are; [merged] is in
    ascending order of depth, a point without depth counting as depth zero,
    as soon as the depths of the series are numbers; and in general the
    point stored under a key is what merging, in file order, the rows
    stored under that key into the existing point gives ([entryAfter]),
    [merged] being the stored points rearranged. *)
Theorem bulk_merge_reconciles `{!JSNumberLaws JS} (now : nat → N)
    (points : list (gmap string value))
    (finalMap : gmap string (option string))
    (data : list (list (string * value))) :
  let rows := parseData finalMap data in
  let merged := mergedPoints now points rows in
  (∀ section st, dataPoints section = points → rows ≠ [] →
     ∃ updated,
       conf_calls (handleConfirmMapping now true (Complete [] data) finalMap section st) =
         [CallOnUpdateSection updated] ∧
       dataPoints updated = merged ∧
       labAnalysis updated = Some (Averages.calculateAveragesFromDataPoints merged) ∧
       sec_id updated = sec_id section ∧ sec_name updated = sec_name section) ∧
  (∀ k v, JSMap.get (VStr k) (existingMap points) = Some v ↔
          JSArray.find (λ p, key_eqb (get p "subsection") (VStr k)) (reverse points) = Some v) ∧
  (∀ v k, usableKey v = Some k ↔ v = VStr k ∧ Str.trim k ≠ "") ∧
  (∀ i r k v,
     rows !! i = Some r → usableKey (get r "subsection") = Some k →
     (∀ j r', rows !! j = Some r' → j ≠ i → rowKey now j r' ≠ k) →
     JSMap.get (VStr k) (existingMap points) = Some v →
     spread2 v r ∈ merged ∧
     ∀ f, spread2 v r !! f = match r !! f with Some x => Some x | None => v !! f end) ∧
  (∀ i r k,
     rows !! i = Some r → usableKey (get r "subsection") = Some k →
     (∀ j r', rows !! j = Some r' → j ≠ i → rowKey now j r' ≠ k) →
     JSMap.get (VStr k) (existingMap points) = None →
     r ∈ merged) ∧
  (∀ k v,
     JSMap.get k (existingMap points) = Some v →
     (∀ j r, rows !! j = Some r → key_eqb (VStr (rowKey now j r)) k = false) →
     v ∈ merged) ∧
  (Forall DepthTyped points →
     ascending (λ p, match p !! "depth" with
                     | Some (VNum n) => if isNaN n then zero else n
                     | _ => zero
                     end) merged) ∧
  (∀ k, JSMap.get (VStr k) (sectionPointsMap (mergeBatch now points rows)) =
        entryAfter now k 0 rows (JSMap.get (VStr k) (existingMap points))) ∧
  merged ≡ₚ JSMap.values (sectionPointsMap (mergeBatch now points rows)).
Proof.
  intros rows merged.
  split; [|split; [|split; [|split; [|split; [|split; [|split; [|split]]]]]]].
  - intros section st Hpts Hrows. unfold handleConfirmMapping.
    cbn -[parseData mergeBatch JSArray.sort Averages.calculateAveragesFromDataPoints].
    fold rows. unfold merged, mergedPoints. rewrite Hpts.
    destruct rows; [done|]. cbn [length Nat.eqb conf_calls]. by eexists.
  - intros k v. by rewrite existingMap_get.
  - intros v k. apply usableKey_spec.
  - intros i r k v Hi Hk Hothers Hv. split; [|apply lookup_spread2].
    apply (mergedPoints_from_get now points rows k).
    rewrite mergeBatch_get.
    rewrite (entryAfter_single now k 0 rows _ i r); simpl; try done.
    + unfold rowValue. by rewrite Hk, Hv.
    + unfold rowKey. by rewrite Hk.
  - intros i r k Hi Hk Hothers Hnone.
    apply (mergedPoints_from_get now points rows k).
    rewrite mergeBatch_get.
    rewrite (entryAfter_single now k 0 rows _ i r); simpl; try done.
    + unfold rowValue. rewrite Hk, Hnone. simpl. by rewrite spread2_empty.
    + unfold rowKey. by rewrite Hk.
  - intros k v Hv Hothers. unfold merged, mergedPoints. apply elem_of_sort.
    apply (get_elem_of _ k). unfold mergeBatch.
    by rewrite merge_from_untouched.
  - intros Hp. apply ascending_by_depth.
    + apply merged_DepthTyped; [done|]. apply parseData_DepthTyped.
    + apply mergedPoints_ascending; [done|]. apply parseData_DepthTyped.
  - intros k. apply mergeBatch_get.
  - apply sort_Permutation.
Qed.

(** C6, as the code has it.  A row without a usable key (its subsection
    is missing, is no string, or is a string that trimming leaves empty) is
    stored under the generated key, made of the clock reading and the row
    index; two rows never receive the same generated key; the row becomes a
    point of its own, provided no row of the batch carries that very key as
    its usable key; and the key of every row, carried or generated, is the
    key of a point of the result. *)
Theorem unkeyed_rows_get_generated_keys `{!JSNumberLaws JS} (now : nat → N)
    (points rows : list (gmap string value)) :
  let merged := mergedPoints now points rows in
  (∀ i r, rows !! i = Some r → usableKey (get r "subsection") = None →
     rowKey now i r = uniqueId (now i) i ∧
     rowKey now i r = ("Imported-" ++ Str.decimalN (now i) ++ "-" ++ Str.decimal i)%string) ∧
  (∀ i j, i ≠ j → uniqueId (now i) i ≠ uniqueId (now j) j) ∧
  (∀ i r, rows !! i = Some r → usableKey (get r "subsection") = None →
     (∀ j r' k, rows !! j = Some r' → usableKey (get r' "subsection") = Some k →
                k ≠ uniqueId (now i) i) →
     <["subsection" := VStr (uniqueId (now i) i)]> r ∈ merged) ∧
  (∀ i r, rows !! i = Some r →
     ∃ p, p ∈ merged ∧ get p "subsection" = VStr (rowKey now i r)) ∧
  (∀ v, usableKey v = None ↔ ∀ s, v = VStr s → Str.trim s = "").
Proof.
  intros merged. split; [|split; [|split; [|split]]]; [| | | |intros v; apply usableKey_spec].
  - intros i r Hi Hnone. unfold rowKey. by rewrite Hnone.
  - intros i j Hij Heq. apply uniqueId_inj in Heq as [_ ?]. done.
  - intros i r Hi Hnone Hfree.
    apply (mergedPoints_from_get now points rows (uniqueId (now i) i)).
    rewrite mergeBatch_get.
    rewrite (entryAfter_single now _ 0 rows _ i r); simpl; try done.
    + unfold rowValue. by rewrite Hnone.
    + unfold rowKey. by rewrite Hnone.
    + intros j r' Hj Hne. unfold rowKey.
      destruct (usableKey (get r' "subsection")) as [k|] eqn:E.
      * by apply (Hfree j r').
      * intros Heq. apply uniqueId_inj in Heq as [_ ?]. done.
  - intros i r Hi.
    destruct (entryAfter_hit now (rowKey now i r) 0 rows
                (JSMap.get (VStr (rowKey now i r)) (existingMap points)) i r Hi eq_refl)
      as [w Hw].
    exists w. split.
    + apply (mergedPoints_from_get now points rows (rowKey now i r)).
      by rewrite mergeBatch_get.
    + eapply entryAfter_subsection; [|exact Hw].
      intros v Hv. by apply existingMap_subsection in Hv as [_ ?].
Qed.

End BulkMergeTheorems.

(* ===================================================================== *)
(** ** A worked import *)
(* ===================================================================== *)

Module ImportExample.
Import Exact ExactLaws DataInputManager Sample.

Example file_rows : parseData mapping file = [rowA; rowB; rowC].
Proof. reflexivity. Qed.

Example file_merged :
  mergedPoints clock [pointA] [rowA; rowB; rowC] =
    [ <["subsection" := VStr generated]> rowC;
      <["depth" := int 10]> pointA;
      rowB ].
Proof. reflexivity. Qed.

Example file_keys :
  rowKey clock 0 rowA = "A" ∧ rowKey clock 1 rowB = "B" ∧ rowKey clock 2 rowC = generated.
Proof. repeat split. Qed.

Lemma bulk_merge_witness :
  JSNumberLaws exact ∧
  (spread2 pointA rowA ∈ mergedPoints clock [pointA] (parseData mapping file) ∧
   rowB ∈ mergedPoints clock [pointA] (parseData mapping file) ∧
   ascending (λ p, match p !! "depth" with
                   | Some (VNum n) => if isNaN n then zero else n
                   | _ => zero
                   end) (mergedPoints clock [pointA] (parseData mapping file))).
Proof.
  split; [exact exact_laws|].
  destruct (bulk_merge_reconciles clock [pointA] mapping file)
    as (_ & _ & _ & Hupdate & Happend & _ & Hsorted & _).
  split; [|split].
  - apply (Hupdate 0 rowA "A" pointA); [reflexivity|reflexivity| |reflexivity].
    change (parseData mapping file) with [rowA; rowB; rowC].
    intros [|[|[|j]]] r' Hj Hne; simpl in Hj; try done; injection Hj as <-.
    + change (rowKey clock 1 rowB) with "B". discriminate.
    + change (rowKey clock 2 rowC) with generated. discriminate.
  - apply (Happend 1 rowB "B"); [reflexivity|reflexivity| |reflexivity].
    change (parseData mapping file) with [rowA; rowB; rowC].
    intros [|[|[|j]]] r' Hj Hne; simpl in Hj; try done; injection Hj as <-.
    + change (rowKey clock 0 rowA) with "A". discriminate.
    + change (rowKey clock 2 rowC) with generated. discriminate.
  - apply Hsorted. repeat constructor.
Defined.

Lemma generated_keys_witness :
  JSNumberLaws exact ∧
  (<["subsection" := VStr generated]> rowC ∈ mergedPoints clock [pointA] [rowA; rowB; rowC] ∧
   uniqueId (clock 0) 0 ≠ uniqueId (clock 2) 2).
Proof.
  split; [exact exact_laws|].
  destruct (unkeyed_rows_get_generated_keys clock [pointA] [rowA; rowB; rowC])
    as (_ & Hdistinct & Hown & _).
  split.
  - apply (Hown 2 rowC); [reflexivity|reflexivity|].
    intros [|[|[|j]]] r' k Hj Hk; simpl in Hj; try done; injection Hj as <-.
    + change (usableKey (get rowA "subsection")) with (Some "A") in Hk.
      injection Hk as <-. discriminate.
    + change (usableKey (get rowB "subsection")) with (Some "B") in Hk.
      injection Hk as <-. discriminate.
    + change (usableKey (get rowC "subsection")) with (@None string) in Hk.
      discriminate.
  - apply Hdistinct. discriminate.
Defined.

(** C6 fails as stated: the unkeyed first row is stored under its generated
    key, the second row carries that key, and the result holds one point
    for the two rows, with the depth of the second. *)
Lemma generated_key_collision :
  usableKey (get unkeyedRow "subsection") = None ∧
  uniqueId (clock 0) 0 = "Imported-1730000000000-0" ∧
  mergedPoints clock [] [unkeyedRow; keyedRow] = [keyedRow] ∧
  <["subsection" := VStr (uniqueId (clock 0) 0)]> unkeyedRow
    ∉ mergedPoints clock [] [unkeyedRow; keyedRow].
Proof.
  split; [reflexivity|]. split; [reflexivity|]. split; [reflexivity|].
  change (mergedPoints clock [] [unkeyedRow; keyedRow]) with [keyedRow].
  intros H. apply list_elem_of_singleton in H.
  apply (f_equal (λ m : gmap string value, m !! "depth")) in H.
  change (Some (int 2) = Some (int 7)) in H. discriminate.
Qed.

(** Two rows whose subsection is blank without holding a space: both are
    stored under generated keys, and both count as added. *)
Example unicode_blank_keys :
  usableKey (get nbspRow1 "subsection") = None ∧
  usableKey (get nbspRow2 "subsection") = None ∧
  mergedPoints clock [] [nbspRow1; nbspRow2] =
    [ <["subsection" := VStr "Imported-1730000000000-0"]> nbspRow1;
      <["subsection" := VStr "Imported-1730000000000-1"]> nbspRow2 ] ∧
  addedCount (mergeBatch clock [] [nbspRow1; nbspRow2]) = 2 ∧
  updatedCount (mergeBatch clock [] [nbspRow1; nbspRow2]) = 0.
Proof. repeat split. Qed.

End ImportExample.
(* ===================================================================== *)
(** ** Manual entry, header mapping and the abort paths *)
(* ===================================================================== *)

Section EntryFacts.
Context `{JS : JSNumber}.
Import DataInputManager.

Lemma readForm_no_value (subsectionId : string) (formState : gmap string string) :
  (∀ key text, formState !! key = Some text → key ≠ "subsection" →
     isNaN (parseFloat text) = true) →
  readForm subsectionId formState = ({["subsection" := VStr subsectionId]}, false).
Proof.
  intros H. unfold readForm.
  assert (∀ kv, kv ∈ map_to_list formState →
            kv.1 ≠ "subsection" → isNaN (parseFloat kv.2) = true) as Hl.
  { intros [key text] Hin. simpl. apply elem_of_map_to_list in Hin. by apply H. }
  generalize dependent (map_to_list formState). intros l Hl.
  generalize ({["subsection" := VStr subsectionId]} : gmap string value).
  induction l as [|[key text] l IH]; intros st; cbn [fold_left]; [done|].
  assert (form_step (st, false) (key, text) = (st, false)) as ->.
  { unfold form_step. destruct (key =? "subsection")%string eqn:E; simpl; [done|].
    destruct (text =? "")%string; simpl; [done|].
    apply String.eqb_neq in E.
    assert (isNaN (parseFloat text) = true) as ->; [|done].
    apply (Hl (key, text)); [|done]. apply elem_of_cons. by left. }
  apply IH. intros kv Hin. apply Hl. apply elem_of_cons. by right.
Qed.

(** C7.  A manual submission whose subsection field is blank, or none of
    whose other fields parses as a number, is rejected: the handler reports
    an error, does not call [onUpdateSection], and leaves the form; the
    sections held by the dashboard, their series and their summaries stay
    what they were. *)
Theorem manual_entry_rejected (formState : gmap string string) (section : CoreSection) :
  Str.trim (default "" (formState !! "subsection")) = "" ∨
  (∀ key text, formState !! key = Some text → key ≠ "subsection" →
     isNaN (parseFloat text) = true) →
  let out := handleAddDataPoint formState section in
  (out_status out).1 = Error ∧
  out_update out = None ∧
  out_form out = formState ∧
  ∀ updateSection sections,
    CoreDashboard.afterHandler updateSection (out_update out) sections = sections.
Proof.
  intros H. unfold handleAddDataPoint.
  destruct (Str.trim (default "" (formState !! "subsection")) =? "")%string eqn:E.
  { simpl. done. }
  destruct H as [H|H].
  { rewrite H in E. done. }
  rewrite (readForm_no_value _ _ H). simpl. done.
Qed.

(** C8.  The two abort paths of the bulk import.  Without headers the
    handler reports an error and makes no call, so [mapCsvHeaders] is never
    invoked, whereas with headers it is invoked; and when no row of the file
    yields a mapped field, the handler reports an error and makes no call,
    so nothing is merged, whereas otherwise it passes the merged section to
    [onUpdateSection]. *)
Theorem import_aborts_before_effects :
  (∀ JSON_parse ai format fields st,
     default [] fields = [] →
     let '(st', calls) := triggerHeaderMapping JSON_parse ai format fields st in
     calls = [] ∧
     status st' = Some (Error, ("Could not read headers from " ++ upper format ++ ".")%string) ∧
     isProcessing st' = false ∧
     headerMap st' = headerMap st ∧
     isMappingHeaders st' = isMappingHeaders st) ∧
  (∀ JSON_parse ai format fields st,
     default [] fields ≠ [] →
     (triggerHeaderMapping JSON_parse ai format fields st).2 =
       [CallMapCsvHeaders (default [] fields)]) ∧
  (∀ now finalMap data section st,
     Forall (λ row, parseRow finalMap row = ∅) data →
     let out := handleConfirmMapping now true (Complete [] data) finalMap section st in
     conf_calls out = [] ∧
     conf_status out =
       Some (Error, "No valid data points could be parsed from the file.")) ∧
  (∀ now finalMap data section st,
     Exists (λ row, parseRow finalMap row ≠ ∅) data →
     ∃ updated,
       conf_calls (handleConfirmMapping now true (Complete [] data) finalMap section st) =
         [CallOnUpdateSection updated]).
Proof.
  split; [|split; [|split]].
  - intros JSON_parse ai format fields st H. unfold triggerHeaderMapping.
    rewrite H. simpl. done.
  - intros JSON_parse ai format fields st H. unfold triggerHeaderMapping.
    destruct (default [] fields) as [|h hs]; [done|]. simpl.
    by destruct (CoreService.mapCsvHeaders JSON_parse ai (h :: hs)).
  - intros now finalMap data section st H.
    assert (parseData finalMap data = []) as Hnil.
    { unfold parseData. induction H as [|row data Hrow _ IH]; [done|].
      rewrite fmap_cons, filter_cons_False; [done|].
      rewrite Hrow. rewrite map_size_empty. simpl. tauto. }
    unfold handleConfirmMapping.
    cbn -[parseData mergeBatch JSArray.sort Averages.calculateAveragesFromDataPoints].
    rewrite Hnil. done.
  - intros now finalMap data section st H.
    assert (parseData finalMap data ≠ []) as Hne.
    { unfold parseData. induction H as [row data Hrow|row data _ IH].
      - rewrite fmap_cons, filter_cons_True; [done|].
        apply map_size_non_empty_iff in Hrow. apply Is_true_true.
        destruct (size (parseRow finalMap row)); [lia|done].
      - rewrite fmap_cons. destruct (decide (negb (size (parseRow finalMap row) =? 0))).
        + by rewrite filter_cons_True.
        + by rewrite filter_cons_False. }
    unfold handleConfirmMapping.
    cbn -[parseData mergeBatch JSArray.sort Averages.calculateAveragesFromDataPoints].
    destruct (parseData finalMap data); [done|]. simpl. by eexists.
Qed.

End EntryFacts.
(* ===================================================================== *)
(** ** The remote gateway *)
(* ===================================================================== *)

Section GatewayFacts.
Context `{JS : JSNumber}.
Import CoreService.

Lemma nullMapping_lookup (headers : list string) (h : string) :
  nullMapping headers !! h = if decide (h ∈ headers) then Some JNull else None.
Proof.
  unfold nullMapping.
  assert (∀ acc : gmap string json,
            fold_left (λ acc header, <[header := JNull]> acc) headers acc !! h =
              if decide (h ∈ headers) then Some JNull else acc !! h) as H.
  { induction headers as [|h0 headers IH]; intros acc; cbn [fold_left].
    - destruct (decide (h ∈ [])) as [Hin|]; [by apply elem_of_nil in Hin|done].
    - rewrite IH. rewrite lookup_insert.
      destruct (decide (h ∈ headers)) as [Hin|Hnotin];
        destruct (decide (h ∈ h0 :: headers)) as [Hin'|Hnotin'];
        destruct (decide (h0 = h)) as [->|Hne]; try done.
      all: try (exfalso; apply Hnotin'; apply elem_of_cons; auto; fail).
      apply elem_of_cons in Hin' as [->|?]; done. }
  rewrite H. by destruct (decide (h ∈ headers)).
Qed.

(** C9.  When the header-classification call fails, [mapCsvHeaders] does
    not throw: it returns the mapping that sends every header to [null]
    and holds nothing else. *)
Theorem mapCsvHeaders_fallback (JSON_parse : string → option json)
    (generateContent : list string → GenerateContent) (headers : list string) :
  callFails JSON_parse (generateContent headers) →
  mapCsvHeaders JSON_parse (Some generateContent) headers =
    Return (Some (JObj (nullMapping headers))) ∧
  (∀ h, h ∈ headers → nullMapping headers !! h = Some JNull) ∧
  (∀ h, h ∉ headers → nullMapping headers !! h = None).
Proof.
  intros Hfail. split; [|split].
  - unfold mapCsvHeaders, callFails in *.
    destruct (generateContent headers) as [m|[text|]]; simpl; [done| |done].
    by rewrite Hfail.
  - intros h Hh. by rewrite nullMapping_lookup, decide_True.
  - intros h Hh. by rewrite nullMapping_lookup, decide_False.
Qed.

Lemma defaultSubsection_truthy (index : nat) (dp : gmap string value) :
  truthy (get (defaultSubsection index dp) "subsection") = true.
Proof.
  unfold defaultSubsection. rewrite get_insert, decide_True by done.
  unfold or_else. destruct (truthy (get dp "subsection")) eqn:E; [done|].
  simpl. done.
Qed.

Lemma defaultSubsection_spec (index : nat) (dp : gmap string value) :
  (truthy (get dp "subsection") = true → defaultSubsection index dp = dp) ∧
  (truthy (get dp "subsection") = false →
     defaultSubsection index dp =
       <["subsection" := VStr ("Subsection " ++ Str.decimal (index + 1))%string]> dp).
Proof.
  unfold defaultSubsection, or_else. split; intros H; rewrite H; [|done].
  apply insert_id. unfold get in *.
  destruct (dp !! "subsection") as [v|]; [done|]. simpl in H. done.
Qed.


End GatewayFacts.
(* ===================================================================== *)
(** ** Series and summary *)
(* ===================================================================== *)

Section SummaryFacts.
Context `{JS : JSNumber}.
Import DataInputManager.

Lemma withAverages_spec (section : CoreSection) :
  dataPoints (CoreDashboard.withAverages section) = dataPoints section ∧
  (dataPoints section ≠ [] →
     labAnalysis (CoreDashboard.withAverages section) =
       Some (Averages.calculateAveragesFromDataPoints (dataPoints section))) ∧
  (dataPoints section = [] →
     labAnalysis (CoreDashboard.withAverages section) = labAnalysis section).
Proof.
  destruct section as [id name pts lab]. unfold CoreDashboard.withAverages.
  cbn [dataPoints labAnalysis sec_id sec_name].
  destruct pts as [|p pts]; cbn [length Nat.eqb negb dataPoints labAnalysis]; done.
Qed.

(** C2, as the code has it.  A manual submission and a bulk merge hand to
    [onUpdateSection] a section whose series and summary were replaced
    together, the summary being the averages of the new series; a section
    loaded from the store with a series that is not empty carries the
    averages of that series; a section loaded with an empty series keeps
    the summary the store holds for it. *)
Theorem labAnalysis_follows_dataPoints :
  (∀ formState section updated,
     out_update (handleAddDataPoint formState section) = Some updated →
     labAnalysis updated =
       Some (Averages.calculateAveragesFromDataPoints (dataPoints updated)) ∧
     updated = withData section (dataPoints updated)
                 (Averages.calculateAveragesFromDataPoints (dataPoints updated))) ∧
  (∀ now file parsed finalMap section st updated,
     CallOnUpdateSection updated ∈
       conf_calls (handleConfirmMapping now file parsed finalMap section st) →
     labAnalysis updated =
       Some (Averages.calculateAveragesFromDataPoints (dataPoints updated)) ∧
     updated = withData section (dataPoints updated)
                 (Averages.calculateAveragesFromDataPoints (dataPoints updated))) ∧
  (∀ reply sections loaded,
     CoreService.reply_error reply = None →
     loaded ∈ (CoreDashboard.fetchSections reply sections).1 →
     ∃ row, row ∈ default [] (CoreService.reply_data reply) ∧
       dataPoints loaded = dataPoints (CoreService.dbSectionToAppSection row) ∧
       (dataPoints loaded ≠ [] →
          labAnalysis loaded =
            Some (Averages.calculateAveragesFromDataPoints (dataPoints loaded))) ∧
       (dataPoints loaded = [] → labAnalysis loaded = CoreService.lab_analysis row)).
Proof.
  split; [|split].
  - intros formState section updated. unfold handleAddDataPoint.
    destruct (Str.trim (default "" (formState !! "subsection")) =? "")%string; [done|].
    destruct (readForm _ formState) as [newPointData hasValue].
    destruct hasValue; simpl; [|done].
    destruct (addOrUpdate _ _ _) as [newDataPoints message]. simpl.
    intros [= <-]. done.
  - intros now file parsed finalMap section st updated. unfold handleConfirmMapping.
    destruct file; simpl; [|by intros ?%elem_of_nil].
    destruct parsed as [message|[|e errors] data]; simpl; try (by intros ?%elem_of_nil).
    destruct (length (parseData finalMap data) =? 0); simpl; [by intros ?%elem_of_nil|].
    intros H%list_elem_of_singleton. injection H as ->. done.
  - intros reply sections loaded Herr Hloaded.
    unfold CoreDashboard.fetchSections, CoreService.fetchSectionsForCore in Hloaded.
    rewrite Herr in Hloaded.
    destruct (CoreService.reply_data reply) as [rows|]; cbn [fst default] in *;
      [|by apply elem_of_nil in Hloaded].
    apply list_elem_of_fmap in Hloaded as (s & -> & Hs).
    apply list_elem_of_fmap in Hs as (row & -> & Hrow). exists row.
    split; [done|].
    destruct (withAverages_spec (CoreService.dbSectionToAppSection row)) as (H1 & H2 & H3).
    rewrite H1. split; [done|]. split; [done|]. intros H. by rewrite H3.
Qed.

End SummaryFacts.

Module SummaryExample.
Import Exact Sample.

(** C2 fails as stated on the load path: a stored section without data
    points and with a summary comes back with that summary, which is not
    the (empty) mapping of averages of its empty series. *)
Lemma loaded_summary_not_recomputed :
  ∃ loaded,
    (CoreDashboard.fetchSections storeReply []).1 = [loaded] ∧
    dataPoints loaded = [] ∧
    labAnalysis loaded = Some {["delta18O" := int 3]} ∧
    labAnalysis loaded ≠
      Some (Averages.calculateAveragesFromDataPoints (dataPoints loaded)).
Proof.
  eexists. split; [reflexivity|]. split; [reflexivity|]. split; [reflexivity|].
  intros H.
  apply (f_equal (λ o : option (gmap string value),
                    match o with Some m => m !! "delta18O" | None => None end)) in H.
  change (Some (int 3) = None) in H. discriminate.
Qed.

End SummaryExample.
(* ===================================================================== *)
(** ** The age-model merge *)
(* ===================================================================== *)

Section AgeModelFacts.
Context `{JS : JSNumber} `{!JSNumberLaws JS}.
Import CoreService.

Lemma ageMapOf_snoc (pts : list AiPoint) (rp : AiPoint) :
  ageMapOf (pts ++ [rp]) =
    if negb (isUndefined (ai_depth rp)) && hasAge rp
    then JSMap.set (ai_depth rp) (ai_age rp) (ageMapOf pts)
    else ageMapOf pts.
Proof.
  unfold ageMapOf. rewrite filter_app, fmap_app.
  destruct (negb (isUndefined (ai_depth rp)) && hasAge rp) eqn:E.
  - rewrite filter_cons_True by (simpl; by rewrite E).
    rewrite filter_nil. simpl. by rewrite of_entries_snoc.
  - rewrite filter_cons_False by (simpl; rewrite E; auto).
    rewrite filter_nil. simpl. by rewrite app_nil_r.
Qed.

Lemma get_ageMapOf (pts : list AiPoint) (depth : value) :
  JSMap.get depth (ageMapOf pts) =
    ai_age <$>
      JSArray.find (λ rp, negb (isUndefined (ai_depth rp)) && hasAge rp
                          && key_eqb (ai_depth rp) depth) (reverse pts).
Proof.
  induction pts as [|rp pts IH] using rev_ind; [done|].
  rewrite ageMapOf_snoc, reverse_app. simpl.
  destruct (negb (isUndefined (ai_depth rp)) && hasAge rp); simpl; [|done].
  rewrite get_set. by destruct (key_eqb (ai_depth rp) depth).
Qed.

Lemma ageMapOf_empty (pts : list AiPoint) (depth : value) :
  JSMap.size (ageMapOf pts) = 0 → JSMap.get depth (ageMapOf pts) = None.
Proof. unfold JSMap.size. by destruct (ageMapOf pts). Qed.

Lemma updatePoint_spec (ageMap : list (value * value)) (dp : gmap string value) :
  updatePoint ageMap dp =
    if isUndefined (get dp "depth") then dp
    else match JSMap.get (get dp "depth") ageMap with
         | Some calculatedAge => <["age" := VNum (roundedAge calculatedAge)]> dp
         | None => <["age" := get dp "age"]> dp
         end.
Proof. unfold updatePoint. by destruct (get dp "depth"). Qed.

Lemma get_insert_self (dp : gmap string value) (k f : string) :
  get (<[k := get dp k]> dp) f = get dp f.
Proof. rewrite get_insert. by destruct (decide (k = f)) as [->|]. Qed.

Lemma mergeSection_point (calibrated : list AiSection) (section : CoreSection)
    (i : nat) (dp : gmap string value) :
  dataPoints section !! i = Some dp →
  ∃ dp', dataPoints (mergeSection calibrated section) !! i = Some dp' ∧
    match returnedAge calibrated section dp with
    | Some a => dp' = <["age" := VNum (roundedAge a)]> dp
    | None => ∀ f, get dp' f = get dp f
    end.
Proof.
  intros Hdp. unfold mergeSection, returnedAge.
  destruct (JSArray.find _ calibrated) as [[id name [pts|]]|]; simpl;
    try (by exists dp).
  destruct (JSMap.size (ageMapOf pts) =? 0) eqn:Hsize.
  - apply Nat.eqb_eq in Hsize. exists dp. split; [done|].
    destruct (isUndefined (get dp "depth")); [done|].
    rewrite <- get_ageMapOf, ageMapOf_empty; done.
  - simpl. rewrite list_lookup_fmap, Hdp. simpl. eexists. split; [done|].
    rewrite updatePoint_spec. destruct (isUndefined (get dp "depth")); [done|].
    rewrite <- get_ageMapOf. destruct (JSMap.get _ _); simpl; [done|].
    intros f. apply get_insert_self.
Qed.

Lemma hasAnyAgeData_false (calibrated : list AiSection) :
  (∀ cs pts rp, cs ∈ calibrated → ai_dataPoints cs = Some pts → rp ∈ pts →
     hasAge rp = false) →
  hasAnyAgeData calibrated = false.
Proof.
  intros H. unfold hasAnyAgeData. apply not_true_is_false. intros Hex.
  apply existsb_exists in Hex as (cs & Hcs & Hex). apply list_elem_of_In in Hcs.
  destruct (ai_dataPoints cs) as [pts|] eqn:E; [|done].
  apply existsb_exists in Hex as (rp & Hrp & Hage). apply list_elem_of_In in Hrp.
  by rewrite (H cs pts rp) in Hage.
Qed.

End AgeModelFacts.

Section AgeModelTheorem.
Context `{JS : JSNumber}.
Import CoreService.

(** C4, as the code has it.  Let the request come back with the sections
    [calibrated].  When no returned point of any returned section has an
    age that is neither missing nor null, [generateAgeModel] throws one
    error and the handler leaves the calibrated sections it had.  Otherwise
    it returns every original section, in order, merged with the reply: a
    point for which the reply holds an age ([returnedAge]: same section id,
    same depth, age not null) receives that age rounded to four decimal
    places, all its other fields staying; any other point reads as before
    on every field, its age included. *)
Theorem age_model_merge `{!JSNumberLaws JS}
    (request : list CoreSection → list TiePoint → AgeModelReply)
    (sections : list CoreSection) (tiePoints : list TiePoint)
    (calibrated : list AiSection) :
  request sections tiePoints = ReplySections calibrated →
  ((∀ cs pts rp, cs ∈ calibrated → ai_dataPoints cs = Some pts → rp ∈ pts →
      hasAge rp = false) →
   (∃ m, generateAgeModel (Some request) sections tiePoints = Throw m) ∧
   ∀ current,
     (CoreSynthesisView.handleGenerateAgeModel (Some request) sections tiePoints current).1
       = current) ∧
  (hasAnyAgeData calibrated = true →
   generateAgeModel (Some request) sections tiePoints =
     Return (mergeSection calibrated <$> sections) ∧
   ∀ section i dp,
     dataPoints section !! i = Some dp →
     ∃ dp', dataPoints (mergeSection calibrated section) !! i = Some dp' ∧
       match returnedAge calibrated section dp with
       | Some a => dp' = <["age" := VNum (parseFloat (toFixed (toNumber a) 4))]> dp
       | None => ∀ f, get dp' f = get dp f
       end).
Proof.
  intros Hreply. split.
  - intros Hnone. apply hasAnyAgeData_false in Hnone.
    assert (∃ m, generateAgeModel (Some request) sections tiePoints = Throw m) as [m Hm].
    { unfold generateAgeModel, calibrate. rewrite Hreply.
      destruct calibrated as [|cs l]; [by eexists|]. rewrite Hnone. by eexists. }
    split; [by exists m|]. intros current.
    unfold CoreSynthesisView.handleGenerateAgeModel.
    destruct (length tiePoints <? 2); [done|]. by rewrite Hm.
  - intros Hany. split.
    + unfold generateAgeModel, calibrate. rewrite Hreply.
      destruct calibrated as [|cs l]; [done|]. by rewrite Hany.
    + intros section i dp Hdp. by apply mergeSection_point.
Qed.

End AgeModelTheorem.

Module AgeModelExample.
Import Exact ExactLaws CoreService Sample.

Example calibration :
  generateAgeModel (Some (λ _ _, ReplySections (replyWith (int 5)))) [section1] ties =
    Return [ {| sec_id := "S1"; sec_name := "Section 1";
                dataPoints := [ <["age" := int 5]> shallow;
                                <["age" := VUndefined]> deep ];
                labAnalysis := None |} ].
Proof. reflexivity. Qed.

Lemma age_model_merge_witness :
  JSNumberLaws exact ∧
  (∃ dp', dataPoints (mergeSection (replyWith (int 5)) section1) !! 0 = Some dp' ∧
          dp' = <["age" := VNum (parseFloat (toFixed (toNumber (int 5)) 4))]> shallow) ∧
  (∃ dp', dataPoints (mergeSection (replyWith (int 5)) section1) !! 1 = Some dp' ∧
          ∀ f, get dp' f = get deep f).
Proof.
  split; [exact exact_laws|].
  destruct (age_model_merge (λ _ _, ReplySections (replyWith (int 5)))
              [section1] ties (replyWith (int 5)) eq_refl) as [_ Hmerge].
  destruct (Hmerge eq_refl) as [_ Hpoint].
  split.
  - exact (Hpoint section1 0 shallow eq_refl).
  - exact (Hpoint section1 1 deep eq_refl).
Defined.

(** C4 fails as stated: the reply gives the age 5.00004 for depth 10, and
    the point at depth 10 receives the age 5. *)
Lemma returned_age_is_rounded :
  ∃ dp',
    generateAgeModel (Some (λ _ _, ReplySections (replyWith (VNum (XFin (500004 # 100000))))))
                     [section1] ties
      = Return [ {| sec_id := "S1"; sec_name := "Section 1";
                    dataPoints := [dp'; <["age" := VUndefined]> deep];
                    labAnalysis := None |} ] ∧
    get shallow "depth" = int 10 ∧
    get dp' "age" = int 5 ∧
    get dp' "age" ≠ VNum (XFin (500004 # 100000)).
Proof.
  eexists. split; [reflexivity|]. split; [reflexivity|]. split; [reflexivity|].
  intros H. change (int 5 = VNum (XFin (500004 # 100000))) in H. discriminate.
Qed.

End AgeModelExample.
(* ===================================================================== *)
(** ** The composite splice *)
(* ===================================================================== *)

Section SpliceFacts.
Context `{JS : JSNumber} `{!JSNumberLaws JS}.
Import CoreSynthesisView.

Lemma ge_le (a b : num) : ge a b = le b a.
Proof. unfold ge, le. by destruct (isNaN a), (isNaN b). Qed.

Lemma filter_never {A} (l : list A) : filter (λ _ : A, false) l = [].
Proof.
  induction l as [|x l IH]; [done|]. rewrite filter_cons_False; [done|]. simpl. tauto.
Qed.

Lemma pointsOf_selects intervals (section : CoreSection) :
  pointsOf intervals section = filter (λ p, selects intervals section p) (dataPoints section).
Proof.
  unfold pointsOf, selects.
  destruct (intervals !! sec_id section) as [[id [s|] [e|]]|]; simpl;
    rewrite ?filter_never; try done.
  apply list_filter_iff. intros p. unfold inInterval. by rewrite ge_le.
Qed.

Lemma fold_pointsOf intervals (sections : list CoreSection) (acc : list (gmap string value)) :
  fold_left (λ allPoints section, allPoints ++ pointsOf intervals section) sections acc =
    acc ++ concat (pointsOf intervals <$> sections).
Proof.
  revert acc. induction sections as [|s sections IH]; intros acc; simpl.
  - by rewrite app_nil_r.
  - by rewrite IH, app_assoc.
Qed.

Lemma pointsOf_swap intervals (section : CoreSection) :
  pointsOf (swapBounds <$> intervals) section = pointsOf intervals section.
Proof.
  unfold pointsOf. rewrite lookup_fmap.
  destruct (intervals !! sec_id section) as [[id [s|] [e|]]|]; simpl; try done.
  by rewrite (min_comm e s), (max_comm e s).
Qed.

(** The sort key of a selected point orders like its age. *)
Lemma ageKey_age (p : gmap string value) :
  isNaN (toNumber (get p "age")) = false →
  isNaN (ageKey p) = false ∧
  (∀ c, lt (ageKey p) c = lt (toNumber (get p "age")) c) ∧
  (∀ c, lt c (ageKey p) = lt c (toNumber (get p "age"))).
Proof.
  unfold ageKey, or_else. intros Hnan.
  destruct (truthy (get p "age")) eqn:Ht; [done|].
  simpl. split; [apply isNaN_ofNat|].
  destruct (get p "age") as [| |b|n|s]; simpl in *.
  - by rewrite isNaN_nan in Hnan.
  - done.
  - by rewrite Ht.
  - rewrite Hnan in Ht. simpl in Ht.
    assert (eqb n zero = true) as Heq by by destruct (eqb n zero).
    split; intros c; symmetry; [by apply eqb_lt_l|by apply eqb_lt_r].
  - destruct (s =? "")%string eqn:E; [|done]. apply String.eqb_eq in E as ->.
    split; intros c; symmetry;
      [apply eqb_lt_l|apply eqb_lt_r]; apply stringToNumber_empty.
Qed.

Lemma selects_age intervals (section : CoreSection) (p : gmap string value) :
  selects intervals section p = true → isNaN (toNumber (get p "age")) = false.
Proof.
  unfold selects.
  destruct (intervals !! sec_id section) as [[id [s|] [e|]]|]; simpl; try done.
  intros H. apply andb_prop in H as [_ H]. unfold le in H.
  by destruct (isNaN (toNumber (get p "age"))).
Qed.

Lemma StronglySorted_impl_elem {A} (R S : A → A → Prop) (l : list A) :
  (∀ x y, x ∈ l → y ∈ l → R x y → S x y) →
  StronglySorted R l → StronglySorted S l.
Proof.
  intros H Hs. induction Hs as [|x l Hs IH Hx]; constructor.
  - apply IH. intros a b Ha Hb. apply H; apply elem_of_cons; by right.
  - rewrite Forall_forall in Hx |- *. intros y Hy. apply H.
    + apply elem_of_cons. by left.
    + apply elem_of_cons. by right.
    + by apply Hx.
Qed.

End SpliceFacts.

Section SpliceTheorem.
Context `{JS : JSNumber}.
Import CoreSynthesisView.

(** C5.  The composite splice of calibrated sections holds exactly the
    points their sections select, each as often as it is selected: the
    points whose age is defined and lies between the smaller and the larger
    bound of the interval of their own section, bounds included.  Exchanging
    the two bounds of the intervals changes nothing; a section whose interval
    is missing or has a null bound contributes no point; the splice is in
    ascending order of age; and without calibrated sections it is empty. *)
Theorem composite_splice_spec `{!JSNumberLaws JS}
    (sections : list CoreSection) (intervals : gmap string SpliceInterval) :
  let splice := compositeSplice (Some sections) intervals in
  splice ≡ₚ concat ((λ section, filter (λ p, selects intervals section p)
                                       (dataPoints section)) <$> sections) ∧
  (∀ p, p ∈ splice ↔
        ∃ section, section ∈ sections ∧ p ∈ dataPoints section ∧
                   selects intervals section p = true) ∧
  compositeSplice (Some sections) (swapBounds <$> intervals) = splice ∧
  (∀ section p,
     (∀ iv, intervals !! sec_id section = Some iv →
            startAge iv = None ∨ endAge iv = None) →
     selects intervals section p = false) ∧
  ascending (λ p, toNumber (get p "age")) splice ∧
  compositeSplice None intervals = [].
Proof.
  intros splice.
  assert (splice ≡ₚ concat ((λ section, filter (λ p, selects intervals section p)
                                       (dataPoints section)) <$> sections)) as Hperm.
  { unfold splice, compositeSplice. rewrite sort_Permutation, fold_pointsOf. simpl.
    assert (pointsOf intervals <$> sections =
            (λ section, filter (λ p, selects intervals section p) (dataPoints section))
              <$> sections) as ->; [|done].
    apply list_fmap_ext. intros _ section _. apply pointsOf_selects. }
  assert (∀ p, p ∈ splice ↔
        ∃ section, section ∈ sections ∧ p ∈ dataPoints section ∧
                   selects intervals section p = true) as Hmem.
  { intros p. rewrite Hperm, list_elem_of_In, in_concat. split.
    - intros (l & Hl & Hp). apply list_elem_of_In in Hl, Hp.
      apply list_elem_of_fmap in Hl as (section & -> & Hs).
      apply list_elem_of_filter in Hp as [Hsel Hp]. exists section.
      split; [done|]. split; [done|]. by apply Is_true_true.
    - intros (section & Hs & Hp & Hsel). eexists. split; apply list_elem_of_In.
      + by apply (list_elem_of_fmap_2 _ sections section).
      + apply list_elem_of_filter. split; [|done]. by apply Is_true_true. }
  split; [done|]. split; [done|]. split; [|split; [|split]].
  - unfold splice, compositeSplice. f_equal. rewrite !fold_pointsOf. do 2 f_equal.
    apply list_fmap_ext. intros _ section _. apply pointsOf_swap.
  - intros section p H. unfold selects.
    destruct (intervals !! sec_id section) as [iv|]; [|done].
    destruct (H iv eq_refl) as [-> | ->]; [done|]. by destruct (startAge iv).
  - assert (Forall (λ p, isNaN (toNumber (get p "age")) = false) splice) as Hage.
    { apply Forall_forall. intros p Hp. apply Hmem in Hp as (section & _ & _ & Hsel).
      by apply selects_age in Hsel. }
    assert (ascending ageKey splice) as Hsorted.
    { unfold splice, compositeSplice, byAge. apply (sort_ascending ageKey).
      apply Forall_forall. intros p Hp.
      assert (p ∈ splice) as Hp' by (unfold splice, compositeSplice; by apply elem_of_sort).
      rewrite Forall_forall in Hage. by apply ageKey_age, Hage. }
    unfold ascending in *.
    eapply StronglySorted_impl_elem; [|exact Hsorted].
    rewrite Forall_forall in Hage.
    intros x y Hx Hy. simpl.
    destruct (ageKey_age x (Hage x Hx)) as (Hx1 & Hx2 & Hx3).
    destruct (ageKey_age y (Hage y Hy)) as (Hy1 & Hy2 & Hy3).
    unfold le. rewrite Hx1, Hy1, (Hage x Hx), (Hage y Hy). simpl.
    by rewrite Hy2, Hx3.
  - done.
Qed.

End SpliceTheorem.

(* ===================================================================== *)
(** ** Further worked examples *)
(* ===================================================================== *)

Module SpliceExample.
Import Exact ExactLaws CoreSynthesisView Sample.

Example splice_value :
  compositeSplice (Some calibrated) intervals = [aged "e" 7; aged "b" 10].
Proof. reflexivity. Qed.

Lemma composite_splice_witness :
  JSNumberLaws exact ∧
  (aged "b" 10 ∈ compositeSplice (Some calibrated) intervals ∧
   ascending (λ p, toNumber (get p "age")) (compositeSplice (Some calibrated) intervals)).
Proof.
  split; [exact exact_laws|].
  destruct (composite_splice_spec calibrated intervals) as (_ & Hmem & _ & _ & Hsorted & _).
  split; [|exact Hsorted].
  apply Hmem. eexists. split; [apply elem_of_cons; left; reflexivity|].
  split; [|reflexivity]. apply elem_of_cons; right. apply elem_of_cons; left. reflexivity.
Defined.

End SpliceExample.

Module EntryExample.
Import Exact DataInputManager Sample.

Example word_is_no_number :
  handleAddDataPoint wordForm section1 =
    {| out_status := (Error, "At least one data value (e.g., depth) must be provided.");
       out_update := None; out_form := wordForm |}.
Proof. reflexivity. Qed.

Example unicode_blanks_are_trimmed :
  Str.trim nbsp = "" ∧
  Str.trim (nbsp ++ lineSeparator ++ " ") = "" ∧
  Str.trim (nbsp ++ " b 2" ++ lineSeparator ++ nbsp) = "b 2".
Proof. repeat split. Qed.

Example no_break_space_is_no_subsection :
  handleAddDataPoint nbspForm section1 =
    {| out_status := (Error, "Subsection ID is a required field.");
       out_update := None; out_form := nbspForm |}.
Proof. reflexivity. Qed.

Lemma manual_entry_rejected_witness :
  (Str.trim (default "" (blankForm !! "subsection")) = "" ∨
   (∀ key text, blankForm !! key = Some text → key ≠ "subsection" →
      isNaN (parseFloat text) = true)) ∧
  out_update (handleAddDataPoint blankForm section1) = None.
Proof.
  split; [left; reflexivity|].
  destruct (manual_entry_rejected blankForm section1 (or_introl eq_refl)) as (_ & H & _).
  exact H.
Defined.

Example accepted_entry :
  out_update (handleAddDataPoint
                (<["subsection" := " b "]> (<["delta18O" := "3.5"]> initialFormState))
                section1) =
    Some {| sec_id := "S1"; sec_name := "Section 1";
            dataPoints := [shallow; <["delta18O" := dec 7 2]> deep];
            labAnalysis := Some {["delta18O" := dec 7 2]} |}.
Proof. reflexivity. Qed.

End EntryExample.

Module HeaderExample.
Import Exact CoreService Sample.

Lemma mapCsvHeaders_fallback_witness :
  callFails noJson (htmlAnswer ["Depth_cm"; "d18O_permil"]) ∧
  mapCsvHeaders noJson (Some htmlAnswer) ["Depth_cm"; "d18O_permil"] =
    Return (Some (JObj (nullMapping ["Depth_cm"; "d18O_permil"]))).
Proof.
  split; [reflexivity|].
  destruct (mapCsvHeaders_fallback noJson htmlAnswer ["Depth_cm"; "d18O_permil"] eq_refl)
    as [H _].
  exact H.
Defined.

End HeaderExample.

Module AveragesExample.
Import Exact Sample.

Example averages_value :
  Averages.calculateAveragesFromDataPoints
    [ <["delta18O" := int 1]> {["tex86" := VStr "n/a"]};
      <["delta18O" := int 2]> {["tex86" := VNum XNaN]};
      {["baCa" := VNum (XInf false)]} ] =
    {["delta18O" := dec 3 2]}.
Proof. reflexivity. Qed.

End AveragesExample.

(* ===================================================================== *)
(** ** The averages read nothing but finite proxy values *)
(* ===================================================================== *)

Section AveragesFrame.
Context `{JS : JSNumber}.
Import Averages.

Lemma calculateAverages_ext (pts pts' : list (gmap string value)) :
  (∀ k, k ∈ labAnalysisKeys → finiteValues k pts = finiteValues k pts') →
  calculateAveragesFromDataPoints pts = calculateAveragesFromDataPoints pts'.
Proof.
  intros H. apply map_eq. intros k. rewrite !calculateAverages_lookup.
  case_bool_decide as Hk; [|done]. unfold meanOfFinite. by rewrite (H k Hk).
Qed.

Lemma finiteValues_app (k : string) (pts1 pts2 : list (gmap string value)) :
  finiteValues k (pts1 ++ pts2) = finiteValues k pts1 ++ finiteValues k pts2.
Proof. unfold finiteValues. apply omap_app. Qed.

Lemma finiteValues_skip (k : string) (p : gmap string value)
    (pts : list (gmap string value)) :
  isFiniteNumber (get p k) = false → finiteValues k (p :: pts) = finiteValues k pts.
Proof.
  intros H. unfold finiteValues. cbn [omap list_omap].
  destruct (get p k) as [| |b|n|s]; try done. simpl in H. by rewrite H.
Qed.

(** X1.  The averages depend on the series only through the finite numbers it
    holds under the ten proxy keys: a point that holds none of them (a point
    with only a depth, say, or with texts or NaN in the proxy fields) can be
    put in or taken out anywhere, any field outside the ten keys (depth,
    age, subsection, ...) can be set or removed on every point, and the
    points can be given in any order that keeps, for each key, the order of
    its finite values, without changing the result. *)
Theorem averages_read_only_finite_proxy_values :
  (∀ pts pts' : list (gmap string value),
     (∀ k, k ∈ labAnalysisKeys → finiteValues k pts = finiteValues k pts') →
     calculateAveragesFromDataPoints pts = calculateAveragesFromDataPoints pts') ∧
  (∀ (pts1 pts2 : list (gmap string value)) (p : gmap string value),
     (∀ k, k ∈ labAnalysisKeys → isFiniteNumber (get p k) = false) →
     calculateAveragesFromDataPoints (pts1 ++ p :: pts2) =
       calculateAveragesFromDataPoints (pts1 ++ pts2)) ∧
  (∀ (pts : list (gmap string value)) (f : string) (v : value),
     f ∉ labAnalysisKeys →
     calculateAveragesFromDataPoints ((λ p, <[f := v]> p) <$> pts) =
       calculateAveragesFromDataPoints pts) ∧
  (∀ (pts : list (gmap string value)) (f : string),
     f ∉ labAnalysisKeys →
     calculateAveragesFromDataPoints ((λ p, delete f p) <$> pts) =
       calculateAveragesFromDataPoints pts).
Proof.
  split; [exact calculateAverages_ext|]. split; [|split].
  - intros pts1 pts2 p Hp. apply calculateAverages_ext. intros k Hk.
    rewrite !finiteValues_app. f_equal. apply finiteValues_skip. by apply Hp.
  - intros pts f v Hf. apply calculateAverages_ext. intros k Hk.
    assert (f ≠ k) as Hne by (intros ->; done).
    unfold finiteValues. induction pts as [|p pts IH]; [done|].
    rewrite fmap_cons. cbn [omap list_omap]. rewrite IH.
    rewrite get_insert. by destruct (decide (f = k)).
  - intros pts f Hf. apply calculateAverages_ext. intros k Hk.
    assert (f ≠ k) as Hne by (intros ->; done).
    unfold finiteValues. induction pts as [|p pts IH]; [done|].
    rewrite fmap_cons. cbn [omap list_omap]. rewrite IH.
    unfold get. by rewrite lookup_delete_ne.
Qed.

End AveragesFrame.

(* ===================================================================== *)
(** ** Manual entry: what is accepted and what it does to the series *)
(* ===================================================================== *)

Section EntryAccepted.
Context `{JS : JSNumber}.
Import DataInputManager.

Lemma form_step_spec (m : gmap string value) (b : bool) (key text : string) :
  form_step (m, b) (key, text) =
    match (if decide (key = "subsection") then None else fieldOf text) with
    | Some v => (<[key := v]> m, true)
    | None => (m, b)
    end.
Proof.
  unfold form_step, fieldOf. destruct (decide (key = "subsection")) as [->|Hne]; [done|].
  apply String.eqb_neq in Hne. rewrite Hne. simpl.
  destruct (text =? "")%string; simpl; [done|].
  by destruct (isNaN (parseFloat text)).
Qed.

Lemma fold_form_step_lookup (l : list (string * string)) (m : gmap string value)
    (b : bool) (k : string) :
  NoDup l.*1 →
  (fold_left form_step l (m, b)).1 !! k =
    match (if decide (k = "subsection") then None
           else (list_to_map l : gmap string string) !! k ≫= fieldOf) with
    | Some v => Some v
    | None => m !! k
    end.
Proof.
  revert m b. induction l as [|[key text] l IH]; intros m b Hnd.
  - cbn [fold_left]. simpl. by destruct (decide (k = "subsection")).
  - rewrite fold_left_cons. rewrite fmap_cons in Hnd. apply NoDup_cons in Hnd as [Hkey Hnd].
    simpl in Hkey. rewrite form_step_spec.
    change (list_to_map ((key, text) :: l) : gmap string string)
      with (<[key := text]> (list_to_map l : gmap string string)).
    destruct (decide (k = "subsection")) as [->|Hk].
    + destruct (decide (key = "subsection")) as [->|Hkey']; [by rewrite IH|].
      destruct (fieldOf text) as [v|]; cbv beta iota; rewrite IH by done; [|done].
      by rewrite lookup_insert_ne.
    + destruct (decide (key = k)) as [->|Hne].
      * rewrite lookup_insert_eq. simpl. rewrite decide_False by done.
        assert ((list_to_map l : gmap string string) !! k = None) as Hnone
          by by apply not_elem_of_list_to_map_1.
        destruct (fieldOf text) as [v|]; cbv beta iota; rewrite IH by done;
          rewrite Hnone; simpl; [|done]. by rewrite lookup_insert_eq.
      * rewrite lookup_insert_ne by done.
        destruct (if decide (key = "subsection") then None else fieldOf text) as [v|];
          cbv beta iota; rewrite IH by done;
          destruct ((list_to_map l : gmap string string) !! k ≫= fieldOf); try done.
        by rewrite lookup_insert_ne.
Qed.

Lemma fold_form_step_flag (l : list (string * string)) (m : gmap string value) (b : bool) :
  (fold_left form_step l (m, b)).2 = true ↔
    b = true ∨ ∃ key text, (key, text) ∈ l ∧ key ≠ "subsection" ∧ is_Some (fieldOf text).
Proof.
  revert m b. induction l as [|[key text] l IH]; intros m b.
  - cbn [fold_left]. simpl. split; [by left|]. intros [H|(? & ? & H & _)]; [done|].
    by apply elem_of_nil in H.
  - rewrite fold_left_cons, form_step_spec.
    destruct (decide (key = "subsection")) as [->|Hkey].
    + rewrite IH. split.
      * intros [H|(k & t & Hin & Hk & Ht)]; [by left|]. right. exists k, t.
        split; [|done]. apply elem_of_cons. by right.
      * intros [H|(k & t & Hin & Hk & Ht)]; [by left|]. right. exists k, t.
        split; [|done]. apply elem_of_cons in Hin as [[= -> ->]|Hin]; done.
    + destruct (fieldOf text) as [v|] eqn:E.
      * rewrite IH. split; [|by left]. intros _. right. exists key, text.
        split; [apply elem_of_cons; by left|]. split; [done|]. by rewrite E.
      * rewrite IH. split.
        -- intros [H|(k & t & Hin & Hk & Ht)]; [by left|]. right. exists k, t.
           split; [|done]. apply elem_of_cons. by right.
        -- intros [H|(k & t & Hin & Hk & Ht)]; [by left|]. right. exists k, t.
           split; [|done]. apply elem_of_cons in Hin as [[= -> ->]|Hin]; [|done].
           rewrite E in Ht. by destruct Ht.
Qed.

(** The point read off the form: the trimmed identifier under [subsection],
    and under every other field name the number its text parses to, if it
    is not empty and parses. *)
Lemma readForm_lookup (subsectionId : string) (formState : gmap string string)
    (k : string) :
  (readForm subsectionId formState).1 !! k =
    if decide (k = "subsection") then Some (VStr subsectionId)
    else formState !! k ≫= fieldOf.
Proof.
  unfold readForm. rewrite fold_form_step_lookup by apply NoDup_fst_map_to_list.
  rewrite list_to_map_to_list.
  destruct (decide (k = "subsection")) as [->|Hk]; [by rewrite lookup_singleton_eq|].
  destruct (formState !! k ≫= fieldOf); [done|]. by rewrite lookup_singleton_ne.
Qed.

Lemma readForm_flag (subsectionId : string) (formState : gmap string string) :
  (readForm subsectionId formState).2 = true ↔
    ∃ key text, formState !! key = Some text ∧ key ≠ "subsection" ∧
                is_Some (fieldOf text).
Proof.
  unfold readForm. rewrite fold_form_step_flag. split.
  - intros [H|(k & t & Hin & Hk & Ht)]; [done|]. exists k, t.
    split; [|done]. by apply elem_of_map_to_list.
  - intros (k & t & Hin & Hk & Ht). right. exists k, t.
    split; [|done]. by apply elem_of_map_to_list.
Qed.

Lemma fieldOf_is_Some (text : string) :
  is_Some (fieldOf text) ↔ text ≠ "" ∧ isNaN (parseFloat text) = false.
Proof.
  unfold fieldOf. destruct (String.eqb_spec text "") as [->|Hne].
  - split; [by intros []|]. by intros [].
  - destruct (isNaN (parseFloat text)); split; try done; by intros [].
Qed.

Lemma hasSubsection_spec (subsectionId : string) (p : gmap string value) :
  hasSubsection subsectionId p = true ↔ get p "subsection" = VStr subsectionId.
Proof.
  unfold hasSubsection. destruct (get p "subsection") as [| |b|n|s]; simpl; try done.
  rewrite String.eqb_eq. split; [by intros ->|by intros [= ->]].
Qed.

Lemma findIndex_Some {A : Type} (pred : A → bool) (l : list A) (i : nat) :
  JSArray.findIndex pred l = Some i →
  ∃ x, l !! i = Some x ∧ pred x = true ∧
       ∀ j y, j < i → l !! j = Some y → pred y = false.
Proof.
  revert i. induction l as [|x l IH]; intros i; simpl; [done|].
  destruct (pred x) eqn:E.
  - intros [= <-]. exists x. split; [done|]. split; [done|]. intros j y Hj. lia.
  - destruct (JSArray.findIndex pred l) as [i'|]; simpl; [|done]. intros [= <-].
    destruct (IH i' eq_refl) as (y & Hy & Hp & Hbefore). exists y.
    split; [done|]. split; [done|]. intros [|j] z Hj; simpl.
    + by intros [= <-].
    + apply Hbefore. lia.
Qed.

Lemma findIndex_None {A : Type} (pred : A → bool) (l : list A) :
  JSArray.findIndex pred l = None → Forall (λ x, pred x = false) l.
Proof.
  induction l as [|x l IH]; simpl; [by constructor|].
  destruct (pred x) eqn:E; [done|].
  destruct (JSArray.findIndex pred l); simpl; [done|]. intros _. by constructor; [|apply IH].
Qed.

Lemma alter_as_insert {A : Type} (f : A → A) (l : list A) (i : nat) (x : A) :
  l !! i = Some x → alter f i l = <[i := f x]> l.
Proof.
  revert i. induction l as [|y l IH]; intros [|i]; simpl; try done.
  - by intros [= ->].
  - intros H. f_equal. by apply IH.
Qed.

(** The outcome of an accepted submission, spelled out. *)
Lemma handleAddDataPoint_accepted (formState : gmap string string)
    (section : CoreSection) :
  let subsectionId := Str.trim (default "" (formState !! "subsection")) in
  let newPoint := (readForm subsectionId formState).1 in
  let points := (addOrUpdate (dataPoints section) subsectionId newPoint).1 in
  subsectionId ≠ "" → (readForm subsectionId formState).2 = true →
  handleAddDataPoint formState section =
    {| out_status :=
         (Success, (addOrUpdate (dataPoints section) subsectionId newPoint).2);
       out_update :=
         Some (withData section points (Averages.calculateAveragesFromDataPoints points));
       out_form :=
         <["subsection" := ("Sample " ++ Str.decimal (length points + 1))%string]>
           initialFormState |}.
Proof.
  intros subsectionId newPoint points Hid Hflag. unfold handleAddDataPoint.
  fold subsectionId. apply String.eqb_neq in Hid. rewrite Hid.
  unfold points, newPoint. destruct (readForm subsectionId formState) as [np hv].
  simpl in Hflag. rewrite Hflag. cbn [negb fst].
  by destruct (addOrUpdate (dataPoints section) subsectionId np).
Qed.

Lemma handleAddDataPoint_rejected (formState : gmap string string)
    (section : CoreSection) :
  let subsectionId := Str.trim (default "" (formState !! "subsection")) in
  subsectionId = "" ∨ (readForm subsectionId formState).2 = false →
  out_update (handleAddDataPoint formState section) = None ∧
  (out_status (handleAddDataPoint formState section)).1 = Error ∧
  out_form (handleAddDataPoint formState section) = formState.
Proof.
  intros subsectionId H. unfold handleAddDataPoint. fold subsectionId.
  destruct (String.eqb_spec subsectionId "") as [Hid|Hid]; [done|].
  destruct H as [H|H]; [done|].
  destruct (readForm subsectionId formState) as [np hv]. simpl in H. by rewrite H.
Qed.

Lemma handleAddDataPoint_inv (formState : gmap string string)
    (section updated : CoreSection) :
  let subsectionId := Str.trim (default "" (formState !! "subsection")) in
  out_update (handleAddDataPoint formState section) = Some updated →
  subsectionId ≠ "" ∧ (readForm subsectionId formState).2 = true.
Proof.
  intros subsectionId Hout.
  destruct (decide (subsectionId = "")) as [Hid|Hid].
  { destruct (handleAddDataPoint_rejected formState section (or_introl Hid)) as [H _].
    congruence. }
  split; [done|]. destruct ((readForm subsectionId formState).2) eqn:E; [done|].
  destruct (handleAddDataPoint_rejected formState section (or_intror E)) as [H _].
  congruence.
Qed.

(** X2.  A manual submission is accepted exactly when the trimmed subsection
    field is not empty and some other field holds a text that is not empty
    and parses as a number.  An accepted submission reports success and
    leaves a cleared form whose subsection is preset to the next sample
    number, the length of the new series plus one; a rejected one reports
    an error and leaves the form as typed. *)
Theorem manual_entry_accepted_iff (formState : gmap string string)
    (section : CoreSection) :
  let subsectionId := Str.trim (default "" (formState !! "subsection")) in
  let out := handleAddDataPoint formState section in
  (is_Some (out_update out) ↔
     subsectionId ≠ "" ∧
     ∃ key text, formState !! key = Some text ∧ key ≠ "subsection" ∧
                 text ≠ "" ∧ isNaN (parseFloat text) = false) ∧
  (∀ updated, out_update out = Some updated →
     (out_status out).1 = Success ∧
     out_form out =
       <["subsection" :=
           ("Sample " ++ Str.decimal (length (dataPoints updated) + 1))%string]>
         initialFormState) ∧
  (out_update out = None → (out_status out).1 = Error ∧ out_form out = formState).
Proof.
  intros subsectionId out.
  destruct (decide (subsectionId = "")) as [Hid|Hid].
  { destruct (handleAddDataPoint_rejected formState section (or_introl Hid))
      as (Hu & Hs & Hf).
    fold out in Hu, Hs, Hf. rewrite Hu. split; [|done].
    split; [by intros []|]. by intros []. }
  destruct ((readForm subsectionId formState).2) eqn:Hflag.
  - unfold out. rewrite handleAddDataPoint_accepted by done. fold subsectionId.
    cbn [out_update out_status out_form fst]. split; [|split; [|done]].
    + split; [|by eexists]. intros _. split; [done|].
      apply readForm_flag in Hflag as (k & t & Hin & Hk & Ht).
      apply fieldOf_is_Some in Ht as [Ht1 Ht2]. by exists k, t.
    + intros updated [= <-]. done.
  - destruct (handleAddDataPoint_rejected formState section (or_intror Hflag))
      as (Hu & Hs & Hf).
    fold out in Hu, Hs, Hf. rewrite Hu. split; [|done]. split; [by intros []|].
    intros (_ & k & t & Hin & Hk & Ht1 & Ht2).
    assert ((readForm subsectionId formState).2 = true) as Htrue; [|congruence].
    apply readForm_flag. exists k, t. split; [done|]. split; [done|].
    by apply fieldOf_is_Some.
Qed.

Context `{!JSNumberLaws JS}.

Lemma newPoint_DepthTyped (subsectionId : string) (formState : gmap string string) :
  DepthTyped (readForm subsectionId formState).1.
Proof.
  unfold DepthTyped. rewrite readForm_lookup. rewrite decide_False by done.
  destruct (formState !! "depth") as [text|]; simpl; [|done].
  unfold fieldOf. destruct (text =? "")%string; [done|].
  by destruct (isNaN (parseFloat text)).
Qed.

(** X3.  The series an accepted manual submission hands on.  With [newPoint]
    the point read off the form (the trimmed identifier under [subsection],
    each other filled field as the number it parses to): when some point of
    the series has that identifier, the first such point is replaced by its
    shallow merge with [newPoint] and nothing else changes, later points
    with the same identifier included; otherwise [newPoint] is appended.
    The result is that series rearranged, in ascending order of depth (a
    point without depth counting as depth zero) as soon as the depths of
    the series are numbers, and the section keeps its identity. *)
Theorem manual_entry_series_effect (formState : gmap string string)
    (section updated : CoreSection) :
  out_update (handleAddDataPoint formState section) = Some updated →
  let subsectionId := Str.trim (default "" (formState !! "subsection")) in
  let newPoint := (readForm subsectionId formState).1 in
  (∀ k, newPoint !! k =
        if decide (k = "subsection") then Some (VStr subsectionId)
        else formState !! k ≫= fieldOf) ∧
  ((∃ i old,
      dataPoints section !! i = Some old ∧
      get old "subsection" = VStr subsectionId ∧
      (∀ j p, j < i → dataPoints section !! j = Some p →
              get p "subsection" ≠ VStr subsectionId) ∧
      dataPoints updated ≡ₚ <[i := spread2 old newPoint]> (dataPoints section) ∧
      length (dataPoints updated) = length (dataPoints section))
   ∨
   ((∀ p, p ∈ dataPoints section → get p "subsection" ≠ VStr subsectionId) ∧
    dataPoints updated ≡ₚ dataPoints section ++ [newPoint] ∧
    length (dataPoints updated) = S (length (dataPoints section)))) ∧
  (Forall DepthTyped (dataPoints section) →
     ascending (λ p, match p !! "depth" with
                     | Some (VNum n) => if isNaN n then zero else n
                     | _ => zero
                     end) (dataPoints updated)) ∧
  sec_id updated = sec_id section ∧ sec_name updated = sec_name section.
Proof.
  intros Hout subsectionId newPoint.
  destruct (handleAddDataPoint_inv formState section updated Hout) as [Hid Hflag].
  fold subsectionId in Hid, Hflag.
  rewrite handleAddDataPoint_accepted in Hout by done. fold subsectionId newPoint in Hout.
  cbn [out_update] in Hout. injection Hout as <-. cbn [withData dataPoints sec_id sec_name].
  split; [intros k'; apply readForm_lookup|].
  unfold addOrUpdate.
  destruct (JSArray.findIndex (hasSubsection subsectionId) (dataPoints section))
    as [i|] eqn:Hfind; cbn [fst].
  - apply findIndex_Some in Hfind as (old & Hold & Hp & Hbefore).
    rewrite (alter_as_insert _ _ _ old) by done.
    split; [|split; [|done]].
    + left. exists i, old. split; [done|]. split; [by apply hasSubsection_spec|].
      split; [|split].
      * intros j p Hj Hjp Heq. apply hasSubsection_spec in Heq.
        by rewrite (Hbefore j p Hj Hjp) in Heq.
      * apply sort_Permutation.
      * by rewrite sort_length, length_insert.
    + intros Htyped. apply sort_by_depth.
      apply Forall_insert; [done|]. apply DepthTyped_spread2.
      * eapply Forall_lookup_1; [exact Htyped|exact Hold].
      * apply newPoint_DepthTyped.
  - apply findIndex_None in Hfind. split; [|split; [|done]].
    + right. split; [|split].
      * intros p Hp Heq. apply hasSubsection_spec in Heq.
        rewrite Forall_forall in Hfind. by rewrite (Hfind p Hp) in Heq.
      * apply sort_Permutation.
      * rewrite sort_length, length_app. simpl. lia.
    + intros Htyped. apply sort_by_depth.
      apply Forall_app. split; [done|].
      constructor; [|constructor]. apply newPoint_DepthTyped.
Qed.

End EntryAccepted.

(* ===================================================================== *)
(** ** Bulk import: parsed rows, counters and keys *)
(* ===================================================================== *)

Section ParsedRows.
Context `{JS : JSNumber}.
Import DataInputManager.


















End ParsedRows.

Section Counters.
Context `{JS : JSNumber}.
Import DataInputManager.

Lemma size_set {V : Type} (k : value) (v : V) (m : list (value * V)) :
  JSMap.size (JSMap.set k v m) =
    if JSMap.has k m then JSMap.size m else S (JSMap.size m).
Proof.
  unfold JSMap.size, JSMap.has. induction m as [|[k' v'] m IH]; [done|].
  cbn [JSMap.set JSMap.get]. destruct (key_eqb k' k).
  - by rewrite bool_decide_eq_true_2 by by eexists.
  - cbn [length]. rewrite IH. by destruct (bool_decide (is_Some (JSMap.get k m))).
Qed.

Lemma merge_step_counts (now : nat → N) (st : MergeState) (index : nat)
    (r : gmap string value) :
  let st' := merge_step now st index r in
  addedCount st' + updatedCount st' = S (addedCount st + updatedCount st) ∧
  JSMap.size (sectionPointsMap st) ≤ JSMap.size (sectionPointsMap st') ∧
  JSMap.size (sectionPointsMap st') + addedCount st
    ≤ JSMap.size (sectionPointsMap st) + addedCount st' ∧
  updatedCount st ≤ updatedCount st'.
Proof.
  unfold merge_step. destruct (usableKey (get r "subsection")) as [k|];
    cbn [addedCount updatedCount sectionPointsMap]; rewrite size_set.
  - destruct (JSMap.has _ _); lia.
  - destruct (JSMap.has _ _); lia.
Qed.

Lemma merge_from_counts (now : nat → N) (index : nat)
    (rows : list (gmap string value)) (st : MergeState) :
  let st' := merge_from now index rows st in
  addedCount st' + updatedCount st' = length rows + (addedCount st + updatedCount st) ∧
  JSMap.size (sectionPointsMap st) ≤ JSMap.size (sectionPointsMap st') ∧
  JSMap.size (sectionPointsMap st') + addedCount st
    ≤ JSMap.size (sectionPointsMap st) + addedCount st' ∧
  updatedCount st ≤ updatedCount st'.
Proof.
  revert index st. induction rows as [|r rows IH]; intros index st.
  - cbn [merge_from length]. lia.
  - cbn [merge_from length].
    destruct (IH (S index) (merge_step now st index r)) as (H1 & H2 & H3 & H4).
    destruct (merge_step_counts now st index r) as (G1 & G2 & G3 & G4).
    cbv zeta. lia.
Qed.

Lemma size_of_entries {V : Type} (es : list (value * V)) :
  JSMap.size (JSMap.of_entries es) ≤ length es.
Proof.
  unfold JSMap.of_entries.
  assert (∀ m : list (value * V),
            JSMap.size (fold_left (λ m e, JSMap.set e.1 e.2 m) es m)
              ≤ length es + JSMap.size m) as H.
  { induction es as [|e es IH]; intros m; [done|].
    rewrite fold_left_cons. etrans; [apply IH|]. rewrite size_set. cbn [length].
    destruct (JSMap.has e.1 m); lia. }
  specialize (H []). unfold JSMap.size in *. simpl in H. lia.
Qed.

(** X6.  The counters of the bulk import.  Every parsed row is counted once,
    as added or as updated, so the two numbers of the success message sum
    to the number of parsed rows; a row with a usable key counts as updated
    exactly when its key is in the map when the row is visited, and a row
    without one always counts as added.  The merged series is no shorter
    than the number of distinct keys of the section and no longer than that
    number plus the rows counted as added, itself at most the length of the
    series plus the added rows; and the message is built from the two
    counters. *)
Theorem bulk_merge_counts (now : nat → N) (points rows : list (gmap string value)) :
  let st := mergeBatch now points rows in
  addedCount st + updatedCount st = length rows ∧
  JSMap.size (existingMap points) ≤ length (mergedPoints now points rows) ∧
  length (mergedPoints now points rows) ≤ JSMap.size (existingMap points) + addedCount st ∧
  JSMap.size (existingMap points) ≤ length points ∧
  (∀ st0 index r,
     updatedCount (merge_step now st0 index r) =
       if bool_decide (is_Some (usableKey (get r "subsection")))
          && JSMap.has (get r "subsection") (sectionPointsMap st0)
       then S (updatedCount st0) else updatedCount st0) ∧
  (∀ finalMap data section status0,
     parseData finalMap data = rows → dataPoints section = points → rows ≠ [] →
     conf_status (handleConfirmMapping now true (Complete [] data) finalMap section status0)
       = Some (Success,
               (Str.decimal (addedCount st) ++ " new subsections added, "
                ++ Str.decimal (updatedCount st) ++ " updated.")%string)).
Proof.
  intros st.
  destruct (merge_from_counts now 0 rows
              {| sectionPointsMap := existingMap points;
                 updatedCount := 0; addedCount := 0 |}) as (H1 & H2 & H3 & H4).
  cbn [addedCount updatedCount sectionPointsMap] in H1, H2, H3.
  change (merge_from now 0 rows _) with st in H1, H2, H3.
  assert (length (mergedPoints now points rows) = JSMap.size (sectionPointsMap st)) as Hlen.
  { unfold mergedPoints. rewrite sort_length. unfold JSMap.values, JSMap.size.
    by rewrite length_fmap. }
  split; [lia|]. split; [lia|]. split; [lia|]. split; [|split].
  - unfold existingMap. etrans; [apply size_of_entries|]. by rewrite length_fmap.
  - intros st0 index r. unfold merge_step.
    destruct (usableKey (get r "subsection")) as [k|]; cbn [updatedCount]; [|done].
    rewrite bool_decide_eq_true_2 by by eexists. done.
  - intros finalMap data section status0 Hrows Hpts Hne. unfold handleConfirmMapping.
    cbn -[parseData mergeBatch JSArray.sort Averages.calculateAveragesFromDataPoints].
    rewrite Hrows, Hpts. fold st. by destruct rows.
Qed.

End Counters.

Section DistinctKeys.
Context `{JS : JSNumber} `{!JSNumberLaws JS}.
Import DataInputManager.

(** Every entry is stored under (a key equal to) the subsection of its
    point, and no two entries have equal keys. *)
Lemma Forall_set {V : Type} (P : value → Prop) (k : value) (v : V)
    (m : list (value * V)) :
  P k → Forall (λ e, P e.1) m → Forall (λ e, P e.1) (JSMap.set k v m).
Proof.
  intros Hk. induction m as [|[k' v'] m IH]; intros Hm; cbn [JSMap.set].
  - by constructor.
  - apply Forall_cons in Hm as [H1 H2]. destruct (key_eqb k' k); constructor; auto.
Qed.

Lemma set_keys_distinct {V : Type} (k : value) (v : V) (m : list (value * V)) :
  StronglySorted (λ e1 e2 : value * V, key_eqb e1.1 e2.1 = false) m →
  StronglySorted (λ e1 e2 : value * V, key_eqb e1.1 e2.1 = false) (JSMap.set k v m).
Proof.
  induction m as [|[k' v'] m IH]; intros Hm; cbn [JSMap.set].
  - repeat constructor.
  - apply StronglySorted_inv in Hm as [Hm Hhd]. destruct (key_eqb k' k) eqn:E.
    + constructor; [done|]. exact Hhd.
    + constructor; [by apply IH|].
      apply (Forall_set (λ x, key_eqb k' x = false)); done.
Qed.

Lemma set_keys_match (k : value) (v : gmap string value)
    (m : list (value * gmap string value)) :
  key_eqb (get v "subsection") k = true →
  Forall (λ e, key_eqb (get e.2 "subsection") e.1 = true) m →
  Forall (λ e, key_eqb (get e.2 "subsection") e.1 = true) (JSMap.set k v m).
Proof.
  intros Hv. induction m as [|[k' v'] m IH]; intros Hm; cbn [JSMap.set].
  - by repeat constructor.
  - apply Forall_cons in Hm as [H1 H2]. destruct (key_eqb k' k) eqn:E.
    + constructor; [|done]. cbn [fst snd]. rewrite key_eqb_sym in E.
      by apply (key_eqb_trans _ k).
    + constructor; [done|]. by apply IH.
Qed.

Lemma existingMap_keys (points : list (gmap string value)) :
  StronglySorted (λ e1 e2 : value * gmap string value, key_eqb e1.1 e2.1 = false)
                 (existingMap points) ∧
  Forall (λ e, key_eqb (get e.2 "subsection") e.1 = true) (existingMap points).
Proof.
  unfold existingMap. induction points as [|p points IH] using rev_ind.
  - split; constructor.
  - rewrite fmap_app. cbn [fmap list_fmap]. rewrite of_entries_snoc.
    destruct IH as [IH1 IH2]. split.
    + by apply set_keys_distinct.
    + apply set_keys_match; [apply key_eqb_refl|done].
Qed.

Lemma merge_from_keys (now : nat → N) (index : nat)
    (rows : list (gmap string value)) (st : MergeState) :
  StronglySorted (λ e1 e2 : value * gmap string value, key_eqb e1.1 e2.1 = false)
                 (sectionPointsMap st) →
  Forall (λ e, key_eqb (get e.2 "subsection") e.1 = true) (sectionPointsMap st) →
  StronglySorted (λ e1 e2 : value * gmap string value, key_eqb e1.1 e2.1 = false)
                 (sectionPointsMap (merge_from now index rows st)) ∧
  Forall (λ e, key_eqb (get e.2 "subsection") e.1 = true)
         (sectionPointsMap (merge_from now index rows st)).
Proof.
  revert index st. induction rows as [|r rows IH]; intros index st H1 H2; [done|].
  cbn [merge_from]. apply IH; rewrite merge_step_map.
  - by apply set_keys_distinct.
  - apply set_keys_match; [|done]. rewrite rowValue_subsection. apply key_eqb_refl.
Qed.

Lemma values_distinctKeys (m : list (value * gmap string value)) :
  StronglySorted (λ e1 e2 : value * gmap string value, key_eqb e1.1 e2.1 = false) m →
  Forall (λ e, key_eqb (get e.2 "subsection") e.1 = true) m →
  distinctKeys (JSMap.values m).
Proof.
  unfold distinctKeys, JSMap.values. induction m as [|[k v] m IH]; intros H1 H2.
  - constructor.
  - apply StronglySorted_inv in H1 as [H1 Hhd]. apply Forall_cons in H2 as [Hk H2].
    rewrite fmap_cons. constructor; [by apply IH|].
    apply Forall_fmap. rewrite Forall_forall in Hhd, H2 |- *.
    intros [k' v'] Hin. cbn [fst snd compose] in *.
    specialize (Hhd _ Hin). specialize (H2 _ Hin). cbn [fst snd] in Hhd, H2.
    rewrite (key_eqb_congr _ k) by done.
    rewrite key_eqb_sym. rewrite (key_eqb_congr _ k') by done.
    by rewrite key_eqb_sym.
Qed.

Lemma distinctKeys_Permutation (l l' : list (gmap string value)) :
  l ≡ₚ l' → distinctKeys l → distinctKeys l'.
Proof.
  unfold distinctKeys. induction 1 as [|x l l' Hp IH|x y l|l l' l'' _ IH1 _ IH2].
  - done.
  - intros [H1 H2]%StronglySorted_inv. constructor; [by apply IH|]. by rewrite <- Hp.
  - intros [[H1 H2]%StronglySorted_inv H3]%StronglySorted_inv.
    apply Forall_cons in H3 as [Hyx H3].
    constructor; [constructor; [done|done]|]. constructor; [|done].
    by rewrite key_eqb_sym.
  - auto.
Qed.

(** X7.  After a bulk import no two points of the series carry the same
    subsection key, whatever the series and the file held: points of the
    series that shared a key have been collapsed into the last of them,
    rows that shared a key have been merged, and every point is stored
    under its own subsection. *)
Theorem import_leaves_distinct_keys (now : nat → N)
    (points rows : list (gmap string value)) :
  distinctKeys (mergedPoints now points rows) ∧
  (∀ k p, (k, p) ∈ sectionPointsMap (mergeBatch now points rows) →
          key_eqb (get p "subsection") k = true).
Proof.
  destruct (existingMap_keys points) as [H1 H2].
  destruct (merge_from_keys now 0 rows
              {| sectionPointsMap := existingMap points;
                 updatedCount := 0; addedCount := 0 |} H1 H2) as [G1 G2].
  change (merge_from now 0 rows _) with (mergeBatch now points rows) in G1, G2.
  split.
  - apply (distinctKeys_Permutation (JSMap.values (sectionPointsMap (mergeBatch now points rows)))).
    + symmetry. apply sort_Permutation.
    + by apply values_distinctKeys.
  - intros k p Hin. rewrite Forall_forall in G2. exact (G2 _ Hin).
Qed.

End DistinctKeys.

(* ===================================================================== *)
(** ** Saving a section and reloading it *)
(* ===================================================================== *)

Section KeyedFacts.
Context `{JS : JSNumber}.
Import CoreService DataInputManager.

Lemma Keyed_imap_defaultSubsection (points : list (gmap string value)) :
  Keyed points → imap defaultSubsection points = points.
Proof.
  intros H. apply list_eq. intros i. rewrite list_lookup_imap.
  destruct (points !! i) as [p|] eqn:E; [|done]. simpl. f_equal.
  apply defaultSubsection_spec. unfold Keyed in H. rewrite Forall_lookup in H.
  by apply (H i).
Qed.

Lemma Keyed_loaded (dbSection : SectionRow) :
  Keyed (dataPoints (dbSectionToAppSection dbSection)).
Proof.
  unfold Keyed. apply Forall_lookup. intros i p. cbn [dbSectionToAppSection dataPoints].
  rewrite list_lookup_imap. destruct (default [] (data_points dbSection) !! i); [|done].
  simpl. intros [= <-]. apply defaultSubsection_truthy.
Qed.

Lemma Keyed_Permutation (l l' : list (gmap string value)) :
  l ≡ₚ l' → Keyed l → Keyed l'.
Proof. unfold Keyed. by intros ->. Qed.

Lemma truthy_VStr (s : string) : s ≠ "" → truthy (VStr s) = true.
Proof. intros H. simpl. apply String.eqb_neq in H. by rewrite H. Qed.

Lemma trim_nonempty (s : string) : Str.trim s ≠ "" → s ≠ "".
Proof. by intros H ->. Qed.

Lemma rowKey_nonempty (now : nat → N) (index : nat) (r : gmap string value) :
  rowKey now index r ≠ "".
Proof.
  unfold rowKey. destruct (usableKey (get r "subsection")) as [k|] eqn:E; [|done].
  unfold usableKey in E. destruct (get r "subsection") as [| |b|n|s]; try done.
  destruct (truthy (VStr s) && negb (Str.trim s =? ""))%string eqn:Et; [|done].
  injection E as <-. apply andb_true_iff in Et as [_ Et].
  apply negb_true_iff, String.eqb_neq in Et. by apply trim_nonempty.
Qed.

Lemma merge_from_Keyed (now : nat → N) (index : nat)
    (rows : list (gmap string value)) (st : MergeState) :
  Keyed (JSMap.values (sectionPointsMap st)) →
  Keyed (JSMap.values (sectionPointsMap (merge_from now index rows st))).
Proof.
  revert index st. induction rows as [|r rows IH]; intros index st H; [done|].
  cbn [merge_from]. apply IH. rewrite merge_step_map.
  generalize (rowValue_subsection now index r
                (JSMap.get (VStr (rowKey now index r)) (sectionPointsMap st))).
  generalize (rowValue now index r
                (JSMap.get (VStr (rowKey now index r)) (sectionPointsMap st))).
  intros w Hw. unfold Keyed, JSMap.values in *.
  induction (sectionPointsMap st) as [|[k v] m IHm]; cbn [JSMap.set].
  - repeat constructor. cbn [snd]. rewrite Hw. apply truthy_VStr, rowKey_nonempty.
  - rewrite fmap_cons in H. apply Forall_cons in H as [H1 H2].
    destruct (key_eqb k (VStr (rowKey now index r))); rewrite fmap_cons; constructor; auto.
    cbn [snd]. rewrite Hw. apply truthy_VStr, rowKey_nonempty.
Qed.

Lemma existingMap_Keyed (points : list (gmap string value)) :
  Keyed points → Keyed (JSMap.values (existingMap points)).
Proof.
  intros H. unfold existingMap, JSMap.of_entries.
  assert (∀ m : list (value * gmap string value),
            Keyed (JSMap.values m) →
            Keyed (JSMap.values
                     (fold_left (λ m e, JSMap.set e.1 e.2 m)
                                ((λ p, (get p "subsection", p)) <$> points) m))) as G.
  { induction H as [|p points Hp _ IH]; intros m Hm; [done|].
    rewrite fmap_cons, fold_left_cons. apply IH. cbn [fst snd].
    unfold Keyed, JSMap.values in *.
    induction m as [|[k v] m IHm]; cbn [JSMap.set].
    - by repeat constructor.
    - rewrite fmap_cons in Hm. apply Forall_cons in Hm as [H1 H2].
      destruct (key_eqb k (get p "subsection")); rewrite fmap_cons; constructor; auto. }
  apply G. constructor.
Qed.

(** The series both handlers hand on, and what they say of it. *)
Lemma manual_update_shape (formState : gmap string string)
    (section updated : CoreSection) :
  out_update (handleAddDataPoint formState section) = Some updated →
  updated = withData section (dataPoints updated)
              (Averages.calculateAveragesFromDataPoints (dataPoints updated)) ∧
  (Keyed (dataPoints section) → Keyed (dataPoints updated)).
Proof.
  intros Hout.
  destruct (handleAddDataPoint_inv formState section updated Hout) as [Hid Hflag].
  rewrite handleAddDataPoint_accepted in Hout by done. cbn [out_update] in Hout.
  injection Hout as <-. split; [done|]. cbn [withData dataPoints]. intros HK.
  set (subsectionId := Str.trim (default "" (formState !! "subsection"))) in *.
  assert (truthy (get (readForm subsectionId formState).1 "subsection") = true) as Hnew.
  { unfold get. rewrite readForm_lookup, decide_True by done. by apply truthy_VStr. }
  unfold addOrUpdate.
  destruct (JSArray.findIndex (hasSubsection subsectionId) (dataPoints section))
    as [i|] eqn:Hfind; cbn [fst];
    (eapply Keyed_Permutation; [symmetry; apply sort_Permutation|]).
  - apply findIndex_Some in Hfind as (old & Hold & _).
    rewrite (alter_as_insert _ _ _ old) by done. apply Forall_insert; [done|].
    rewrite get_spread2. unfold get in Hnew.
    by destruct ((readForm subsectionId formState).1 !! "subsection").
  - apply Forall_app. split; [done|]. by repeat constructor.
Qed.

Lemma import_update_shape (now : nat → N) (file : bool) (parsed : ParseOutcome)
    (finalMap : gmap string (option string)) (section updated : CoreSection)
    (st : ImportState) :
  CallOnUpdateSection updated ∈
    conf_calls (handleConfirmMapping now file parsed finalMap section st) →
  updated = withData section (dataPoints updated)
              (Averages.calculateAveragesFromDataPoints (dataPoints updated)) ∧
  (Keyed (dataPoints section) → Keyed (dataPoints updated)).
Proof.
  unfold handleConfirmMapping.
  destruct file; cbn [negb conf_calls]; [|by intros ?%elem_of_nil].
  destruct parsed as [message|[|e errors] data]; cbn [conf_calls];
    try by intros ?%elem_of_nil.
  destruct (length (parseData finalMap data) =? 0); cbn [conf_calls];
    [by intros ?%elem_of_nil|].
  intros [= ->]%list_elem_of_singleton. split; [done|]. cbn [withData dataPoints].
  intros HK. eapply Keyed_Permutation; [symmetry; apply sort_Permutation|].
  apply merge_from_Keyed. cbn [sectionPointsMap]. by apply existingMap_Keyed.
Qed.

Lemma updatePoint_subsection (ageMap : list (value * value)) (dp : gmap string value) :
  get (updatePoint ageMap dp) "subsection" = get dp "subsection".
Proof.
  rewrite updatePoint_spec. destruct (isUndefined (get dp "depth")); [done|].
  destruct (JSMap.get (get dp "depth") ageMap); by rewrite get_insert.
Qed.

Lemma mergeSection_Keyed (calibrated : list AiSection) (section : CoreSection) :
  Keyed (dataPoints section) → Keyed (dataPoints (mergeSection calibrated section)).
Proof.
  intros H. unfold mergeSection.
  destruct (JSArray.find _ calibrated) as [[id name [pts|]]|]; try done.
  destruct (JSMap.size (ageMapOf pts) =? 0); [done|]. cbn [dataPoints].
  unfold Keyed. apply Forall_fmap. eapply Forall_impl; [exact H|].
  intros dp Hdp. cbn [compose]. by rewrite updatePoint_subsection.
Qed.

(** X8.  Every point the application holds has a subsection.  The loader
    establishes this for every section it returns, whatever the rows hold;
    the manual entry, the bulk import and the age-model merge preserve it
    for the section they hand on. *)
Theorem every_point_keeps_a_subsection :
  (∀ reply sections0 section,
     CoreService.reply_error reply = None →
     section ∈ (CoreDashboard.fetchSections reply sections0).1 →
     Keyed (dataPoints section)) ∧
  (∀ formState section updated,
     Keyed (dataPoints section) →
     out_update (handleAddDataPoint formState section) = Some updated →
     Keyed (dataPoints updated)) ∧
  (∀ now file parsed finalMap section st updated,
     Keyed (dataPoints section) →
     CallOnUpdateSection updated ∈
       conf_calls (handleConfirmMapping now file parsed finalMap section st) →
     Keyed (dataPoints updated)) ∧
  (∀ ai sections tiePoints result section,
     (∀ s, s ∈ sections → Keyed (dataPoints s)) →
     generateAgeModel ai sections tiePoints = Return result →
     section ∈ result → Keyed (dataPoints section)).
Proof.
  split; [|split; [|split]].
  - intros reply sections0 section Herr. unfold CoreDashboard.fetchSections, fetchSectionsForCore.
    rewrite Herr. destruct (reply_data reply) as [rows|]; cbn [fst];
      [|by intros ?%elem_of_nil].
    intros (s & -> & (row & -> & _)%list_elem_of_fmap)%list_elem_of_fmap.
    destruct (withAverages_spec (dbSectionToAppSection row)) as [-> _].
    apply Keyed_loaded.
  - intros formState section updated HK Hout.
    by apply (manual_update_shape formState section updated).
  - intros now file parsed finalMap section st updated HK Hin.
    by apply (import_update_shape now file parsed finalMap section updated st).
  - intros ai sections tiePoints result section HK. unfold generateAgeModel.
    destruct ai as [request|]; [|done]. unfold calibrate.
    destruct (request sections tiePoints) as [m| |[|cs l]]; try done.
    destruct (hasAnyAgeData (cs :: l)); [|done]. intros [= <-].
    intros (s & -> & Hs)%list_elem_of_fmap. apply mergeSection_Keyed. by apply HK.
Qed.

End KeyedFacts.

Section StoreSync.
Context `{JS : JSNumber}.
Import CoreService SectionStore CoreDashboard DataInputManager.

Lemma jsonObject_lookup (o : gmap string value) (k : string) :
  jsonObject o !! k =
    match o !! k with
    | None | Some VUndefined => None
    | Some (VNum n) =>
        Some (if isFinite n then VNum (if eqb n zero then zero else n) else VNull)
    | Some v => Some v
    end.
Proof.
  unfold jsonObject. rewrite lookup_omap.
  by destruct (o !! k) as [[| |b|n|t]|].
Qed.

Lemma jsonObject_fixed (o : gmap string value) :
  jsonObject o = o ↔
    ∀ k v, o !! k = Some v →
      v ≠ VUndefined ∧
      ∀ n, v = VNum n → isFinite n = true ∧ (eqb n zero = true → n = zero).
Proof.
  split.
  - intros Heq k v Hk. pose proof (jsonObject_lookup o k) as H.
    rewrite Heq, Hk in H. split.
    + intros ->. done.
    + intros n ->. destruct (isFinite n); [|done]. split; [done|].
      intros Hz. rewrite Hz in H. congruence.
  - intros H. apply map_eq. intros k. rewrite jsonObject_lookup.
    destruct (o !! k) as [v|] eqn:Hk; [|done].
    destruct (H k v Hk) as [Hu Hn]. destruct v as [| |b|n|t]; try done.
    destruct (Hn n eq_refl) as [-> Hz].
    destruct (eqb n zero); [|done]. by rewrite Hz.
Qed.

Lemma jsonObject_fixed_list (pts : list (gmap string value)) :
  (∀ p, p ∈ pts → jsonObject p = p) → jsonObject <$> pts = pts.
Proof.
  intros H. rewrite <- (list_fmap_id pts) at 2. apply list_fmap_ext.
  intros i p Hi. apply H. by apply list_elem_of_lookup_2 in Hi.
Qed.

Lemma dbSection_applyPayload (s : CoreSection) (row : SectionRow) :
  dbSectionToAppSection (applyPayload (jsonPayload (appSectionToDbPayload s)) row) =
    {| sec_id := row_id row; sec_name := sec_name s;
       dataPoints := imap defaultSubsection (jsonObject <$> dataPoints s);
       labAnalysis := jsonObject <$> labAnalysis s |}.
Proof. done. Qed.

Lemma withAverages_fixed (s : CoreSection) :
  labAnalysis s = Some (Averages.calculateAveragesFromDataPoints (dataPoints s)) →
  withAverages s = s.
Proof.
  intros H. unfold withAverages. destruct s as [id name pts lab]. cbn in *.
  destruct (length pts =? 0); [done|]. cbn [negb]. by rewrite H.
Qed.

Lemma updateSection_accepted (table : list SectionRow) (s : CoreSection) :
  updateSection None table s =
    (if existsb (λ row, String.eqb (row_id row) (sec_id s)) table
     then Return {| sec_id := sec_id s; sec_name := sec_name s;
                    dataPoints := imap defaultSubsection (jsonObject <$> dataPoints s);
                    labAnalysis := jsonObject <$> labAnalysis s |}
     else Throw "Failed to update section.",
     (λ row, if String.eqb (row_id row) (sec_id s)
             then applyPayload (jsonPayload (appSectionToDbPayload s)) row else row)
       <$> table).
Proof.
  unfold updateSection, storeUpdate. f_equal.
  unfold updateSectionReply. cbn [reply_error reply_data].
  induction table as [|row table IH]; [done|]. cbn [existsb].
  destruct (String.eqb_spec (row_id row) (sec_id s)) as [Heq|Hne].
  - rewrite filter_cons_True by by apply String.eqb_eq.
    rewrite fmap_cons, dbSection_applyPayload. cbn [orb].
    by rewrite Heq.
  - rewrite filter_cons_False by (by rewrite String.eqb_eq). by rewrite IH.
Qed.

Lemma existsb_row (table : list SectionRow) (id : string) :
  existsb (λ row, String.eqb (row_id row) id) table = true ↔
    ∃ row, row ∈ table ∧ row_id row = id.
Proof.
  rewrite existsb_exists. split.
  - intros (row & Hin & Hr). exists row. split; [by apply list_elem_of_In|].
    by apply String.eqb_eq.
  - intros (row & Hin & Hr). exists row. split; [by apply list_elem_of_In|].
    by apply String.eqb_eq.
Qed.

(** X9.  Saving a section, as far as its id, name, series and averages go
    (the fields of a section this development follows).  The series and the
    averages reach the store as JSON: in every point and in the averages a
    property holding [undefined] is left out, a number that is not finite
    becomes [null], and either zero becomes zero.  When the store accepts
    the statement and holds a row with the id of the section,
    [updateSection] returns the section with the id and the name it was
    given, the series that JSON leaves, each point under its own subsection
    or, when that does not count as present, under [Subsection i] for its
    position [i], and the averages that JSON leaves.  So the series and the
    averages come back as they were given when every point has a subsection
    and JSON changes neither a point nor the averages.  Every row with that
    id then reads back as the section returned, and the other rows are
    untouched.  When no row has the id, [updateSection] throws and the
    table is what it was, and so when the store rejects the statement. *)
Theorem saved_section_reads_back (table : list SectionRow) (s : CoreSection) :
  let returned :=
    {| sec_id := sec_id s; sec_name := sec_name s;
       dataPoints :=
         imap (λ index dp,
                 <["subsection" :=
                     if truthy (get dp "subsection") then get dp "subsection"
                     else VStr ("Subsection " ++ Str.decimal (index + 1))]> dp)
              (jsonObject <$> dataPoints s);
       labAnalysis := jsonObject <$> labAnalysis s |} in
  (∀ o k, jsonObject o !! k =
          match o !! k with
          | None | Some VUndefined => None
          | Some (VNum n) =>
              Some (if isFinite n then VNum (if eqb n zero then zero else n) else VNull)
          | Some v => Some v
          end) ∧
  ((∃ row, row ∈ table ∧ row_id row = sec_id s) →
     (updateSection None table s).1 = Return returned) ∧
  (Keyed (dataPoints s) →
   (∀ p, p ∈ dataPoints s → jsonObject p = p) →
   (∀ lab, labAnalysis s = Some lab → jsonObject lab = lab) →
   dataPoints returned = dataPoints s ∧ labAnalysis returned = labAnalysis s) ∧
  (∀ i row, table !! i = Some row →
     ∃ row', (updateSection None table s).2 !! i = Some row' ∧
       if String.eqb (row_id row) (sec_id s)
       then dbSectionToAppSection row' = returned
       else row' = row) ∧
  ((∀ row, row ∈ table → row_id row ≠ sec_id s) →
     updateSection None table s = (Throw "Failed to update section.", table)) ∧
  (∀ e, updateSection (Some e) table s = (Throw e, table)).
Proof.
  intros returned.
  assert (returned =
          {| sec_id := sec_id s; sec_name := sec_name s;
             dataPoints := imap defaultSubsection (jsonObject <$> dataPoints s);
             labAnalysis := jsonObject <$> labAnalysis s |}) as Hret by done.
  clearbody returned. subst returned.
  rewrite updateSection_accepted. cbn [fst snd dataPoints labAnalysis].
  split; [apply jsonObject_lookup|]. split; [|split; [|split; [|split]]].
  - intros H. apply existsb_row in H. by rewrite H.
  - intros HK Hpts Hlab. rewrite (jsonObject_fixed_list _ Hpts).
    rewrite Keyed_imap_defaultSubsection by done. split; [done|].
    destruct (labAnalysis s) as [lab|]; [|done]. cbn. by rewrite (Hlab lab).
  - intros i row Hi. rewrite list_lookup_fmap, Hi. simpl. eexists. split; [done|].
    destruct (String.eqb_spec (row_id row) (sec_id s)) as [Heq|Hne]; [|done].
    rewrite dbSection_applyPayload. by rewrite Heq.
  - intros H.
    assert (existsb (λ row, String.eqb (row_id row) (sec_id s)) table = false) as ->.
    { apply not_true_is_false. intros (row & Hin & Hr)%existsb_row. by apply (H row). }
    f_equal. rewrite <- (list_fmap_id table) at 2. apply list_fmap_ext.
    intros i row Hi. destruct (String.eqb_spec (row_id row) (sec_id s)) as [Heq|Hne]; [|done].
    exfalso. apply (H row); [|done]. by apply list_elem_of_lookup_2 in Hi.
  - done.
Qed.

Lemma sync_after_update (table : list SectionRow) (updated : CoreSection)
    (sections0 : list CoreSection) :
  labAnalysis updated =
    Some (Averages.calculateAveragesFromDataPoints (dataPoints updated)) →
  Keyed (dataPoints updated) →
  (∀ p, p ∈ dataPoints updated → jsonObject p = p) →
  jsonObject (Averages.calculateAveragesFromDataPoints (dataPoints updated)) =
    Averages.calculateAveragesFromDataPoints (dataPoints updated) →
  let sections := (fetchSections (storeSelect table) sections0).1 in
  afterHandler (λ s, (updateSection None table s).1) (Some updated) sections =
    (fetchSections (storeSelect (updateSection None table updated).2) sections).1.
Proof.
  intros Hlab HK Hpts Havg sections. unfold afterHandler, handleUpdateSectionData.
  rewrite updateSection_accepted. cbn [fst snd].
  rewrite (jsonObject_fixed_list _ Hpts), Keyed_imap_defaultSubsection by done.
  rewrite Hlab. cbn [fmap option_fmap option_map]. rewrite Havg, <- Hlab.
  unfold sections, fetchSections, fetchSectionsForCore, storeSelect.
  cbn [reply_error reply_data fst].
  destruct (existsb (λ row, String.eqb (row_id row) (sec_id updated)) table) eqn:Hex;
    cbn [fst sec_id].
  - rewrite <- !list_fmap_compose. apply list_fmap_ext. intros i row Hi. cbn [compose].
    destruct (withAverages_spec (dbSectionToAppSection row)) as [_ _].
    assert (sec_id (withAverages (dbSectionToAppSection row)) = row_id row) as ->.
    { unfold withAverages. by destruct (negb _). }
    destruct (String.eqb_spec (row_id row) (sec_id updated)) as [Heq|Hne]; [|done].
    rewrite dbSection_applyPayload.
    rewrite (jsonObject_fixed_list _ Hpts), Keyed_imap_defaultSubsection by done.
    rewrite Hlab at 2. cbn [fmap option_fmap option_map]. rewrite Havg, <- Hlab, Heq.
    rewrite withAverages_fixed; by destruct updated.
  - rewrite <- !list_fmap_compose. apply list_fmap_ext. intros i row Hi. cbn [compose].
    destruct (String.eqb_spec (row_id row) (sec_id updated)) as [Heq|Hne]; [|done].
    exfalso. apply not_true_iff_false in Hex. apply Hex, existsb_row.
    exists row. split; [|done]. by apply list_elem_of_lookup_2 in Hi.
Qed.

(** X10.  After a save the dashboard shows what a reload would show, as far
    as the ids, names, series and averages of its sections go, when the
    save hands on nothing JSON would change.  Let the dashboard hold the
    sections loaded from the rows [table] of the core, and let a manual
    entry or a bulk import on one of these sections hand its result to
    [onUpdateSection] while the store accepts the statement.  If no point of
    the result holds [undefined], a number that is not finite or a negative
    zero under any property, and the averages of the result hold no number
    that is not finite and no negative zero, then the sections the dashboard
    holds afterwards are exactly the sections a fresh load from the store
    would give, the store listing its rows in the order it holds them.
    (Without this the two may differ: an average that
    overflowed is handed on as it is, stored as [null], and computed anew
    on a reload.) *)
Theorem dashboard_matches_store_after_save (table : list SectionRow)
    (sections0 : list CoreSection) :
  let sections := (fetchSections (storeSelect table) sections0).1 in
  let unchanged (o : gmap string value) :=
    ∀ k v, o !! k = Some v →
      v ≠ VUndefined ∧
      ∀ n, v = VNum n → isFinite n = true ∧ (eqb n zero = true → n = zero) in
  (∀ o, unchanged o ↔ jsonObject o = o) ∧
  (∀ formState section updated,
     section ∈ sections →
     out_update (handleAddDataPoint formState section) = Some updated →
     (∀ p, p ∈ dataPoints updated → unchanged p) →
     unchanged (Averages.calculateAveragesFromDataPoints (dataPoints updated)) →
     afterHandler (λ s, (updateSection None table s).1) (Some updated) sections =
       (fetchSections (storeSelect (updateSection None table updated).2) sections).1) ∧
  (∀ now file parsed finalMap section st updated,
     section ∈ sections →
     conf_calls (handleConfirmMapping now file parsed finalMap section st) =
       [CallOnUpdateSection updated] →
     (∀ p, p ∈ dataPoints updated → unchanged p) →
     unchanged (Averages.calculateAveragesFromDataPoints (dataPoints updated)) →
     afterHandler (λ s, (updateSection None table s).1) (Some updated) sections =
       (fetchSections (storeSelect (updateSection None table updated).2) sections).1).
Proof.
  intros sections unchanged.
  assert (∀ o, unchanged o ↔ jsonObject o = o) as Hun.
  { intros o. symmetry. apply jsonObject_fixed. }
  assert (∀ section, section ∈ sections → Keyed (dataPoints section)) as HK.
  { intros section. unfold sections, fetchSections, fetchSectionsForCore, storeSelect.
    cbn [reply_error reply_data fst].
    intros (s & -> & (row & -> & _)%list_elem_of_fmap)%list_elem_of_fmap.
    destruct (withAverages_spec (dbSectionToAppSection row)) as [-> _].
    apply Keyed_loaded. }
  split; [exact Hun|]. split.
  - intros formState section updated Hin Hout Hpts Havg.
    destruct (manual_update_shape formState section updated Hout) as [Hshape Hkeyed].
    apply sync_after_update; [by rewrite Hshape|by apply Hkeyed, HK| |by apply Hun].
    intros p Hp. by apply Hun, Hpts.
  - intros now file parsed finalMap section st updated Hin Hcalls Hpts Havg.
    destruct (import_update_shape now file parsed finalMap section updated st)
      as [Hshape Hkeyed].
    { rewrite Hcalls. by apply list_elem_of_singleton. }
    apply sync_after_update; [by rewrite Hshape|by apply Hkeyed, HK| |by apply Hun].
    intros p Hp. by apply Hun, Hpts.
Qed.

End StoreSync.

(* ===================================================================== *)
(** ** Header classification, age model and event detection: outcomes *)
(* ===================================================================== *)

Section HeaderOutcomes.
Context `{JS : JSNumber}.
Import CoreService DataInputManager.

Lemma mapCsvHeaders_returns (JSON_parse : string → option json)
    (generateContent : list string → GenerateContent) (headers : list string) :
  ∃ mapping, mapCsvHeaders JSON_parse (Some generateContent) headers = Return mapping.
Proof.
  unfold mapCsvHeaders, readMapping.
  destruct (generateContent headers) as [m|[text|]]; try by eexists.
  destruct (JSON_parse text) as [[]|]; by eexists.
Qed.

(** X12.  [mapCsvHeaders] with a client never throws: whatever the service does,
    it returns.  It returns the [mapping] property of the answer when the
    answer is a JSON object (nothing, [undefined], when the object has no
    such property), [undefined] when the answer is JSON of another kind
    other than [null], and the all-null mapping when the answer is the
    JSON [null], as when the call fails.  Without a client it throws. *)
Theorem mapCsvHeaders_outcomes (JSON_parse : string → option json)
    (generateContent : list string → GenerateContent) (headers : list string) :
  (∃ mapping, mapCsvHeaders JSON_parse (Some generateContent) headers = Return mapping) ∧
  (∀ text o, generateContent headers = Resolved (Some text) →
     JSON_parse text = Some (JObj o) →
     mapCsvHeaders JSON_parse (Some generateContent) headers = Return (o !! "mapping")) ∧
  (∀ text j, generateContent headers = Resolved (Some text) →
     JSON_parse text = Some j → j ≠ JNull → (∀ o, j ≠ JObj o) →
     mapCsvHeaders JSON_parse (Some generateContent) headers = Return None) ∧
  (∀ text, generateContent headers = Resolved (Some text) →
     JSON_parse text = Some JNull →
     mapCsvHeaders JSON_parse (Some generateContent) headers =
       Return (Some (JObj (nullMapping headers)))) ∧
  mapCsvHeaders JSON_parse None headers = Throw "API key is not configured.".
Proof.
  split; [apply mapCsvHeaders_returns|].
  unfold mapCsvHeaders, readMapping. split; [|split; [|split]].
  - by intros text o -> ->.
  - intros text j -> -> Hnull Hobj. destruct j; try done. by destruct (Hobj o).
  - by intros text -> ->.
  - done.
Qed.

(** X13.  Choosing a file never gets as far as the classification of its
    headers.  [triggerHeaderMapping] parses the file without asking for a
    header row, so the parser names no fields, whatever the file holds, and
    the callback finds no headers: it reports that the headers of the file
    could not be read, ends the processing state and returns.  The
    classification is not called, the headers, the mapping and the flag of
    the mapping dialog are what they were, and so the dialog does not open.
    (Had the parser been asked for a header row, it would have named the
    fields after the first row of the file.)  With no file chosen nothing
    happens. *)
Theorem choosing_a_file_stops_at_the_headers (JSON_parse : string → option json)
    (ai : option (list string → GenerateContent))
    (format : Format) (st : ImportState) :
  (∀ rows, FileChoice.metaFields FileChoice.headerConfig rows = None) ∧
  (∀ preview row rows,
     FileChoice.metaFields {| FileChoice.header := true; FileChoice.preview := preview |}
                           (row :: rows) = Some row) ∧
  (∀ file files,
     FileChoice.handleFileChange JSON_parse ai (file :: files) format st =
       ({| status := Some (Error, ("Could not read headers from " ++ upper format ++ ".")%string);
           isProcessing := false;
           csvHeaders := csvHeaders st;
           headerMap := headerMap st;
           isMappingHeaders := isMappingHeaders st |}, [])) ∧
  FileChoice.handleFileChange JSON_parse ai [] format st = (st, []).
Proof. done. Qed.

End HeaderOutcomes.

Section AgeModelStructure.
Context `{JS : JSNumber}.
Import CoreService.

Lemma updatePoint_frame (ageMap : list (value * value)) (dp : gmap string value) :
  (∀ f, f ≠ "age" → get (updatePoint ageMap dp) f = get dp f) ∧
  (get dp "depth" = VUndefined → updatePoint ageMap dp = dp) ∧
  (get dp "depth" ≠ VUndefined → is_Some (updatePoint ageMap dp !! "age")).
Proof.
  rewrite updatePoint_spec. split; [|split].
  - intros f Hf. destruct (isUndefined (get dp "depth")); [done|].
    destruct (JSMap.get (get dp "depth") ageMap); rewrite get_insert;
      by rewrite decide_False by done.
  - by intros ->.
  - intros H. destruct (get dp "depth") eqn:E; try done;
      cbn [isUndefined]; destruct (JSMap.get _ ageMap); by rewrite lookup_insert_eq.
Qed.

Lemma updatePoint_idem (ageMap : list (value * value)) (dp : gmap string value) :
  updatePoint ageMap (updatePoint ageMap dp) = updatePoint ageMap dp.
Proof.
  rewrite (updatePoint_spec ageMap dp).
  destruct (isUndefined (get dp "depth")) eqn:E.
  - rewrite updatePoint_spec. by rewrite E.
  - destruct (JSMap.get (get dp "depth") ageMap) as [a|] eqn:Ea.
    + rewrite updatePoint_spec, get_insert, decide_False by done.
      rewrite E, Ea. apply insert_insert_eq.
    + rewrite updatePoint_spec, get_insert, decide_False by done.
      rewrite E, Ea. rewrite get_insert, decide_True by done. apply insert_insert_eq.
Qed.

Lemma mergeSection_cases (calibrated : list AiSection) (section : CoreSection) :
  mergeSection calibrated section = section ∨
  ∃ ageMap, mergeSection calibrated section =
              {| sec_id := sec_id section; sec_name := sec_name section;
                 dataPoints := updatePoint ageMap <$> dataPoints section;
                 labAnalysis := labAnalysis section |}.
Proof.
  unfold mergeSection.
  destruct (JSArray.find _ calibrated) as [[id name [pts|]]|]; try by left.
  destruct (JSMap.size (ageMapOf pts) =? 0); [by left|]. right. by eexists.
Qed.

Lemma mergeSection_idem (calibrated : list AiSection) (section : CoreSection) :
  mergeSection calibrated (mergeSection calibrated section) =
    mergeSection calibrated section.
Proof.
  unfold mergeSection at 2.
  destruct (JSArray.find _ calibrated) as [[id name [pts|]]|] eqn:Ef;
    try (unfold mergeSection; by rewrite Ef).
  destruct (JSMap.size (ageMapOf pts) =? 0) eqn:Es;
    [unfold mergeSection; by rewrite Ef, Es|].
  unfold mergeSection. cbn [sec_id]. rewrite Ef, Es. cbn [sec_id sec_name dataPoints labAnalysis].
  f_equal. rewrite <- list_fmap_compose. apply list_fmap_ext. intros i dp _.
  apply updatePoint_idem.
Qed.

Lemma generateAgeModel_Return
    (ai : option (list CoreSection → list TiePoint → AgeModelReply))
    (sections : list CoreSection) (tiePoints : list TiePoint)
    (result : list CoreSection) :
  generateAgeModel ai sections tiePoints = Return result →
  ∃ request calibrated,
    ai = Some request ∧ request sections tiePoints = ReplySections calibrated ∧
    calibrated ≠ [] ∧ hasAnyAgeData calibrated = true ∧
    result = mergeSection calibrated <$> sections.
Proof.
  unfold generateAgeModel. destruct ai as [request|]; [|done]. unfold calibrate.
  destruct (request sections tiePoints) as [m| |[|cs l]] eqn:E; try done.
  destruct (hasAnyAgeData (cs :: l)) eqn:Ea; [|done]. intros [= <-].
  by exists request, (cs :: l).
Qed.

(** X14.  A generated age model keeps the shape of what it was given.  The
    result has the sections of the input, in the same order, each with its
    identifier, its name, its summary and as many points as before; a point
    differs from the original point at the same position in its [age]
    at most; a point without depth is the original point; and in a section
    that takes ages from the reply every point with a depth ends up with an
    [age] property, be it undefined. *)
Theorem age_model_keeps_structure
    (ai : option (list CoreSection → list TiePoint → AgeModelReply))
    (sections : list CoreSection) (tiePoints : list TiePoint)
    (result : list CoreSection) :
  generateAgeModel ai sections tiePoints = Return result →
  length result = length sections ∧
  ∀ i section, sections !! i = Some section →
    ∃ section', result !! i = Some section' ∧
      sec_id section' = sec_id section ∧ sec_name section' = sec_name section ∧
      labAnalysis section' = labAnalysis section ∧
      length (dataPoints section') = length (dataPoints section) ∧
      (∀ j dp, dataPoints section !! j = Some dp →
         ∃ dp', dataPoints section' !! j = Some dp' ∧
           (∀ f, f ≠ "age" → get dp' f = get dp f) ∧
           (get dp "depth" = VUndefined → dp' = dp)) ∧
      (section' = section ∨
       ∀ dp', dp' ∈ dataPoints section' → get dp' "depth" ≠ VUndefined →
              is_Some (dp' !! "age")).
Proof.
  intros (request & calibrated & _ & _ & _ & _ & ->)%generateAgeModel_Return.
  split; [by rewrite length_fmap|]. intros i section Hi.
  exists (mergeSection calibrated section). rewrite list_lookup_fmap, Hi.
  split; [done|].
  destruct (mergeSection_cases calibrated section) as [->|[ageMap ->]].
  - repeat (split; [done|]). split; [|by left]. intros j dp Hj. by exists dp.
  - cbn [sec_id sec_name labAnalysis dataPoints]. repeat (split; [done|]).
    split; [by rewrite length_fmap|]. split.
    + intros j dp Hj. exists (updatePoint ageMap dp). rewrite list_lookup_fmap, Hj.
      split; [done|]. destruct (updatePoint_frame ageMap dp) as (H1 & H2 & _). done.
    + right. intros dp' (dp & -> & Hdp)%list_elem_of_fmap Hdepth.
      destruct (updatePoint_frame ageMap dp) as (H1 & _ & H3). apply H3.
      by rewrite <- (H1 "depth").
Qed.

(** X15.  Applying a reply a second time changes nothing: if the service gives
    for the calibrated sections the answer it gave for the original ones,
    the age model generated from the calibrated sections is these sections
    again. *)
Theorem age_model_is_idempotent
    (request : list CoreSection → list TiePoint → AgeModelReply)
    (sections : list CoreSection) (tiePoints : list TiePoint)
    (result : list CoreSection) :
  generateAgeModel (Some request) sections tiePoints = Return result →
  request result tiePoints = request sections tiePoints →
  generateAgeModel (Some request) result tiePoints = Return result.
Proof.
  intros Hgen Hsame.
  destruct (generateAgeModel_Return _ _ _ _ Hgen)
    as (request' & calibrated & [= <-] & Hreply & Hne & Hany & ->).
  unfold generateAgeModel, calibrate. rewrite Hsame, Hreply.
  destruct calibrated as [|cs l]; [done|]. rewrite Hany. f_equal.
  rewrite <- list_fmap_compose. apply list_fmap_ext. intros i section _.
  apply mergeSection_idem.
Qed.

(** X16.  How generating an age model can end.  Without a client it throws that
    the key is not configured; every error raised with a client carries the
    prefix of the age model, an empty or missing array of sections giving
    the message that the response was empty or invalid.  The handler of the
    synthesis view does not consult the service with fewer than two
    tie-points; it either reports an error and keeps the calibrated
    sections it had, or reports success and replaces them by the result. *)
Theorem age_model_failures
    (sections : list CoreSection) (tiePoints : list TiePoint) :
  generateAgeModel None sections tiePoints = Throw "API key is not configured." ∧
  (∀ request m,
     generateAgeModel (Some request) sections tiePoints = Throw m →
     ∃ m', m = ("AI Age Model Error: " ++ m')%string) ∧
  (∀ request,
     request sections tiePoints = ReplyNotArray ∨
     request sections tiePoints = ReplySections [] →
     generateAgeModel (Some request) sections tiePoints =
       Throw "AI Age Model Error: The AI response for the age model was empty or invalid.") ∧
  (∀ ai current,
     length tiePoints < 2 →
     CoreSynthesisView.handleGenerateAgeModel ai sections tiePoints current =
       (current, (Error, "At least two tie-points are required to generate an age model."))) ∧
  (∀ ai current,
     let out := CoreSynthesisView.handleGenerateAgeModel ai sections tiePoints current in
     (out.2.1 = Error ∧ out.1 = current) ∨
     (out.2.1 = Success ∧ 2 ≤ length tiePoints ∧
      ∃ result, out.1 = Some result ∧
                generateAgeModel ai sections tiePoints = Return result)).
Proof.
  split; [done|]. split; [|split; [|split]].
  - intros request m. unfold generateAgeModel.
    destruct (calibrate sections (request sections tiePoints)) as [m'|r]; [|done].
    intros [= <-]. by exists m'.
  - intros request [H|H]; unfold generateAgeModel, calibrate; by rewrite H.
  - intros ai current H. unfold CoreSynthesisView.handleGenerateAgeModel.
    apply Nat.ltb_lt in H. by rewrite H.
  - intros ai current out. unfold out, CoreSynthesisView.handleGenerateAgeModel.
    destruct (Nat.ltb_spec (length tiePoints) 2) as [Hlt|Hge]; [by left|].
    destruct (generateAgeModel ai sections tiePoints) as [m|result]; [by left|].
    right. split; [done|]. split; [done|]. by exists result.
Qed.

End AgeModelStructure.

Section SpliceStart.
Context `{JS : JSNumber}.
Import CoreSynthesisView.

Lemma initialSpliceIntervals_lookup (sections : list CoreSection) (id : string) :
  initialSpliceIntervals sections !! id =
    if bool_decide (id ∈ sec_id <$> sections)
    then Some {| sectionId := id; startAge := None; endAge := None |}
    else None.
Proof.
  unfold initialSpliceIntervals.
  induction sections as [|s sections IH] using rev_ind; [done|].
  rewrite fold_left_app. cbn [fold_left]. rewrite fmap_app. cbn [fmap list_fmap].
  destruct (decide (sec_id s = id)) as [<-|Hne].
  - rewrite lookup_insert_eq. rewrite bool_decide_eq_true_2; [done|].
    apply elem_of_app. right. by apply list_elem_of_singleton.
  - rewrite lookup_insert_ne by done. rewrite IH.
    rewrite (bool_decide_ext (id ∈ sec_id <$> sections) (id ∈ (sec_id <$> sections) ++ [sec_id s]));
      [done|].
    rewrite elem_of_app, list_elem_of_singleton. split; [by left|].
    intros [H|H]; [done|]. by subst.
Qed.

(** X18.  Before any bound is entered the splice is empty.  The intervals the
    view starts from hold one entry for each section and nothing else, each
    with its own identifier and both bounds null; with them no section
    contributes a point, whatever the calibrated sections are. *)
Theorem initial_intervals_select_nothing (sections : list CoreSection) :
  (∀ id, is_Some (initialSpliceIntervals sections !! id) ↔
         ∃ section, section ∈ sections ∧ sec_id section = id) ∧
  (∀ id interval, initialSpliceIntervals sections !! id = Some interval →
     sectionId interval = id ∧ startAge interval = None ∧ endAge interval = None) ∧
  (∀ calibratedSections,
     compositeSplice calibratedSections (initialSpliceIntervals sections) = []).
Proof.
  split; [|split].
  - intros id. rewrite initialSpliceIntervals_lookup. case_bool_decide as H.
    + split; [|by eexists]. intros _.
      apply list_elem_of_fmap in H as (s & -> & Hs). by exists s.
    + split; [by intros []|]. intros (s & Hs & <-). exfalso. apply H.
      by apply list_elem_of_fmap_2.
  - intros id interval. rewrite initialSpliceIntervals_lookup.
    case_bool_decide; [|done]. by intros [= <-].
  - intros [calibrated|]; [|done]. unfold compositeSplice. rewrite fold_pointsOf.
    assert (pointsOf (initialSpliceIntervals sections) <$> calibrated =
            (λ _, []) <$> calibrated) as ->.
    { apply list_fmap_ext. intros i s _. unfold pointsOf.
      rewrite initialSpliceIntervals_lookup. by case_bool_decide. }
    assert (concat ((λ _ : CoreSection, @nil (gmap string value)) <$> calibrated) = [])
      as ->; [|done].
    by induction calibrated.
Qed.

End SpliceStart.

Section EventFacts.
Context `{JS : JSNumber}.
Import PaleoEvents.

(** X19.  Event detection.  Without a client it throws, even for a series it
    would not analyse.  With a client and fewer than five points whose age
    is neither missing nor null it returns no event and the answer of the
    service plays no part.  With five or more it returns one event for each
    event of the reply, in order, with the name and the description of the
    reply, its bounds being the smaller and the larger of the two returned
    ages, so that a reply with the two ages of an event exchanged gives the
    same result; and an error met on the way is raised with the prefix of
    the event detection. *)
Theorem event_detection_outcomes `{!JSNumberLaws JS}
    (request : list (gmap string value) → EventsReply)
    (dataPoints : list (gmap string value)) :
  let pointsWithAge := filter (λ dp, hasAge dp = true) dataPoints in
  detectPaleoEvents None dataPoints = Throw "API key is not configured." ∧
  (length pointsWithAge < 5 → detectPaleoEvents (Some request) dataPoints = Return []) ∧
  (5 ≤ length pointsWithAge →
     (∀ l, request pointsWithAge = Events l →
        ∃ result, detectPaleoEvents (Some request) dataPoints = Return result ∧
          length result = length l ∧
          ∀ i event, l !! i = Some event →
            ∃ event', result !! i = Some event' ∧
              eventName event' = eventName event ∧
              description event' = description event ∧
              startAge event' = min (startAge event) (endAge event) ∧
              endAge event' = max (startAge event) (endAge event) ∧
              event' = ordered {| eventName := eventName event;
                                  startAge := endAge event;
                                  endAge := startAge event;
                                  description := description event |}) ∧
     (∀ m, request pointsWithAge = EventsThrow m →
        detectPaleoEvents (Some request) dataPoints =
          Throw ("AI Event Detection Error: " ++ m)%string)).
Proof.
  intros pointsWithAge. split; [done|]. unfold detectPaleoEvents. fold pointsWithAge.
  split.
  - intros H. apply Nat.ltb_lt in H. by rewrite H.
  - intros H. apply Nat.ltb_ge in H. rewrite H. split.
    + intros l ->. eexists. split; [done|]. split; [by rewrite length_fmap|].
      intros i event Hi. exists (ordered event). rewrite list_lookup_fmap, Hi.
      repeat (split; [done|]). unfold ordered. cbn [eventName startAge endAge description].
      by rewrite min_comm, max_comm.
    + by intros m ->.
Qed.

End EventFacts.

(* ===================================================================== *)
(** ** Cores and folders: the store and the application *)
(* ===================================================================== *)

Section CoreStoreFacts.
Context `{JS : JSNumber}.
Import CoreStore.

Lemma filter_fmap_bool {A B : Type} (f : A → B) (p : A → bool) (q : B → bool)
    (b : bool) (l : list A) :
  (∀ x, q (f x) = p x) →
  filter (λ y, q y = b) (f <$> l) = f <$> filter (λ x, p x = b) l.
Proof.
  intros H. induction l as [|x l IH]; [done|]. rewrite fmap_cons.
  destruct (decide (p x = b)) as [Hp|Hp].
  - rewrite !filter_cons_True by (by rewrite ?H). by rewrite fmap_cons, IH.
  - rewrite !filter_cons_False by (by rewrite ?H). done.
Qed.

Lemma filter_filter_bool {A : Type} (p q : A → bool) (b c : bool) (l : list A) :
  filter (λ x, p x = b) (filter (λ x, q x = c) l) =
    filter (λ x, q x = c) (filter (λ x, p x = b) l).
Proof.
  induction l as [|x l IH]; [done|].
  destruct (decide (q x = c)) as [Hq|Hq]; destruct (decide (p x = b)) as [Hp|Hp];
    repeat first [rewrite filter_cons_True by done | rewrite filter_cons_False by done];
    by rewrite ?IH.
Qed.

Lemma filter_none {A : Type} (p : A → bool) (l : list A) :
  filter (λ x, p x = true) l = [] ↔ ∀ x, x ∈ l → p x = false.
Proof.
  induction l as [|x l IH].
  - split; [|done]. intros _ x H. by apply elem_of_nil in H.
  - destruct (p x) eqn:E.
    + rewrite filter_cons_True by done. split; [done|]. intros H.
      specialize (H x). rewrite E in H. discriminate H. apply elem_of_cons. by left.
    + rewrite filter_cons_False by (by rewrite E). rewrite IH. split.
      * intros H y [->|Hy]%elem_of_cons; auto.
      * intros H y Hy. apply H. apply elem_of_cons. by right.
Qed.

Lemma fmap_if_id {A : Type} (p : A → bool) (f : A → A) (l : list A) :
  (∀ x, x ∈ l → p x = false) → (λ x, if p x then f x else x) <$> l = l.
Proof.
  intros H. rewrite <- (list_fmap_id l) at 2. apply list_fmap_ext. intros i x Hi.
  rewrite (H x); [done|]. by apply list_elem_of_lookup_2 in Hi.
Qed.

(** With unique keys, the first row a filter on the key selects is the only
    one, and rewriting the selected rows rewrites that row. *)
Lemma unique_key_first {A : Type} (key : A → string) (k : string) (l : list A)
    (x : A) (rest : list A) :
  NoDup (key <$> l) →
  filter (λ y, String.eqb (key y) k = true) l = x :: rest →
  ∀ y, y ∈ l → key y = k → y = x.
Proof.
  induction l as [|z l IH]; [done|]. rewrite fmap_cons. intros [Hz Hnd]%NoDup_cons.
  destruct (String.eqb_spec (key z) k) as [Hk|Hk].
  - rewrite filter_cons_True by by apply String.eqb_eq. intros [= -> <-] y Hy Hyk.
    apply elem_of_cons in Hy as [->|Hy]; [done|]. exfalso. apply Hz.
    rewrite Hk, <- Hyk. by apply list_elem_of_fmap_2.
  - rewrite filter_cons_False by (by rewrite String.eqb_eq). intros Hf y Hy Hyk.
    apply elem_of_cons in Hy as [->|Hy]; [done|]. by apply IH.
Qed.

Lemma inFolder_spec (folderId : string) (folder : option string) :
  inFolder folderId folder = true ↔ folder = Some folderId.
Proof.
  destruct folder as [f|]; simpl; [|done]. rewrite String.eqb_eq.
  split; [by intros ->|by intros [= ->]].
Qed.

(** X20.  Deleting a folder.  The cores of the folder are unfiled first and the
    folder is deleted second, so that the folder is referred to by no core
    when the statement that deletes it is issued.  When both statements go
    through, the folder is gone, every other folder is still there, no core
    refers to the deleted folder, every core is still there with its
    identifier, owner, name and project, the cores of other folders keep
    their folder, and no section is touched.  When the first statement is
    rejected nothing has changed; when the second is, the cores are
    already unfiled although the folder remains. *)
Theorem delete_folder_unfiles_its_cores (folderId : string) (store : Store) :
  (∀ rejects2,
     let store' := (deleteFolder None rejects2 folderId store).2 in
     (∀ row, row ∈ cores store' → core_folder_id row ≠ Some folderId) ∧
     length (cores store') = length (cores store) ∧
     (∀ i row, cores store !! i = Some row →
        ∃ row', cores store' !! i = Some row' ∧
          core_id row' = core_id row ∧ core_user_id row' = core_user_id row ∧
          core_name row' = core_name row ∧ core_project row' = core_project row ∧
          core_folder_id row' =
            if decide (core_folder_id row = Some folderId) then None
            else core_folder_id row) ∧
     sections store' = sections store) ∧
  (let '(result, store') := deleteFolder None None folderId store in
   result = Return () ∧
   ∀ row, row ∈ folders store' ↔ row ∈ folders store ∧ folder_id row ≠ folderId) ∧
  (∀ e, let '(result, store') := deleteFolder None (Some e) folderId store in
        result = Throw e ∧ folders store' = folders store) ∧
  (∀ e rejects2, deleteFolder (Some e) rejects2 folderId store = (Throw e, store)).
Proof.
  split; [|split; [|split]].
  - intros rejects2 store'.
    assert (cores store' =
            (λ row, if inFolder folderId (core_folder_id row)
                    then withFolder row None else row) <$> cores store) as Hc.
    { unfold store', deleteFolder. by destruct rejects2. }
    assert (sections store' = sections store) as Hs.
    { unfold store', deleteFolder. by destruct rejects2. }
    rewrite Hc. split; [|split; [|split]].
    + intros row (row0 & -> & _)%list_elem_of_fmap.
      destruct (inFolder folderId (core_folder_id row0)) eqn:E; [done|].
      intros H. apply inFolder_spec in H. congruence.
    + by rewrite length_fmap.
    + intros i row Hi. rewrite list_lookup_fmap, Hi. simpl. eexists. split; [done|].
      destruct (inFolder folderId (core_folder_id row)) eqn:E.
      * apply inFolder_spec in E. by rewrite decide_True.
      * rewrite decide_False; [done|]. intros H. apply inFolder_spec in H. congruence.
    + done.
  - cbn. split; [done|]. intros row. rewrite list_elem_of_filter.
    rewrite String.eqb_neq. tauto.
  - done.
  - done.
Qed.

(** X21.  Deleting a core.  The sections of the core are deleted first and the
    core second, so that no section refers to the core when the statement
    that deletes it is issued.  When both statements go through, the core
    and its sections are gone and every other core, every other section and
    every folder are what they were.  When the first statement is rejected
    nothing has changed; when the second is, the sections of the core are
    already gone although the core remains. *)
Theorem delete_core_removes_sections_first (coreId : string) (store : Store) :
  (∀ rejects2,
     let store' := (deleteCore None rejects2 coreId store).2 in
     (∀ entry, entry ∈ sections store' ↔ entry ∈ sections store ∧ entry.1 ≠ coreId) ∧
     folders store' = folders store) ∧
  (let '(result, store') := deleteCore None None coreId store in
   result = Return () ∧
   ∀ row, row ∈ cores store' ↔ row ∈ cores store ∧ core_id row ≠ coreId) ∧
  (∀ e, let '(result, store') := deleteCore None (Some e) coreId store in
        result = Throw e ∧ cores store' = cores store) ∧
  (∀ e rejects2, deleteCore (Some e) rejects2 coreId store = (Throw e, store)).
Proof.
  split; [|split; [|split]].
  - intros rejects2 store'.
    assert (sections store' =
            filter (λ entry : string * CoreService.SectionRow,
                      String.eqb entry.1 coreId = false) (sections store)) as Hs.
    { unfold store', deleteCore. by destruct rejects2. }
    assert (folders store' = folders store) as Hf.
    { unfold store', deleteCore. by destruct rejects2. }
    split; [|done]. intros entry. rewrite Hs, list_elem_of_filter, String.eqb_neq. tauto.
  - cbn. split; [done|]. intros row. rewrite list_elem_of_filter, String.eqb_neq. tauto.
  - done.
  - done.
Qed.

Lemma inSync_spec (userId : string) (app : AppState) (store : Store) :
  inSync userId app store ↔
    app_cores app =
      dbCoreToAppCore <$>
        filter (λ row, String.eqb (core_user_id row) userId = true) (cores store) ∧
    app_folders app =
      dbFolderToAppFolder <$>
        filter (λ row, String.eqb (folder_user_id row) userId = true) (folders store).
Proof.
  unfold inSync, fetchFoldersAndCores. split.
  - by intros [= -> ->].
  - by intros [-> ->].
Qed.

(** X22.  The list of cores and folders stays that of the store.  If the
    application shows the cores and folders the store holds for the user,
    it still does after a folder or a core has been deleted, a core moved
    or a folder renamed, identifiers being unique in their table: the
    handlers change the lists they hold in step with what the statements
    did to the rows.  It also does when the store rejects the first
    statement of an operation, for then neither side has changed. *)
Theorem handlers_keep_lists_in_step (userId : string) (app : AppState) (store : Store) :
  inSync userId app store →
  (∀ folderId,
     let '(app', store') := handleDeleteFolder None None folderId app store in
     inSync userId app' store') ∧
  (∀ coreId,
     let '(app', store') := handleDeleteCore None None coreId app store in
     inSync userId app' store') ∧
  (∀ coreId folderId,
     NoDup (core_id <$> cores store) →
     let '(app', store') := handleMoveCore None coreId folderId app store in
     inSync userId app' store') ∧
  (∀ folderId newName,
     NoDup (folder_id <$> folders store) →
     let '(app', store') := handleRenameFolder None folderId newName app store in
     inSync userId app' store') ∧
  (∀ e rejects2 folderId coreId folder newName,
     handleDeleteFolder (Some e) rejects2 folderId app store = (showError app e, store) ∧
     handleDeleteCore (Some e) rejects2 coreId app store = (showError app e, store) ∧
     handleMoveCore (Some e) coreId folder app store = (showError app e, store) ∧
     handleRenameFolder (Some e) folderId newName app store = (showError app e, store) ∧
     inSync userId (showError app e) store).
Proof.
  intros Hsync. pose proof Hsync as [Hc Hf]%inSync_spec.
  split; [|split; [|split; [|split]]].
  - intros folderId. cbn. apply inSync_spec. cbn. split.
    + rewrite Hc. rewrite (filter_fmap_bool _ (λ row, String.eqb (core_user_id row) userId)).
      2:{ intros row. by destruct (inFolder folderId (core_folder_id row)). }
      rewrite <- !list_fmap_compose. apply list_fmap_ext. intros i row _. cbn.
      by destruct (inFolder folderId (core_folder_id row)).
    + rewrite Hf.
      rewrite (filter_fmap_bool _ (λ row, String.eqb (folder_id row) folderId))
        by done.
      f_equal. apply filter_filter_bool.
  - intros coreId. cbn. apply inSync_spec. cbn. split; [|done].
    rewrite Hc.
    rewrite (filter_fmap_bool _ (λ row, String.eqb (core_id row) coreId)) by done.
    f_equal. apply filter_filter_bool.
  - intros coreId folderId Hnd. unfold handleMoveCore, moveCore.
    destruct (filter (λ row, String.eqb (core_id row) coreId = true) (cores store))
      as [|row0 rest] eqn:Ef.
    + apply inSync_spec. cbn. split; [|done]. rewrite Hc. do 2 f_equal.
      symmetry. apply (fmap_if_id (λ row, String.eqb (core_id row) coreId)).
      by apply filter_none.
    + apply inSync_spec. cbn. split; [|done]. rewrite Hc.
      rewrite (filter_fmap_bool _ (λ row, String.eqb (core_user_id row) userId)).
      2:{ intros row. by destruct (String.eqb (core_id row) coreId). }
      rewrite <- !list_fmap_compose. apply list_fmap_ext. intros i row Hi. cbn.
      destruct (String.eqb_spec (core_id row) coreId) as [Heq|Hne]; [|done].
      apply list_elem_of_lookup_2, list_elem_of_filter in Hi as [_ Hi].
      by rewrite (unique_key_first core_id coreId (cores store) row0 rest Hnd Ef row Hi Heq).
  - intros folderId newName Hnd. unfold handleRenameFolder, renameFolder.
    destruct (filter (λ row, String.eqb (folder_id row) folderId = true) (folders store))
      as [|row0 rest] eqn:Ef.
    + apply inSync_spec. cbn. split; [done|]. rewrite Hf. do 2 f_equal.
      symmetry. apply (fmap_if_id (λ row, String.eqb (folder_id row) folderId)).
      by apply filter_none.
    + apply inSync_spec. cbn. split; [done|]. rewrite Hf.
      rewrite (filter_fmap_bool _ (λ row, String.eqb (folder_user_id row) userId)).
      2:{ intros row. by destruct (String.eqb (folder_id row) folderId). }
      rewrite <- !list_fmap_compose. apply list_fmap_ext. intros i row Hi. cbn.
      destruct (String.eqb_spec (folder_id row) folderId) as [Heq|Hne]; [|done].
      apply list_elem_of_lookup_2, list_elem_of_filter in Hi as [_ Hi].
      by rewrite (unique_key_first folder_id folderId (folders store) row0 rest Hnd Ef row Hi Heq).
  - intros e rejects2 folderId coreId folder newName. repeat (split; [done|]).
    by apply inSync_spec.
Qed.

(** X23.  A deletion is not atomic.  If the store rejects the second statement
    of the deletion of a folder that holds a core of the user, the handler
    reports the error and leaves its lists as they were, while in the store
    the core is unfiled already: the application no longer shows what the
    store holds, the core being listed under a folder it is no longer
    in. *)
Theorem rejected_folder_deletion_leaves_stale_list (userId folderId e : string)
    (app : AppState) (store : Store) (row : CoreRow) :
  inSync userId app store →
  row ∈ cores store → core_user_id row = userId → core_folder_id row = Some folderId →
  let '(app', store') := handleDeleteFolder None (Some e) folderId app store in
  app' = showError app e ∧
  dbCoreToAppCore row ∈ app_cores app' ∧
  (∀ row', row' ∈ cores store' → core_folder_id row' ≠ Some folderId) ∧
  ¬ inSync userId app' store'.
Proof.
  intros [Hc Hf]%inSync_spec Hrow Huser Hfolder. cbn.
  assert (dbCoreToAppCore row ∈ app_cores app) as Hin.
  { rewrite Hc. apply list_elem_of_fmap_2, list_elem_of_filter. split; [|done].
    by apply String.eqb_eq. }
  assert (∀ row', row' ∈ (λ row, if inFolder folderId (core_folder_id row)
                                  then withFolder row None else row) <$> cores store →
                  core_folder_id row' ≠ Some folderId) as Hnone.
  { intros row' (row0 & -> & _)%list_elem_of_fmap.
    destruct (inFolder folderId (core_folder_id row0)) eqn:E; [done|].
    intros H. apply inFolder_spec in H. congruence. }
  split; [done|]. split; [done|]. split; [done|].
  intros [Hc' _]%inSync_spec. cbn in Hc'. rewrite Hc' in Hin.
  apply list_elem_of_fmap in Hin as (row' & Hrow' & [_ Hin]%list_elem_of_filter).
  apply (Hnone row' Hin). rewrite <- Hfolder.
  symmetry. exact (f_equal c_folder_id Hrow').
Qed.

(** X24.  Saving a core.  A new core is refused when the store already holds a
    row with its identifier: the service throws before it writes, and the
    store is what it was.  Otherwise the row is added at the end, owned by
    the signed-in user.  Editing changes the name, the project and the
    folder of the rows with the identifier of the core and nothing else: no
    row is added or removed, and every row keeps its identifier and its
    owner.  Neither path touches folders or sections; and without a session
    the handler does nothing. *)
Theorem save_core_outcomes (coreToSave : Core) (userId : string) (store : Store) :
  (∀ rejects2,
     existsb (λ row, String.eqb (core_id row) (c_id coreToSave)) (cores store) = true →
     ∃ m, saveCore None rejects2 coreToSave userId false store = (Throw m, store)) ∧
  (existsb (λ row, String.eqb (core_id row) (c_id coreToSave)) (cores store) = false →
     ∃ saved store',
       saveCore None None coreToSave userId false store = (Return saved, store') ∧
       cores store' = cores store ++ [appCoreToDbCore coreToSave userId] ∧
       c_id saved = c_id coreToSave ∧ c_user_id saved = userId ∧
       c_name saved = c_name coreToSave ∧ c_project saved = c_project coreToSave ∧
       c_folder_id saved = c_folder_id coreToSave) ∧
  (∀ rejects1 rejects2,
     let store' := (saveCore rejects1 rejects2 coreToSave userId true store).2 in
     length (cores store') = length (cores store) ∧
     ∀ i row, cores store !! i = Some row →
       ∃ row', cores store' !! i = Some row' ∧
         core_id row' = core_id row ∧ core_user_id row' = core_user_id row ∧
         (core_id row ≠ c_id coreToSave → row' = row)) ∧
  (∀ rejects1 rejects2 isEditing,
     let store' := (saveCore rejects1 rejects2 coreToSave userId isEditing store).2 in
     folders store' = folders store ∧ sections store' = sections store) ∧
  (∀ rejects1 rejects2 app,
     handleSaveCore rejects1 rejects2 None coreToSave app store = (app, store)).
Proof.
  split; [|split; [|split; [|split]]].
  - intros rejects2 H. unfold saveCore. rewrite H. by eexists.
  - intros H. unfold saveCore. rewrite H. by do 2 eexists.
  - intros rejects1 rejects2 store'. unfold store', saveCore.
    destruct rejects2 as [e|]; cbn [snd].
    { split; [done|]. intros i row Hi. by exists row. }
    destruct (filter _ (cores store)); cbn [snd cores].
    + split; [by rewrite length_fmap|]. intros i row Hi. rewrite list_lookup_fmap, Hi.
      simpl. eexists. split; [done|].
      destruct (String.eqb_spec (core_id row) (c_id coreToSave)); done.
    + split; [by rewrite length_fmap|]. intros i row Hi. rewrite list_lookup_fmap, Hi.
      simpl. eexists. split; [done|].
      destruct (String.eqb_spec (core_id row) (c_id coreToSave)); done.
  - intros rejects1 rejects2 isEditing store'. unfold store', saveCore.
    destruct isEditing.
    + destruct rejects2; [done|]. by destruct (filter _ (cores store)).
    + destruct rejects1; [done|]. destruct (existsb _ (cores store)); [done|].
      by destruct rejects2.
  - done.
Qed.

End CoreStoreFacts.

(* ===================================================================== *)
(** ** What is sent for an age model; loading and updating sections *)
(* ===================================================================== *)

Section RequestFacts.
Context `{JS : JSNumber}.
Import AgeModelRequest.





End RequestFacts.

Section DashboardOutcomes.
Context `{JS : JSNumber}.
Import CoreService CoreDashboard.

(** X11.  Loading and updating the sections of the dashboard.  A load that the
    store answers with an error leaves the sections that were shown and
    reports the error, even when the answer also carries rows; otherwise it
    shows one section for each returned row, in order, with the identifier,
    the name and as many points as the row, and none when the answer has
    no rows.  An update that throws leaves the sections as they were and
    reports the error; one that returns replaces the sections with the
    identifier of the returned section by it and leaves every other
    section, and the number of sections, as they were. *)
Theorem dashboard_load_and_update_outcomes (sections : list CoreSection) :
  (∀ reply e, reply_error reply = Some e →
     fetchSections reply sections = (sections, Some ("Error fetching sections: " ++ e)%string)) ∧
  (∀ reply, reply_error reply = None →
     let rows := default [] (reply_data reply) in
     (fetchSections reply sections).2 = None ∧
     length (fetchSections reply sections).1 = length rows ∧
     ∀ i row, rows !! i = Some row →
       ∃ s, (fetchSections reply sections).1 !! i = Some s ∧
         sec_id s = row_id row ∧ sec_name s = row_name row ∧
         length (dataPoints s) = length (default [] (data_points row))) ∧
  (∀ updateSection updatedSection message,
     updateSection updatedSection = Throw message →
     handleUpdateSectionData updateSection updatedSection sections =
       (sections, Some ("Error updating section: " ++ message)%string)) ∧
  (∀ updateSection updatedSection newSection,
     updateSection updatedSection = Return newSection →
     (handleUpdateSectionData updateSection updatedSection sections).2 = None ∧
     length (handleUpdateSectionData updateSection updatedSection sections).1
       = length sections ∧
     ∀ i s, sections !! i = Some s →
       (handleUpdateSectionData updateSection updatedSection sections).1 !! i =
         Some (if decide (sec_id s = sec_id newSection) then newSection else s)).
Proof.
  split; [|split; [|split]].
  - intros reply e He. unfold fetchSections, fetchSectionsForCore. by rewrite He.
  - intros reply He rows. unfold fetchSections, fetchSectionsForCore. rewrite He.
    unfold rows. destruct (reply_data reply) as [l|]; cbn [fst snd default from_option id].
    + split; [done|]. split; [by rewrite !length_fmap|]. intros i row Hi.
      rewrite !list_lookup_fmap, Hi. simpl. eexists. split; [done|].
      destruct (withAverages_spec (dbSectionToAppSection row)) as [Hpts _].
      rewrite Hpts. cbn [dbSectionToAppSection dataPoints]. rewrite length_imap.
      unfold withAverages. by destruct (negb _).
    + split; [done|]. split; [done|]. by intros i row Hi.
  - intros updateSection updatedSection message H. unfold handleUpdateSectionData.
    by rewrite H.
  - intros updateSection updatedSection newSection H. unfold handleUpdateSectionData.
    rewrite H. cbn [fst snd]. split; [done|]. split; [by rewrite length_fmap|].
    intros i s Hi. rewrite list_lookup_fmap, Hi. simpl. f_equal.
    destruct (String.eqb_spec (sec_id s) (sec_id newSection)) as [Heq|Hne].
    + by rewrite decide_True.
    + by rewrite decide_False.
Qed.

End DashboardOutcomes.

(* ===================================================================== *)
(** ** Importing a file a second time *)
(* ===================================================================== *)

Section Reimport.
Context `{JS : JSNumber} `{!JSNumberLaws JS}.
Import DataInputManager.

Lemma keyed_row (now : nat → N) (index : nat) (r : gmap string value)
    (cur : option (gmap string value)) (k : string) :
  usableKey (get r "subsection") = Some k →
  rowKey now index r = k ∧ rowValue now index r cur = spread2 (default ∅ cur) r.
Proof. intros H. unfold rowKey, rowValue. by rewrite H. Qed.

(** With keyed rows the clock and the position play no part. *)
Lemma keyed_entryAfter_indep (now now' : nat → N) (k : string) (index index' : nat)
    (rows : list (gmap string value)) (cur : option (gmap string value)) :
  Forall (λ r, is_Some (usableKey (get r "subsection"))) rows →
  entryAfter now k index rows cur = entryAfter now' k index' rows cur.
Proof.
  intros H. revert index index' cur.
  induction H as [|r rows [kr Hr] _ IH]; intros index index' cur; [done|].
  cbn [entryAfter].
  destruct (keyed_row now index r cur kr Hr) as [-> ->].
  destruct (keyed_row now' index' r cur kr Hr) as [-> ->].
  apply IH.
Qed.

(** A field of the entry under [k] after the rows: either the rows leave
    it as it was, or they set it to a value of their own. *)
Lemma keyed_entryAfter_field (now : nat → N) (k : string)
    (rows : list (gmap string value)) (f : string) :
  Forall (λ r, is_Some (usableKey (get r "subsection"))) rows →
  (∀ index cur, default ∅ (entryAfter now k index rows cur) !! f = default ∅ cur !! f) ∨
  (∃ x, ∀ index cur, default ∅ (entryAfter now k index rows cur) !! f = Some x).
Proof.
  induction 1 as [|r rows [kr Hr] _ IH]; [by left|].
  destruct IH as [IH|[x IH]].
  - destruct (String.eqb_spec kr k) as [Hk|Hk].
    + destruct (r !! f) as [x|] eqn:Ef.
      * right. exists x. intros index cur. cbn [entryAfter]. rewrite IH.
        destruct (keyed_row now index r cur kr Hr) as [-> ->].
        apply String.eqb_eq in Hk. rewrite Hk. cbn [default from_option id].
        by rewrite lookup_spread2, Ef.
      * left. intros index cur. cbn [entryAfter]. rewrite IH.
        destruct (keyed_row now index r cur kr Hr) as [-> ->].
        apply String.eqb_eq in Hk. rewrite Hk. cbn [default from_option id].
        by rewrite lookup_spread2, Ef.
    + left. intros index cur. cbn [entryAfter]. rewrite IH.
      destruct (keyed_row now index r cur kr Hr) as [-> _].
      apply String.eqb_neq in Hk. by rewrite Hk.
  - right. exists x. intros index cur. cbn [entryAfter]. apply IH.
Qed.

Lemma keyed_entryAfter_idem (now now' : nat → N) (k : string) (index index' : nat)
    (rows : list (gmap string value)) (cur : option (gmap string value))
    (p : gmap string value) :
  Forall (λ r, is_Some (usableKey (get r "subsection"))) rows →
  entryAfter now k index rows cur = Some p →
  entryAfter now' k index' rows (Some p) = Some p.
Proof.
  intros Hkeyed Hp.
  destruct (entryAfter_is_Some now' k index' rows (Some p)) as [p' Hp']; [by eexists|].
  rewrite Hp'. f_equal. apply map_eq. intros f.
  rewrite (keyed_entryAfter_indep now' now k index' index rows (Some p) Hkeyed) in Hp'.
  destruct (keyed_entryAfter_field now k rows f Hkeyed) as [Hid|[x Hx]].
  - specialize (Hid index (Some p)). by rewrite Hp' in Hid.
  - pose proof (Hx index (Some p)) as H1. pose proof (Hx index cur) as H2.
    rewrite Hp' in H1. rewrite Hp in H2. cbn in H1, H2. congruence.
Qed.

(** Keys of a map with pairwise different keys. *)
Lemma get_entry {V : Type} (m : list (value * V)) (k : value) (v : V) :
  StronglySorted (λ e1 e2 : value * V, key_eqb e1.1 e2.1 = false) m →
  (k, v) ∈ m → JSMap.get k m = Some v.
Proof.
  induction m as [|[k' v'] m IH]; intros Hm Hin; [by apply elem_of_nil in Hin|].
  apply StronglySorted_inv in Hm as [Hm Hhd]. cbn [JSMap.get].
  apply elem_of_cons in Hin as [[= -> ->]|Hin].
  - by rewrite key_eqb_refl.
  - rewrite Forall_forall in Hhd. specialize (Hhd _ Hin). cbn [fst] in Hhd.
    rewrite Hhd. by apply IH.
Qed.

Lemma set_present_keys {V : Type} (k : value) (v : V) (m : list (value * V)) :
  JSMap.has k m = true → (JSMap.set k v m).*1 = m.*1.
Proof.
  unfold JSMap.has. induction m as [|[k' v'] m IH]; cbn [JSMap.get JSMap.set].
  - intros H. apply bool_decide_eq_true in H. by destruct H.
  - destruct (key_eqb k' k); [done|]. intros H. rewrite !fmap_cons. f_equal. by apply IH.
Qed.

Lemma has_keys {V W : Type} (k : value) (m : list (value * V)) (m' : list (value * W)) :
  m.*1 = m'.*1 → JSMap.has k m = JSMap.has k m'.
Proof.
  unfold JSMap.has. revert m'.
  induction m as [|[k1 v1] m IH]; intros [|[k2 v2] m']; try done.
  rewrite !fmap_cons. intros [= <- Hrest]. cbn [JSMap.get].
  destruct (key_eqb k1 k).
  - by rewrite !bool_decide_eq_true_2 by by eexists.
  - by apply IH.
Qed.

Lemma map_ext_keys {V : Type} (m m' : list (value * V)) :
  m.*1 = m'.*1 →
  StronglySorted (λ e1 e2 : value * V, key_eqb e1.1 e2.1 = false) m →
  (∀ k v, (k, v) ∈ m → JSMap.get k m' = Some v) →
  m' = m.
Proof.
  revert m'. induction m as [|[k v] m IH]; intros [|[k' v'] m']; try done.
  rewrite !fmap_cons. intros [= <- Hkeys] Hm Hget.
  apply StronglySorted_inv in Hm as [Hm Hhd].
  pose proof (Hget k v) as H0. cbn [JSMap.get] in H0. rewrite key_eqb_refl in H0.
  assert (v' = v) as -> by (by injection (H0 ltac:(apply elem_of_cons; by left))).
  f_equal. apply IH; [done|done|]. intros k1 v1 Hin.
  specialize (Hget k1 v1). cbn [JSMap.get] in Hget.
  rewrite Forall_forall in Hhd. pose proof (Hhd _ Hin) as Hne. cbn [fst] in Hne.
  rewrite Hne in Hget. apply Hget. apply elem_of_cons. by right.
Qed.

(** The map a series without repeated keys starts the merge with. *)
Lemma get_None_fresh {V : Type} (k : value) (m : list (value * V)) :
  Forall (λ e, key_eqb e.1 k = false) m → JSMap.get k m = None.
Proof.
  induction 1 as [|[k' v'] m Hk _ IH]; [done|]. cbn [JSMap.get]. cbn [fst] in Hk.
  by rewrite Hk.
Qed.

Lemma existingMap_distinct (points : list (gmap string value)) :
  distinctKeys points →
  existingMap points = (λ p, (get p "subsection", p)) <$> points.
Proof.
  unfold existingMap. induction points as [|p points IH] using rev_ind; [done|].
  intros Hd. rewrite fmap_app. cbn [fmap list_fmap]. rewrite of_entries_snoc.
  assert (distinctKeys (p :: points)) as Hd'.
  { eapply distinctKeys_Permutation; [|exact Hd]. by rewrite Permutation_app_comm. }
  apply StronglySorted_inv in Hd' as [Hpts Hp]. rewrite IH by done.
  rewrite set_fresh; [done|]. apply get_None_fresh. apply Forall_fmap.
  eapply Forall_impl; [exact Hp|]. intros q Hq. cbn [compose fst].
  by rewrite key_eqb_sym.
Qed.

(** A stable sort leaves a sorted series as it is. *)
Lemma sort_sorted {A : Type} (key : A → num) (l : list A) :
  Forall (λ y, isNaN (key y) = false) l →
  ascending key l →
  JSArray.sort (λ a b, sub (key a) (key b)) l = l.
Proof.
  intros Hnan Hasc. induction Hasc as [|x l Hasc IH Hx]; [done|].
  apply Forall_cons in Hnan as [Hnx Hnl]. cbn [JSArray.sort foldr].
  change (foldr (JSArray.insert (λ a b, sub (key a) (key b))) [] l)
    with (JSArray.sort (λ a b, sub (key a) (key b)) l).
  rewrite IH by done. destruct l as [|y l]; [done|]. cbn [JSArray.insert].
  apply Forall_cons in Hx as [Hxy _]. apply Forall_cons in Hnl as [Hny _].
  rewrite sub_pos by done. rewrite le_spec in Hxy by done.
  apply negb_true_iff in Hxy. by rewrite Hxy.
Qed.

Lemma merge_from_present (now : nat → N) (index : nat)
    (rows : list (gmap string value)) (st : MergeState) :
  Forall (λ r, is_Some (usableKey (get r "subsection"))) rows →
  Forall (λ r, JSMap.has (get r "subsection") (sectionPointsMap st) = true) rows →
  (sectionPointsMap (merge_from now index rows st)).*1 = (sectionPointsMap st).*1 ∧
  addedCount (merge_from now index rows st) = addedCount st ∧
  updatedCount (merge_from now index rows st) = length rows + updatedCount st.
Proof.
  intros Hkeyed. revert index st.
  induction Hkeyed as [|r rows [kr Hr] _ IH]; intros index st Hpresent; [done|].
  apply Forall_cons in Hpresent as [Hr0 Hpresent]. cbn [merge_from length].
  assert ((sectionPointsMap (merge_step now st index r)).*1 = (sectionPointsMap st).*1 ∧
          addedCount (merge_step now st index r) = addedCount st ∧
          updatedCount (merge_step now st index r) = S (updatedCount st)) as (H1 & H2 & H3).
  { unfold merge_step. rewrite Hr. cbn [sectionPointsMap addedCount updatedCount].
    rewrite Hr0. split; [|done]. by apply set_present_keys. }
  destruct (IH (S index) (merge_step now st index r)) as (G1 & G2 & G3).
  { eapply Forall_impl; [exact Hpresent|]. intros r' Hr'. cbn beta in *.
    by rewrite (has_keys _ _ (sectionPointsMap st)). }
  rewrite G1, G2, G3, H1, H2, H3. split; [done|]. split; [done|]. lia.
Qed.

Lemma get_elem_key {V : Type} (k : value) (v : V) (m : list (value * V)) :
  JSMap.get k m = Some v → ∃ k0, (k0, v) ∈ m ∧ key_eqb k0 k = true.
Proof.
  induction m as [|[k' v'] m IH]; [done|]. cbn [JSMap.get].
  destruct (key_eqb k' k) eqn:E.
  - intros [= ->]. exists k'. split; [apply elem_of_cons; by left|done].
  - intros (k0 & Hin & Hk)%IH. exists k0. split; [apply elem_of_cons; by right|done].
Qed.

Lemma key_eqb_VStr (a : string) (v : value) : key_eqb (VStr a) v = true → v = VStr a.
Proof. destruct v; simpl; try done. by intros ->%String.eqb_eq. Qed.

Lemma get_pairs_elem (l : list (gmap string value)) (w : gmap string value) (k : value) :
  w ∈ l → key_eqb (get w "subsection") k = true →
  is_Some (JSMap.get k ((λ p, (get p "subsection", p)) <$> l)).
Proof.
  induction l as [|p l IH]; intros Hin Hk; [by apply elem_of_nil in Hin|].
  rewrite fmap_cons. cbn [JSMap.get].
  destruct (key_eqb (get p "subsection") k) eqn:E; [by eexists|].
  apply elem_of_cons in Hin as [->|Hin]; [congruence|]. by apply IH.
Qed.

(** The map after the second import is the map it started from. *)
Lemma reimport_map (now now' : nat → N) (points rows : list (gmap string value)) :
  Forall (λ r, is_Some (usableKey (get r "subsection"))) rows →
  let merged := mergedPoints now points rows in
  let again := mergeBatch now' merged rows in
  sectionPointsMap again = (λ p, (get p "subsection", p)) <$> merged ∧
  addedCount again = 0 ∧ updatedCount again = length rows.
Proof.
  intros Hkeyed merged again.
  set (M1 := sectionPointsMap (mergeBatch now points rows)).
  destruct (existingMap_keys points) as [E1 E2].
  destruct (merge_from_keys now 0 rows
              {| sectionPointsMap := existingMap points;
                 updatedCount := 0; addedCount := 0 |} E1 E2) as [W1 W2].
  change (sectionPointsMap (merge_from now 0 rows _)) with M1 in W1, W2.
  assert (merged ≡ₚ JSMap.values M1) as Hperm by apply sort_Permutation.
  assert (distinctKeys merged) as Hdistinct.
  { apply (distinctKeys_Permutation (JSMap.values M1)); [done|].
    by apply values_distinctKeys. }
  pose proof (existingMap_distinct merged Hdistinct) as Hstart.
  destruct (existingMap_keys merged) as [S1 S2].
  (* every point of the merged series is the entry of the first import under its key *)
  assert (∀ p k, p ∈ merged → get p "subsection" = VStr k →
                 JSMap.get (VStr k) M1 = Some p) as Hfirst.
  { intros p k Hp Hk. rewrite Hperm in Hp. unfold JSMap.values in Hp.
    apply list_elem_of_fmap in Hp as ([k1 p1] & -> & Hin). cbn [snd] in *.
    rewrite Forall_forall in W2. pose proof (W2 _ Hin) as Hmatch. cbn [fst snd] in Hmatch.
    rewrite Hk in Hmatch. apply key_eqb_VStr in Hmatch. subst k1.
    by apply get_entry. }
  (* every row finds its key in the map the second import starts from *)
  assert (Forall (λ r, JSMap.has (get r "subsection") (existingMap merged) = true) rows)
    as Hpresent.
  { apply Forall_lookup. intros i r Hi.
    rewrite Forall_lookup in Hkeyed. destruct (Hkeyed i r Hi) as [kr Hr].
    pose proof (usableKey_Some _ _ Hr) as [Hsub _]. rewrite Hsub.
    destruct (entryAfter_hit now kr 0 rows (JSMap.get (VStr kr) (existingMap points)) i r Hi)
      as [w Hw]; [by destruct (keyed_row now (0 + i) r None kr Hr)|].
    rewrite <- mergeBatch_get in Hw.
    pose proof (mergedPoints_from_get now points rows kr w Hw) as Hin.
    apply get_elem_key in Hw as (k0 & Hk0 & Heq). fold M1 in Hk0.
    rewrite Forall_forall in W2. pose proof (W2 _ Hk0) as Hmatch. cbn [fst snd] in Hmatch.
    unfold JSMap.has. apply bool_decide_eq_true. rewrite Hstart.
    apply (get_pairs_elem merged w); [done|]. by apply (key_eqb_trans _ k0). }
  destruct (merge_from_present now' 0 rows
              {| sectionPointsMap := existingMap merged;
                 updatedCount := 0; addedCount := 0 |} Hkeyed Hpresent) as (K1 & K2 & K3).
  change (merge_from now' 0 rows _) with again in K1, K2, K3.
  cbn [sectionPointsMap addedCount updatedCount] in K1, K2, K3.
  split; [|split; [done|lia]].
  rewrite <- Hstart. apply map_ext_keys; [done|done|].
  intros k0 p Hin.
  pose proof (get_entry _ _ _ S1 Hin) as Hget0.
  assert (p ∈ merged ∧ k0 = get p "subsection") as [Hp Hk0].
  { rewrite Hstart in Hin. apply list_elem_of_fmap in Hin as (q & [= -> ->] & Hq). done. }
  destruct (decide (Exists (λ r, key_eqb (get r "subsection") k0 = true) rows))
    as [Hex|Hnex].
  - apply Exists_exists in Hex as (r & Hr & Hrk).
    rewrite Forall_forall in Hkeyed. destruct (Hkeyed r Hr) as [kr Hkr].
    pose proof (usableKey_Some _ _ Hkr) as [Hsub _]. rewrite Hsub in Hrk.
    apply key_eqb_VStr in Hrk. rewrite Hrk in Hget0, Hk0 |- *.
    unfold again. rewrite mergeBatch_get, Hget0.
    apply (keyed_entryAfter_idem now now' kr 0 0 rows
             (JSMap.get (VStr kr) (existingMap points))).
    + by apply Forall_forall.
    + rewrite <- mergeBatch_get. by apply Hfirst.
  - unfold again, mergeBatch. rewrite merge_from_untouched; [done|].
    intros j r Hj. apply not_true_is_false. intros Heq. apply Hnex.
    apply Exists_exists. exists r. split; [by apply list_elem_of_lookup_2 in Hj|].
    rewrite Forall_lookup in Hkeyed. destruct (Hkeyed j r Hj) as [kr Hkr].
    pose proof (usableKey_Some _ _ Hkr) as [Hsub _]. rewrite Hsub.
    by destruct (keyed_row now' (0 + j) r None kr Hkr) as [<- _].
Qed.

(** X25.  Importing the same file a second time changes nothing.  When
    every parsed row carries a usable subsection key, a second import of
    the rows into the series the first import produced counts every row as
    updated and none as added, and hands on the same points: the map it
    ends with holds the points of that series, one for each, in their
    order, so that the new series is the old one rearranged, and is the old
    one as soon as the depths involved are numbers.  The clock plays no
    part. *)
Theorem reimport_changes_nothing (now now' : nat → N)
    (points rows : list (gmap string value)) :
  Forall (λ r, is_Some (usableKey (get r "subsection"))) rows →
  let merged := mergedPoints now points rows in
  let again := mergeBatch now' merged rows in
  addedCount again = 0 ∧ updatedCount again = length rows ∧
  JSMap.values (sectionPointsMap again) = merged ∧
  mergedPoints now' merged rows ≡ₚ merged ∧
  (Forall DepthTyped points → Forall DepthTyped rows →
   mergedPoints now' merged rows = merged).
Proof.
  intros Hkeyed merged again.
  destruct (reimport_map now now' points rows Hkeyed) as (Hmap & Hadded & Hupdated).
  fold merged in Hmap, Hadded, Hupdated. fold again in Hmap, Hadded, Hupdated.
  assert (JSMap.values (sectionPointsMap again) = merged) as Hvalues.
  { rewrite Hmap. unfold JSMap.values. rewrite <- list_fmap_compose.
    rewrite <- (list_fmap_id merged) at 2. by apply list_fmap_ext. }
  split; [done|]. split; [done|]. split; [done|].
  assert (mergedPoints now' merged rows = JSArray.sort byDepth merged) as ->
    by (unfold mergedPoints at 1; fold again; by rewrite Hvalues).
  split.
  - apply sort_Permutation.
  - intros Hp Hr. apply (sort_sorted depthKey).
    + eapply Forall_impl; [by apply merged_DepthTyped|]. apply DepthTyped_sortable.
    + by apply mergedPoints_ascending.
Qed.

End Reimport.

(* ===================================================================== *)
(** ** Worked examples for the further properties *)
(* ===================================================================== *)

Module EntrySeriesExample.
Import Exact ExactLaws DataInputManager Sample MoreSample.

Lemma manual_entry_series_witness :
  JSNumberLaws exact ∧
  out_update (handleAddDataPoint filledForm section1) = Some filledSection ∧
  ascending (λ p, match p !! "depth" with
                  | Some (VNum n) => if isNaN n then zero else n
                  | _ => zero
                  end) (dataPoints filledSection).
Proof.
  split; [exact exact_laws|]. split; [reflexivity|].
  destruct (manual_entry_series_effect filledForm section1 filledSection eq_refl)
    as (_ & _ & H & _).
  apply H. repeat constructor.
Defined.

End EntrySeriesExample.

Module DistinctKeysExample.
Import Exact ExactLaws DataInputManager Sample.

Lemma distinct_keys_witness :
  JSNumberLaws exact ∧
  distinctKeys (mergedPoints clock [pointA; pointA] [rowA; rowB; rowC]).
Proof.
  split; [exact exact_laws|].
  exact (proj1 (import_leaves_distinct_keys clock [pointA; pointA] [rowA; rowB; rowC])).
Defined.

Example duplicates_collapse :
  mergedPoints clock [pointA; pointA] [] = [pointA].
Proof. reflexivity. Qed.

Lemma reimport_witness :
  JSNumberLaws exact ∧
  Forall (λ r, is_Some (usableKey (get r "subsection"))) [rowA; rowB] ∧
  mergedPoints clock (mergedPoints clock [pointA] [rowA; rowB]) [rowA; rowB] =
    mergedPoints clock [pointA] [rowA; rowB].
Proof.
  assert (Forall (λ r, is_Some (usableKey (get r "subsection"))) [rowA; rowB]) as Hkeyed
    by (repeat constructor; eexists; reflexivity).
  split; [exact exact_laws|]. split; [exact Hkeyed|].
  destruct (reimport_changes_nothing clock clock [pointA] [rowA; rowB] Hkeyed)
    as (_ & _ & _ & _ & H).
  apply H; repeat constructor.
Defined.

Example reimport_counts :
  addedCount (mergeBatch clock (mergedPoints clock [pointA] [rowA; rowB]) [rowA; rowB]) = 0 ∧
  updatedCount (mergeBatch clock (mergedPoints clock [pointA] [rowA; rowB]) [rowA; rowB]) = 2 ∧
  addedCount (mergeBatch clock [pointA] [rowA; rowB]) = 1 ∧
  updatedCount (mergeBatch clock [pointA] [rowA; rowB]) = 1.
Proof. repeat split. Qed.

End DistinctKeysExample.

Module ParsedRowExample.
Import Exact DataInputManager Sample MoreSample.

(** The column headed [1] is read before the column headed [2], although
    it comes second in the file: the depth is that of the column headed
    [2]. *)
Example numbered_columns :
  JSObject.forIn numberedRow = [("1", int 9); ("2", int 5)] ∧
  parseRow numberedMapping numberedRow = {["depth" := int 5]} ∧
  JSObject.forIn [("Sample", VStr "A"); ("10", int 1); ("Depth", int 2); ("01", int 3);
                  ("9", int 4)]
    = [("9", int 4); ("10", int 1); ("Sample", VStr "A"); ("Depth", int 2); ("01", int 3)].
Proof. repeat split. Qed.

End ParsedRowExample.

Module SaveExample.
Import Exact CoreService SectionStore Sample MoreSample.

Lemma saved_section_witness :
  (updateSection None [storedRow] section1).1 = Return section1.
Proof.
  pose proof (saved_section_reads_back [storedRow] section1) as H. cbv zeta in H.
  destruct H as (_ & H & _). rewrite H; [reflexivity|].
  exists storedRow. split; [apply elem_of_cons; left; reflexivity|reflexivity].
Defined.

Example unbounded_value_is_stored_as_null :
  (updateSection None [storedRow] unboundedSection).1 =
    Return {| sec_id := "S1"; sec_name := "Section 1";
              dataPoints := [ <["subsection" := VStr "Subsection 1"]>
                                (<["delta18O" := VNull]> {["depth" := int 10]}) ];
              labAnalysis := Some ∅ |}.
Proof. reflexivity. Qed.

Example loaded_section :
  (CoreDashboard.fetchSections (storeSelect [row1]) []).1 = [loaded1].
Proof. reflexivity. Qed.

Lemma dashboard_after_save_witness :
  loaded1 ∈ (CoreDashboard.fetchSections (storeSelect [row1]) []).1 ∧
  DataInputManager.out_update (DataInputManager.handleAddDataPoint filledForm loaded1)
    = Some filledSection ∧
  CoreDashboard.afterHandler (λ s, (updateSection None [row1] s).1) (Some filledSection)
      (CoreDashboard.fetchSections (storeSelect [row1]) []).1
    = (CoreDashboard.fetchSections
         (storeSelect (updateSection None [row1] filledSection).2)
         (CoreDashboard.fetchSections (storeSelect [row1]) []).1).1 ∧
  (CoreDashboard.fetchSections
     (storeSelect (updateSection None [row1] filledSection).2) [loaded1]).1
    = [filledSection].
Proof.
  assert (loaded1 ∈ (CoreDashboard.fetchSections (storeSelect [row1]) []).1) as Hin
    by (apply elem_of_cons; left; reflexivity).
  split; [exact Hin|]. split; [reflexivity|]. split; [|reflexivity].
  pose proof (dashboard_matches_store_after_save [row1] []) as H. cbv zeta in H.
  destruct H as (Hun & H & _).
  apply (H filledForm loaded1 filledSection Hin eq_refl).
  - intros p Hp. apply Hun.
    apply elem_of_cons in Hp as [->|Hp]; [reflexivity|].
    apply list_elem_of_singleton in Hp as ->. reflexivity.
  - apply Hun. reflexivity.
Defined.

End SaveExample.

Module AgeStructureExample.
Import Exact CoreService Sample MoreSample.

Lemma age_model_structure_witness :
  generateAgeModel (Some dating) [section1] ties = Return dated ∧
  length dated = length [section1].
Proof.
  split; [reflexivity|].
  destruct (age_model_keeps_structure (Some dating) [section1] ties dated eq_refl)
    as [H _].
  exact H.
Defined.

Lemma age_model_idempotent_witness :
  generateAgeModel (Some dating) [section1] ties = Return dated ∧
  dating dated ties = dating [section1] ties ∧
  generateAgeModel (Some dating) dated ties = Return dated.
Proof.
  split; [reflexivity|]. split; [reflexivity|].
  exact (age_model_is_idempotent dating [section1] ties dated eq_refl eq_refl).
Defined.

End AgeStructureExample.

Module EventExample.
Import Exact ExactLaws PaleoEvents Sample.

Lemma event_detection_witness :
  JSNumberLaws exact ∧
  detectPaleoEvents (Some (λ _, EventsThrow "unreachable")) [aged "a" 3; aged "b" 10]
    = Return [].
Proof.
  split; [exact exact_laws|].
  destruct (event_detection_outcomes (λ _, EventsThrow "unreachable")
              [aged "a" 3; aged "b" 10]) as (_ & H & _).
  apply H. apply Nat.ltb_lt. reflexivity.
Defined.

End EventExample.

Module CoreStoreExample.
Import Exact CoreStore MoreSample.

Lemma lists_in_step_witness :
  inSync "u1" app0 store0 ∧
  inSync "u1" (handleDeleteFolder None None "F1" app0 store0).1
              (handleDeleteFolder None None "F1" app0 store0).2.
Proof.
  split; [reflexivity|].
  destruct (handlers_keep_lists_in_step "u1" app0 store0 eq_refl) as [H _].
  exact (H "F1").
Defined.

Lemma stale_list_witness :
  (inSync "u1" app0 store0 ∧ coreA ∈ cores store0 ∧
   core_user_id coreA = "u1" ∧ core_folder_id coreA = Some "F1") ∧
  ¬ inSync "u1" (handleDeleteFolder None (Some "timeout") "F1" app0 store0).1
                (handleDeleteFolder None (Some "timeout") "F1" app0 store0).2.
Proof.
  assert (coreA ∈ cores store0) as Hin by (apply elem_of_cons; left; reflexivity).
  split; [repeat split; exact Hin|].
  destruct (rejected_folder_deletion_leaves_stale_list "u1" "F1" "timeout" app0 store0 coreA
              eq_refl Hin eq_refl eq_refl) as (_ & _ & _ & H).
  exact H.
Defined.

End CoreStoreExample.
